(** * Qure clinic backend: the Redis-backed patient queue

    A shallow embedding of [backend/app/services/queue_service.py]
    (class [QueueService]) together with the part of Redis it talks to,
    and the properties of the queue coordinator proved on it.

    Layout:
    - [Py]: the Python values and built-ins the service uses
      ([str], [int], [or], dates and datetimes);
    - [Redis]: the key-value store, as a finite map from keys to typed,
      expiring entries, and the commands the service issues;
    - [QueueService]: the methods of the class, in a state-and-exception
      monad over the store, one definition per method;
    - requests, traces and the readings of the store the statements use;
    - [Models], [Schemas] and [QueueRouter]: the tables, the response
      models and the endpoints of [backend/app/routers/queue.py], which
      call the service;
    - the properties: keys, sorted sets, each method step by step, the
      shape of the reachable stores, the properties of the
      specification, and further properties of the service and of the
      endpoints.

    What the model takes for granted:
    - one call of the service runs alone and at one instant (the
      handlers are coroutines; their interleaving is not modelled);
    - timestamps are whole microseconds and Redis integers are
      unbounded;
    - a key with a deadline is gone once the server clock has passed the
      deadline ([Redis.at_time]); [run_at] serves every request at its
      own time on what is left of the store by then, [run] is the same
      for a stretch of time in which no expiry is due;
    - an endpoint runs for an authenticated user on a request that
      FastAPI has validated; a table is a map from the primary key to
      the row; the times kept as text in Redis are ISO texts, which
      [datetime.fromisoformat] parses. *)

From Stdlib Require Import ZArith String Ascii List Sorted OrdersEx Lia.
From Stdlib Require Import DecimalString DecimalZ DecimalNat DecimalPos.
From stdpp Require Import base option gmap strings list sorting.

Local Open Scope string_scope.
Local Open Scope Z_scope.

(** ** Python values *)

Module Py.

(** The exceptions that can escape a method of the service. *)
Inductive exn :=
| KeyError        (* [d[k]] on a missing key *)
| ValueError      (* [int(s)] on a string that is no integer literal *)
| ResponseError.  (* Redis refused the command (wrong type of key, ...) *)

Inductive outcome (A : Type) :=
| Ok (a : A)
| Raise (e : exn).
Arguments Ok {A} a.
Arguments Raise {A} e.

Definition obind {A B} (o : outcome A) (k : A -> outcome B) : outcome B :=
  match o with
  | Ok a => k a
  | Raise e => Raise e
  end.

(** [str(n)] for an [int]: the canonical decimal literal. *)
Definition str (n : Z) : string := NilZero.string_of_int (Z.to_int n).

(** [int(s)]: decimal digits with an optional leading minus. (Python also
    accepts surrounding blanks, a plus sign and underscores; the service
    only ever parses what [str] or Redis's INCR wrote.) *)
Definition int (s : string) : outcome Z :=
  match NilZero.int_of_string s with
  | Some d => Ok (Z.of_int d)
  | None => Raise ValueError
  end.

(** [str(b)] for a [bool]. *)
Definition str_bool (b : bool) : string := if b then "True" else "False".

(** Truth value of a string: non-empty. *)
Definition truthy (s : string) : bool := negb (String.eqb s "").

(** A value stored under a key of a Python dict that is sent to Redis. *)
Inductive val :=
| VInt (n : Z)
| VStr (s : string).

(** [appointment_id or ""] for an [Optional[int]]: [None] and [0] are
    falsy. *)
Definition int_or_empty (o : option Z) : val :=
  match o with
  | Some n => if n =? 0 then VStr "" else VInt n
  | None => VStr ""
  end.

(** [chief_complaint or ""] for an [Optional[str]]. *)
Definition str_or_empty (o : option string) : val :=
  match o with
  | Some s => VStr s
  | None => VStr ""
  end.

(** [d[k]] on a dict of strings. *)
Definition getitem (d : gmap string string) (k : string) : outcome string :=
  match d !! k with
  | Some v => Ok v
  | None => Raise KeyError
  end.

(** [d.get(k) or None]. *)
Definition get_or_none (d : gmap string string) (k : string) : option string :=
  match d !! k with
  | Some v => if truthy v then Some v else None
  | None => None
  end.

(** [d.get(k) == "True"]. *)
Definition get_is_True (d : gmap string string) (k : string) : bool :=
  match d !! k with
  | Some v => String.eqb v "True"
  | None => false
  end.

(** [int(d[k]) if d.get(k) else None]. *)
Definition get_int_or_none (d : gmap string string) (k : string)
  : outcome (option Z) :=
  match get_or_none d k with
  | Some v => obind (int v) (fun n => Ok (Some n))
  | None => Ok None
  end.

(** ['0' * k]. *)
Fixpoint zeros (k : nat) : string :=
  match k with
  | O => ""
  | S k' => String "0" (zeros k')
  end.

(** ["%0wd" % n] for a non-negative [n]. *)
Definition fmt_d (w : nat) (n : nat) : string :=
  let s := str (Z.of_nat n) in
  zeros (w - String.length s) ++ s.

(** [datetime.date]: a calendar date. Python keeps [1 <= year <= 9999],
    [1 <= month <= 12] and a day of that month; the keys below only need
    the three numbers. *)
Record date := Date { year : nat; month : nat; day : nat }.

#[global] Instance date_eq_dec : EqDecision date.
Proof. solve_decision. Defined.

(** [date.isoformat()]: YYYY-MM-DD. *)
Definition date_isoformat (d : date) : string :=
  fmt_d 4 (year d) ++ "-" ++ fmt_d 2 (month d) ++ "-" ++ fmt_d 2 (day d).

(** A [datetime.datetime] as the service observes it, through the two
    methods it calls: [isoformat()] and [timestamp()]. The timestamp is
    taken in whole microseconds (Python returns seconds as a float with
    microsecond resolution). *)
Record datetime := Datetime { isoformat : string; timestamp : Z }.

End Py.

(** ** The Redis store *)

Module Redis.
Import Py.

(** A sorted set, kept the way ZRANGE returns it: ascending by score,
    members of equal score in byte-wise lexicographic order. *)
Definition zset := list (Z * string).

Inductive value :=
| VString (s : string)
| VHash (h : gmap string string)
| VZSet (z : zset).

(** A key holds a value and, once EXPIRE or SET EX was applied, the
    server time (in seconds) at which it disappears. *)
Record entry := Entry { val : value; expires_at : option Z }.

Abbreviation db := (gmap string entry).

(** One call of the service happens at one moment: [utcnow] is what
    [datetime.utcnow()] returns in the service and [server_time] is the
    clock of the Redis server, in seconds, against which expiry is
    counted. *)
Record clock := Clock { utcnow : datetime; server_time : Z }.

(** Commands run against the store and may raise. *)
Definition M (A : Type) : Type := db -> outcome A * db.

Definition ret {A} (a : A) : M A := fun s => (Ok a, s).

Definition raise {A} (e : exn) : M A := fun s => (Raise e, s).

Definition bind {A B} (m : M A) (k : A -> M B) : M B :=
  fun s =>
    match m s with
    | (Ok a, s') => k a s'
    | (Raise e, s') => (Raise e, s')
    end.

Definition lift {A} (o : outcome A) : M A := fun s => (o, s).

(** Position of a member in a sorted set. *)
Definition zle (a b : Z * string) : bool :=
  (a.1 <? b.1) || ((a.1 =? b.1) && String.leb a.2 b.2).

Fixpoint zinsert (x : Z * string) (z : zset) : zset :=
  match z with
  | [] => [x]
  | y :: z' => if zle x y then x :: y :: z' else y :: zinsert x z'
  end.

Definition zremove (member : string) (z : zset) : zset :=
  List.filter (fun y => negb (String.eqb y.2 member)) z.

(** INCR key: a missing key counts as 0; the expiry of an existing key
    is kept. (The 64-bit range of Redis integers is not modelled.) *)
Definition incr (key : string) : M Z :=
  fun s =>
    match s !! key with
    | None => (Ok 1, <[key := Entry (VString (str 1)) None]> s)
    | Some (Entry (VString v) ex) =>
        match int v with
        | Ok n => (Ok (n + 1), <[key := Entry (VString (str (n + 1))) ex]> s)
        | Raise _ => (Raise ResponseError, s)
        end
    | Some _ => (Raise ResponseError, s)
    end.

(** EXPIRE key seconds: the key disappears [seconds] after now. *)
Definition expire (now : clock) (key : string) (seconds : Z) : M bool :=
  fun s =>
    match s !! key with
    | None => (Ok false, s)
    | Some (Entry v _) =>
        (Ok true, <[key := Entry v (Some (server_time now + seconds))]> s)
    end.

(** What redis-py writes for a Python value. *)
Definition encode (v : Py.val) : string :=
  match v with
  | VInt n => str n
  | VStr s => s
  end.

(** HSET key field value. *)
Definition hset (key field value : string) : M unit :=
  fun s =>
    match s !! key with
    | None => (Ok tt, <[key := Entry (VHash {[field := value]}) None]> s)
    | Some (Entry (VHash h) ex) =>
        (Ok tt, <[key := Entry (VHash (<[field := value]> h)) ex]> s)
    | Some _ => (Raise ResponseError, s)
    end.

(** HSET key mapping=...: the fields of the mapping override those of
    the stored hash. *)
Definition hset_mapping (key : string) (mapping : gmap string Py.val) : M unit :=
  fun s =>
    match s !! key with
    | None => (Ok tt, <[key := Entry (VHash (encode <$> mapping)) None]> s)
    | Some (Entry (VHash h) ex) =>
        (Ok tt, <[key := Entry (VHash ((encode <$> mapping) ∪ h)) ex]> s)
    | Some _ => (Raise ResponseError, s)
    end.

(** HGETALL key: the empty dict for a missing key. *)
Definition hgetall (key : string) : M (gmap string string) :=
  fun s =>
    match s !! key with
    | None => (Ok ∅, s)
    | Some (Entry (VHash h) _) => (Ok h, s)
    | Some _ => (Raise ResponseError, s)
    end.

(** EXISTS key. *)
Definition exists_ (key : string) : M bool :=
  fun s => (Ok (bool_decide (is_Some (s !! key))), s).

(** ZADD key score member: a member already present is moved. *)
Definition zadd (key member : string) (score : Z) : M unit :=
  fun s =>
    match s !! key with
    | None => (Ok tt, <[key := Entry (VZSet [(score, member)]) None]> s)
    | Some (Entry (VZSet z) ex) =>
        (Ok tt,
         <[key := Entry (VZSet (zinsert (score, member) (zremove member z))) ex]> s)
    | Some _ => (Raise ResponseError, s)
    end.

(** ZRANGE key 0 -1: all members, in order. *)
Definition zrange_all (key : string) : M (list string) :=
  fun s =>
    match s !! key with
    | None => (Ok [], s)
    | Some (Entry (VZSet z) _) => (Ok (snd <$> z), s)
    | Some _ => (Raise ResponseError, s)
    end.

(** SET key value EX seconds: replaces whatever the key held. *)
Definition set_ex (now : clock) (key value : string) (seconds : Z) : M unit :=
  fun s =>
    (Ok tt, <[key := Entry (VString value) (Some (server_time now + seconds))]> s).

(** GET key. *)
Definition get (key : string) : M (option string) :=
  fun s =>
    match s !! key with
    | None => (Ok None, s)
    | Some (Entry (VString v) _) => (Ok (Some v), s)
    | Some _ => (Raise ResponseError, s)
    end.

(** DEL key. *)
Definition delete (key : string) : M unit :=
  fun s => (Ok tt, base.delete key s).

(** The passing of time: at server time [t] every key whose expiry is
    due is gone. *)
Definition alive (t : Z) (e : entry) : bool :=
  match expires_at e with
  | Some deadline => t <? deadline
  | None => true
  end.

Definition at_time (t : Z) (s : db) : db :=
  filter (fun kv => alive t kv.2 = true) s.

End Redis.

Notation "x <- c1 ;; c2" := (Redis.bind c1 (fun x => c2))
  (at level 100, c1 at next level, right associativity).
Notation "c1 ;; c2" := (Redis.bind c1 (fun _ => c2))
  (at level 100, right associativity).
Notation "x <~ o1 ;; o2" := (Py.obind o1 (fun x => o2))
  (at level 100, o1 at next level, right associativity).

(** ** The queue service *)

Module QueueService.
Import Py Redis.

(** Redis key of the sorted set of a day's tokens. *)
Definition _get_queue_key (queue_date : date) : string :=
  "queue:" ++ date_isoformat queue_date.

(** Redis key of the hash holding one token. *)
Definition _get_token_key (queue_date : date) (token_number : Z) : string :=
  "queue:token:" ++ date_isoformat queue_date ++ ":" ++ str token_number.

(** Redis key of the day's token counter. *)
Definition _get_counter_key (queue_date : date) : string :=
  "queue:counter:" ++ date_isoformat queue_date.

(** Redis key of the token currently served. *)
Definition _get_current_key (queue_date : date) : string :=
  "queue:current:" ++ date_isoformat queue_date.

(** The dicts the service returns for a token. In the one built by
    [update_status] the key "chief_complaint" is missing; it is [None]
    here. *)
Record Token := mkToken {
  token_number : Z;
  patient_id : Z;
  patient_name : string;
  appointment_id : option Z;
  status : string;
  checkin_time : string;
  called_time : option string;
  completed_time : option string;
  is_walk_in : bool;
  chief_complaint : option string
}.

Definition _get_next_token_number (now : clock) (queue_date : date) : M Z :=
  let counter_key := _get_counter_key queue_date in
  token_number <- incr counter_key ;;
  expire now counter_key 86400 ;;
  ret token_number.

(** The dict literal of [check_in]. *)
Definition new_token_data (token_number : Z) (patient_id : Z)
    (patient_name : string) (appointment_id : option Z)
    (checkin_time : datetime) (is_walk_in : bool)
    (chief_complaint : option string) : gmap string Py.val :=
  list_to_map
    [ ("token_number", VInt token_number);
      ("patient_id", VInt patient_id);
      ("patient_name", VStr patient_name);
      ("appointment_id", int_or_empty appointment_id);
      ("status", VStr "WAITING");
      ("checkin_time", VStr (isoformat checkin_time));
      ("called_time", VStr "");
      ("completed_time", VStr "");
      ("is_walk_in", VStr (str_bool is_walk_in));
      ("chief_complaint", str_or_empty chief_complaint) ].

Definition check_in (now : clock) (queue_date : date) (patient_id : Z)
    (patient_name : string) (appointment_id : option Z)
    (is_walk_in : bool) (chief_complaint : option string)
  : M (gmap string Py.val) :=
  token_number <- _get_next_token_number now queue_date ;;
  let checkin_time := utcnow now in
  let checkin_timestamp := timestamp checkin_time in
  let token_data :=
    new_token_data token_number patient_id patient_name appointment_id
      checkin_time is_walk_in chief_complaint in
  let token_key := _get_token_key queue_date token_number in
  hset_mapping token_key token_data ;;
  expire now token_key 86400 ;;
  let queue_key := _get_queue_key queue_date in
  zadd queue_key (str token_number) checkin_timestamp ;;
  expire now queue_key 86400 ;;
  ret token_data.

(** The dict built from a token hash in [get_today_queue]. *)
Definition token_dict (token_data : gmap string string) : outcome Token :=
  tn <~ obind (getitem token_data "token_number") int ;;
  pid <~ obind (getitem token_data "patient_id") int ;;
  pname <~ getitem token_data "patient_name" ;;
  appt <~ get_int_or_none token_data "appointment_id" ;;
  st <~ getitem token_data "status" ;;
  cin <~ getitem token_data "checkin_time" ;;
  Ok {| token_number := tn;
        patient_id := pid;
        patient_name := pname;
        appointment_id := appt;
        status := st;
        checkin_time := cin;
        called_time := get_or_none token_data "called_time";
        completed_time := get_or_none token_data "completed_time";
        is_walk_in := get_is_True token_data "is_walk_in";
        chief_complaint := get_or_none token_data "chief_complaint" |}.

(** The dict built from a token hash at the end of [update_status]. *)
Definition status_dict (token_data : gmap string string) : outcome Token :=
  tn <~ obind (getitem token_data "token_number") int ;;
  pid <~ obind (getitem token_data "patient_id") int ;;
  pname <~ getitem token_data "patient_name" ;;
  appt <~ get_int_or_none token_data "appointment_id" ;;
  st <~ getitem token_data "status" ;;
  cin <~ getitem token_data "checkin_time" ;;
  Ok {| token_number := tn;
        patient_id := pid;
        patient_name := pname;
        appointment_id := appt;
        status := st;
        checkin_time := cin;
        called_time := get_or_none token_data "called_time";
        completed_time := get_or_none token_data "completed_time";
        is_walk_in := get_is_True token_data "is_walk_in";
        chief_complaint := None |}.

(** The loop of [get_today_queue]: [tokens] is the list built so far. *)
Fixpoint get_today_queue_loop (queue_date : date)
    (token_numbers : list string) (tokens : list Token) : M (list Token) :=
  match token_numbers with
  | [] => ret tokens
  | token_num_str :: rest =>
      n <- lift (int token_num_str) ;;
      let token_key := _get_token_key queue_date n in
      token_data <- hgetall token_key ;;
      if bool_decide (token_data = ∅)
      then get_today_queue_loop queue_date rest tokens
      else
        token <- lift (token_dict token_data) ;;
        get_today_queue_loop queue_date rest (tokens ++ [token])%list
  end.

Definition get_today_queue (queue_date : date) : M (list Token) :=
  let queue_key := _get_queue_key queue_date in
  token_numbers <- zrange_all queue_key ;;
  match token_numbers with
  | [] => ret []
  | _ => get_today_queue_loop queue_date token_numbers []
  end.

Definition update_status (now : clock) (queue_date : date)
    (token_number : Z) (new_status : string) : M (option Token) :=
  let token_key := _get_token_key queue_date token_number in
  exists_ <- exists_ token_key ;;
  if negb exists_ then ret None
  else
    hset token_key "status" new_status ;;
    let now_iso := isoformat (utcnow now) in
    (if String.eqb new_status "WITH_DOCTOR" then
       hset token_key "called_time" now_iso ;;
       let current_key := _get_current_key queue_date in
       set_ex now current_key (str token_number) 86400
     else if String.eqb new_status "COMPLETED"
             || String.eqb new_status "NO_SHOW" then
       hset token_key "completed_time" now_iso ;;
       let current_key := _get_current_key queue_date in
       current <- get current_key ;;
       match current with
       | Some c =>
           if truthy c then
             n <- lift (int c) ;;
             if n =? token_number then delete current_key else ret tt
           else ret tt
       | None => ret tt
       end
     else ret tt) ;;
    token_data <- hgetall token_key ;;
    token <- lift (status_dict token_data) ;;
    ret (Some token).

Definition get_current_serving (queue_date : date) : M (option Z) :=
  let current_key := _get_current_key queue_date in
  current <- get current_key ;;
  match current with
  | Some c =>
      if truthy c then n <- lift (int c) ;; ret (Some n) else ret None
  | None => ret None
  end.

(** The loop of [call_next_patient]. *)
Fixpoint call_next_loop (now : clock) (queue_date : date)
    (tokens : list Token) : M (option Token) :=
  match tokens with
  | [] => ret None
  | token :: rest =>
      if String.eqb (status token) "WAITING"
      then update_status now queue_date (token_number token) "WITH_DOCTOR"
      else call_next_loop now queue_date rest
  end.

Definition call_next_patient (now : clock) (queue_date : date)
  : M (option Token) :=
  tokens <- get_today_queue queue_date ;;
  call_next_loop now queue_date tokens.

Definition skip_patient (now : clock) (queue_date : date) (token_number : Z)
  : M (option Token) :=
  update_status now queue_date token_number "SKIPPED".

Definition recall_patient (now : clock) (queue_date : date) (token_number : Z)
  : M (option Token) :=
  update_status now queue_date token_number "WAITING".

Record Summary := mkSummary {
  s_date : string;
  total_tokens : Z;
  checked_in : Z;
  waiting : Z;
  with_doctor : Z;
  completed : Z;
  skipped : Z;
  no_show : Z;
  current_token : option Z;
  tokens : list Token
}.

(** One turn of the counting loop of [get_queue_summary]. *)
Definition count_token (summary : Summary) (token : Token) : Summary :=
  let status := status token in
  if String.eqb status "WAITING" then
    mkSummary (s_date summary) (total_tokens summary) (checked_in summary)
      (waiting summary + 1) (with_doctor summary) (completed summary)
      (skipped summary) (no_show summary) (current_token summary)
      (tokens summary)
  else if String.eqb status "WITH_DOCTOR" then
    mkSummary (s_date summary) (total_tokens summary) (checked_in summary)
      (waiting summary) (with_doctor summary + 1) (completed summary)
      (skipped summary) (no_show summary) (current_token summary)
      (tokens summary)
  else if String.eqb status "COMPLETED" then
    mkSummary (s_date summary) (total_tokens summary) (checked_in summary)
      (waiting summary) (with_doctor summary) (completed summary + 1)
      (skipped summary) (no_show summary) (current_token summary)
      (tokens summary)
  else if String.eqb status "SKIPPED" then
    mkSummary (s_date summary) (total_tokens summary) (checked_in summary)
      (waiting summary) (with_doctor summary) (completed summary)
      (skipped summary + 1) (no_show summary) (current_token summary)
      (tokens summary)
  else if String.eqb status "NO_SHOW" then
    mkSummary (s_date summary) (total_tokens summary) (checked_in summary)
      (waiting summary) (with_doctor summary) (completed summary)
      (skipped summary) (no_show summary + 1) (current_token summary)
      (tokens summary)
  else summary.

Definition get_queue_summary (queue_date : date) : M Summary :=
  queue <- get_today_queue queue_date ;;
  current <- get_current_serving queue_date ;;
  let summary :=
    {| s_date := date_isoformat queue_date;
       total_tokens := Z.of_nat (length queue);
       checked_in := 0;
       waiting := 0;
       with_doctor := 0;
       completed := 0;
       skipped := 0;
       no_show := 0;
       current_token := current;
       tokens := queue |} in
  let summary := fold_left count_token queue summary in
  ret (mkSummary (s_date summary) (total_tokens summary)
         (waiting summary + with_doctor summary)
         (waiting summary) (with_doctor summary) (completed summary)
         (skipped summary) (no_show summary) (current_token summary)
         (tokens summary)).

End QueueService.

(** ** Requests against the queue *)

Import Py Redis QueueService.

(** The mutating calls the routers make on the service. *)
Inductive request :=
| CheckIn (queue_date : date) (patient_id : Z) (patient_name : string)
    (appointment_id : option Z) (is_walk_in : bool)
    (chief_complaint : option string)
| UpdateStatus (queue_date : date) (token_number : Z) (new_status : string)
| CallNext (queue_date : date)
| Skip (queue_date : date) (token_number : Z)
| Recall (queue_date : date) (token_number : Z).

Inductive reply :=
| Checked (token_data : gmap string Py.val)
| Updated (token : option Token).

Definition serve (now : clock) (r : request) : M reply :=
  match r with
  | CheckIn d pid pname appt walk_in complaint =>
      token_data <- check_in now d pid pname appt walk_in complaint ;;
      ret (Checked token_data)
  | UpdateStatus d n new_status =>
      token <- update_status now d n new_status ;; ret (Updated token)
  | CallNext d =>
      token <- call_next_patient now d ;; ret (Updated token)
  | Skip d n =>
      token <- skip_patient now d n ;; ret (Updated token)
  | Recall d n =>
      token <- recall_patient now d n ;; ret (Updated token)
  end.

(** The store after a series of requests, served one after the other. *)
Definition run (trace : list (clock * request)) (s : db) : db :=
  fold_left (fun s nr => (serve nr.1 nr.2 s).2) trace s.

(** The states of the store that the service can bring about, starting
    from an empty Redis, while no key has expired. *)
Inductive reachable : db -> Prop :=
| reachable_empty : reachable ∅
| reachable_serve s now r : reachable s -> reachable (serve now r s).2.

(** ** Requests in the course of time *)

(** Redis drops a key once its deadline has passed, so a request served
    at [now] works on what is left of the store at that moment. *)
Definition serve_at (now : clock) (r : request) : M reply :=
  fun s => serve now r (at_time (server_time now) s).

(** The store after a series of requests, each served at its time. *)
Definition run_at (trace : list (clock * request)) (s : db) : db :=
  fold_left (fun s nr => (serve_at nr.1 nr.2 s).2) trace s.

(** The server times at which the requests of a trace are served. *)
Definition clocks (trace : list (clock * request)) : list Z :=
  (fun nr => server_time nr.1) <$> trace.

(** The times lie within 24 hours of each other: a key whose lifetime
    was set at one of them has not expired at any other. *)
Definition within_a_day (times : list Z) : bool :=
  forallb (fun t => forallb (fun t' => t' <? t + 86400) times) times.

(** The times do not go back. *)
Fixpoint nondecreasing (times : list Z) : bool :=
  match times with
  | a :: (b :: _) as rest => (a <=? b) && nondecreasing rest
  | _ => true
  end.

(** Each time is less than 24 hours after the one before. *)
Fixpoint gaps_under_a_day (times : list Z) : bool :=
  match times with
  | a :: (b :: _) as rest => (b <? a + 86400) && gaps_under_a_day rest
  | _ => true
  end.

(** ** Characters of keys *)

Fixpoint all_chars (P : ascii -> bool) (s : string) : bool :=
  match s with
  | EmptyString => true
  | String c s' => P c && all_chars P s'
  end.

Definition is_digit (c : ascii) : bool :=
  match c with
  | "0" | "1" | "2" | "3" | "4" | "5" | "6" | "7" | "8" | "9" => true
  | _ => false
  end%char.

Definition date_char (c : ascii) : bool := is_digit c || Ascii.eqb c "-".

Definition is_not (c : ascii) (x : ascii) : bool := negb (Ascii.eqb x c).

(** The text before and after the first [c] of a string. *)
Fixpoint split_on (c : ascii) (s : string) : option (string * string) :=
  match s with
  | EmptyString => None
  | String a s' =>
      if Ascii.eqb a c then Some (EmptyString, s')
      else match split_on c s' with
           | Some (x, y) => Some (String a x, y)
           | None => None
           end
  end.

(** ** What the store holds for one day *)

(** The last token number handed out ([0] before the first). *)
Definition counter_value (d : date) (s : db) : Z :=
  match s !! _get_counter_key d with
  | Some (Entry (VString v) _) =>
      match int v with
      | Ok n => n
      | Raise _ => 0
      end
  | _ => 0
  end.

(** The check-in index: scores and members of the day's sorted set. *)
Definition queue_index (d : date) (s : db) : zset :=
  match s !! _get_queue_key d with
  | Some (Entry (VZSet z) _) => z
  | _ => []
  end.

(** The hash of a token. *)
Definition token_hash (d : date) (n : Z) (s : db) : option (gmap string string) :=
  match s !! _get_token_key d n with
  | Some (Entry (VHash h) _) => Some h
  | _ => None
  end.

(** A field of a token, as stored. *)
Definition token_field (d : date) (n : Z) (f : string) (s : db) : option string :=
  h ← token_hash d n s; h !! f.

(** The current serving pointer, as stored. *)
Definition current_value (d : date) (s : db) : option string :=
  match s !! _get_current_key d with
  | Some (Entry (VString v) _) => Some v
  | _ => None
  end.

(** The order of a sorted set: by score, then by member, byte-wise. *)
Definition zlt (a b : Z * string) : Prop :=
  a.1 < b.1 \/ (a.1 = b.1 /\ String.ltb a.2 b.2 = true).

(** The shape of everything the service keeps for day [d]. *)
Record wf_date (d : date) (s : db) : Prop := {
  wf_counter : forall e, s !! _get_counter_key d = Some e ->
    exists c, val e = VString (str c) /\ 1 <= c;
  wf_queue : forall e, s !! _get_queue_key d = Some e ->
    exists z, val e = VZSet z;
  wf_sorted : StronglySorted zlt (queue_index d s);
  wf_members : forall sc m, In (sc, m) (queue_index d s) ->
    exists n, m = str n /\ is_Some (s !! _get_token_key d n);
  wf_token : forall n e, s !! _get_token_key d n = Some e ->
    exists h t, val e = VHash h /\ token_dict h = Ok t /\ token_number t = n
                /\ 1 <= n <= counter_value d s;
  wf_listed : forall n, is_Some (s !! _get_token_key d n) ->
    exists sc, In (sc, str n) (queue_index d s);
  wf_current : forall e, s !! _get_current_key d = Some e ->
    exists n, val e = VString (str n)
}.

Definition wf (s : db) : Prop := forall d, wf_date d s.

(** ** Effect of a status update on a token hash and on the store *)

(** The token hash after the HSETs of [update_status]. *)
Definition updated_hash (now : clock) (new_status : string)
    (h : gmap string string) : gmap string string :=
  let h1 := <["status" := new_status]> h in
  if String.eqb new_status "WITH_DOCTOR" then
    <["called_time" := isoformat (utcnow now)]> h1
  else if String.eqb new_status "COMPLETED" || String.eqb new_status "NO_SHOW" then
    <["completed_time" := isoformat (utcnow now)]> h1
  else h1.

(** The store after [update_status] on an existing token with hash [h]. *)
Definition updated_store (now : clock) (d : date) (n : Z) (new_status : string)
    (h : gmap string string) (ex : option Z) (s : db) : db :=
  let s1 := <[_get_token_key d n := Entry (VHash (updated_hash now new_status h)) ex]> s in
  if String.eqb new_status "WITH_DOCTOR" then
    <[_get_current_key d := Entry (VString (str n)) (Some (server_time now + 86400))]> s1
  else if String.eqb new_status "COMPLETED" || String.eqb new_status "NO_SHOW" then
    if bool_decide (current_value d s = Some (str n))
    then base.delete (_get_current_key d) s1
    else s1
  else s1.

(** What [token_dict] reads from a hash, field by field. *)
Definition token_fields (h : gmap string string) (t : Token) : Prop :=
  (exists v, h !! "token_number" = Some v /\ int v = Ok (token_number t)) /\
  (exists v, h !! "patient_id" = Some v /\ int v = Ok (patient_id t)) /\
  h !! "patient_name" = Some (patient_name t) /\
  get_int_or_none h "appointment_id" = Ok (appointment_id t) /\
  h !! "status" = Some (status t) /\
  h !! "checkin_time" = Some (checkin_time t) /\
  get_or_none h "called_time" = called_time t /\
  get_or_none h "completed_time" = completed_time t /\
  get_is_True h "is_walk_in" = is_walk_in t /\
  get_or_none h "chief_complaint" = chief_complaint t.

(** The token dict after [update_status], from the one before. *)
Definition updated_token (now : clock) (new_status : string) (t : Token) : Token :=
  let iso := isoformat (utcnow now) in
  let stamp := if truthy iso then Some iso else None in
  mkToken (token_number t) (patient_id t) (patient_name t) (appointment_id t)
    new_status (checkin_time t)
    (if String.eqb new_status "WITH_DOCTOR" then stamp else called_time t)
    (if String.eqb new_status "WITH_DOCTOR" then completed_time t
     else if String.eqb new_status "COMPLETED" || String.eqb new_status "NO_SHOW"
          then stamp else completed_time t)
    (is_walk_in t) (chief_complaint t).

(** A token dict without its "chief_complaint", as [update_status]
    returns it. *)
Definition without_complaint (t : Token) : Token :=
  mkToken (token_number t) (patient_id t) (patient_name t) (appointment_id t)
    (status t) (checkin_time t) (called_time t) (completed_time t)
    (is_walk_in t) None.

(** The store after [check_in] has issued token [n] with dict [data]. *)
Definition checked_in_store (now : clock) (d : date) (n : Z)
    (data : gmap string Py.val) (s : db) : db :=
  let deadline := Some (server_time now + 86400) in
  <[_get_queue_key d :=
      Entry (VZSet (zinsert (timestamp (utcnow now), str n) (queue_index d s)))
        deadline]>
    (<[_get_token_key d n := Entry (VHash (encode <$> data)) deadline]>
       (<[_get_counter_key d := Entry (VString (str n)) deadline]> s)).

(** The dict that [get_today_queue] builds for a token just checked in. *)
Definition new_token (n pid : Z) (pname : string) (appt : option Z)
    (checkin : datetime) (walk_in : bool) (complaint : option string) : Token :=
  mkToken n pid pname
    (match appt with
     | Some a => if a =? 0 then None else Some a
     | None => None
     end)
    "WAITING" (isoformat checkin) None None walk_in
    (match complaint with
     | Some c => if truthy c then Some c else None
     | None => None
     end).

(** The token dict of a member of the index, when its hash is there and
    reads well. *)
Definition token_of_member (d : date) (s : db) (m : string) : option Token :=
  match int m with
  | Ok n =>
      match token_hash d n s with
      | Some h =>
          match token_dict h with
          | Ok t => Some t
          | Raise _ => None
          end
      | None => None
      end
  | Raise _ => None
  end.

(** The day's tokens in the order of the index. *)
Definition listing (d : date) (s : db) : list Token :=
  omap (token_of_member d s) (snd <$> queue_index d s).

(** The first waiting token of a list. *)
Definition first_waiting (l : list Token) : option Token :=
  List.find (fun t => String.eqb (status t) "WAITING") l.

(** ** Token numbers handed out along a trace *)

Definition is_check_in_for (d : date) (r : request) : bool :=
  match r with
  | CheckIn d' _ _ _ _ _ => bool_decide (d' = d)
  | _ => false
  end.

(** The "token_number" of the dict a check-in returned. *)
Definition reply_number (x : outcome reply) : option Z :=
  match x with
  | Ok (Checked token_data) =>
      match token_data !! "token_number" with
      | Some (VInt n) => Some n
      | _ => None
      end
  | _ => None
  end.

(** What the check-ins for day [d] of a trace return, in call order. *)
Fixpoint issued (d : date) (trace : list (clock * request)) (s : db)
  : list (option Z) :=
  match trace with
  | [] => []
  | (now, r) :: rest =>
      let out := serve now r s in
      if is_check_in_for d r
      then reply_number out.1 :: issued d rest out.2
      else issued d rest out.2
  end.

(** The same with time passing: each request is served at its time. *)
Fixpoint issued_at (d : date) (trace : list (clock * request)) (s : db)
  : list (option Z) :=
  match trace with
  | [] => []
  | (now, r) :: rest =>
      let out := serve_at now r s in
      if is_check_in_for d r
      then reply_number out.1 :: issued_at d rest out.2
      else issued_at d rest out.2
  end.

Definition check_ins_for (d : date) (trace : list (clock * request)) : nat :=
  length (List.filter (fun nr => is_check_in_for d nr.2) trace).

(** The spec's reading of the numbering: the check-ins for a date return
    1, 2, ..., N in call order, whenever they are made. *)
Definition numbered_in_call_order (d : date) (trace : list (clock * request))
  : Prop :=
  issued_at d trace ∅ =
    (fun i => Some (Z.of_nat i)) <$> seq 1 (check_ins_for d trace).

(** ** Readings of the store used in the statements *)

(** The number the current serving pointer holds. *)
Definition current_number (d : date) (s : db) : option Z :=
  match current_value d s with
  | Some v =>
      match int v with
      | Ok n => Some n
      | Raise _ => None
      end
  | None => None
  end.

(** How many tokens of a list have a given status. *)
Definition count_status (st : string) (l : list Token) : Z :=
  Z.of_nat (length (List.filter (fun t => String.eqb (status t) st) l)).

(** ** Status mutations *)

(** The calls that only change the status of a token. *)
Inductive mutation :=
| MUpdate (queue_date : date) (token_number : Z) (new_status : string)
| MSkip (queue_date : date) (token_number : Z)
| MRecall (queue_date : date) (token_number : Z).

Definition mutation_request (m : mutation) : request :=
  match m with
  | MUpdate d n st => UpdateStatus d n st
  | MSkip d n => Skip d n
  | MRecall d n => Recall d n
  end.

Definition mutations (muts : list (clock * mutation)) : list (clock * request) :=
  (fun nm => (nm.1, mutation_request nm.2)) <$> muts.

(** The part of a token dict that a status mutation must leave alone. *)
Definition fixed_part (t : Token)
  : Z * Z * string * option Z * string * bool * option string :=
  (token_number t, patient_id t, patient_name t, appointment_id t,
   checkin_time t, is_walk_in t, chief_complaint t).

(** The fields of a token hash other than "status", "called_time" and
    "completed_time". *)
Definition fixed_fields : list string :=
  ["token_number"; "patient_id"; "patient_name"; "appointment_id";
   "checkin_time"; "is_walk_in"; "chief_complaint"].

(** What a status update on token [n] of day [d] does to a listed token
    of day [d']. *)
Definition update_listed (now : clock) (d : date) (n : Z) (st : string)
    (d' : date) (t : Token) : Token :=
  if bool_decide (d' = d /\ token_number t = n)
  then updated_token now st t else t.

(** ** Sample data for the examples *)

Definition day1 : date := Date 2024 1 15.

(** 2024-01-15, 09:00:00 UTC and later moments of that morning. *)
Definition at_0900 : clock :=
  Clock (Datetime "2024-01-15T09:00:00" 1705309200000000) 1705309200.
Definition at_0905 : clock :=
  Clock (Datetime "2024-01-15T09:05:00" 1705309500000000) 1705309500.
Definition at_0910 : clock :=
  Clock (Datetime "2024-01-15T09:10:00" 1705309800000000) 1705309800.
Definition at_1000 : clock :=
  Clock (Datetime "2024-01-15T10:00:00" 1705312800000000) 1705312800.

(** The next day, 09:00:00 UTC: 24 hours after [at_0900]. *)
Definition next_day_0900 : clock :=
  Clock (Datetime "2024-01-16T09:00:00" 1705395600000000) 1705395600.

(** One second more than 24 hours after [at_0900]. *)
Definition day_later_0900_01 : clock :=
  Clock (Datetime "2024-01-16T09:00:01" 1705395601000000) 1705395601.

(** The next day, 10:00:00 UTC. *)
Definition next_day_1000 : clock :=
  Clock (Datetime "2024-01-16T10:00:00" 1705399200000000) 1705399200.

Definition walk_in (patient_id : Z) (patient_name : string) : request :=
  CheckIn day1 patient_id patient_name None true None.

(** The spec's reading of the counter's lifetime: it ends 24 hours after
    the first call, whatever came later. *)
Definition expires_after_first (first : clock) (d : date) (s : db) : Prop :=
  expires_at <$> s !! _get_counter_key d = Some (Some (server_time first + 86400)).

(** ** The order of the queue *)

(** The timestamps of the check-ins for day [d] of a trace, in call
    order. *)
Definition checkin_times (d : date) (trace : list (clock * request)) : list Z :=
  omap (fun nr => if is_check_in_for d nr.2
                  then Some (timestamp (utcnow nr.1)) else None) trace.

(** The sorted set after check-ins at the given timestamps, the first of
    them getting number [n]. *)
Fixpoint insert_checkins (n : Z) (times : list Z) (z : zset) : zset :=
  match times with
  | [] => z
  | ts :: rest => insert_checkins (n + 1) rest (zinsert (ts, str n) z)
  end.

(** The entries of the index with their members read as numbers. *)
Definition index_entries (d : date) (s : db) : list (Z * Z) :=
  omap (fun e => match int e.2 with
                 | Ok n => Some (e.1, n)
                 | Raise _ => None
                 end) (queue_index d s).

(** The spec's reading of the order: by check-in instant, ties by
    number. *)
Definition by_instant_then_number (a b : Z * Z) : Prop :=
  a.1 < b.1 \/ (a.1 = b.1 /\ a.2 < b.2).

(** Ten walk-ins registered at the same reading of the clock. *)
Definition ten_at_once : list (clock * request) :=
  (fun i => (at_0900, walk_in (100 + Z.of_nat i) "patient")) <$> seq 1 10.

(** The numbers of the tokens [get_today_queue] returns. *)
Definition listed_numbers (d : date) (s : db) : list Z :=
  match (get_today_queue d s).1 with
  | Ok l => token_number <$> l
  | Raise _ => []
  end.

(** ** Calling the next patient *)

(** The numbers of the listed tokens that wait. *)
Definition waiting_numbers (d : date) (s : db) : list Z :=
  token_number <$>
    List.filter (fun t => String.eqb (status t) "WAITING") (listing d s).

(** The spec's reading of [call_next_patient]: the token it returns has
    the lowest number among the waiting ones. *)
Definition returns_lowest_waiting (now : clock) (d : date) (s : db) : Prop :=
  forall r, (call_next_patient now d s).1 = Ok (Some r) ->
    Forall (fun n => token_number r <= n) (waiting_numbers d s).

(** The number of the token a call returned ([0] when there is none). *)
Definition returned_number (x : outcome (option Token)) : Z :=
  match x with
  | Ok (Some r) => token_number r
  | _ => 0
  end.

(** Check-ins at the given timestamps, numbered from [n] on, in call
    order. *)
Fixpoint numbered (n : Z) (times : list Z) : zset :=
  match times with
  | [] => []
  | ts :: rest => (ts, str n) :: numbered (n + 1) rest
  end.

(** Scenario A of the spec: two walk-ins, Asha and Ravi. *)
Definition scenario_a : list (clock * request) :=
  [(at_0900, walk_in 101 "Asha"); (at_0905, walk_in 102 "Ravi")].

(** ** The current serving pointer *)

(** The spec's reading of the pointer: it is set exactly when some token
    of the date is WITH_DOCTOR, and then holds the number of that
    token. *)
Definition pointer_tracks_with_doctor (d : date) (s : db) : Prop :=
  (is_Some (current_number d s) <->
   exists n, token_field d n "status" s = Some "WITH_DOCTOR") /\
  (forall n, current_number d s = Some n ->
             token_field d n "status" s = Some "WITH_DOCTOR").

(** The pointer after [update_status d n st], from the one before, when
    the token was found. *)
Definition updated_pointer (n : Z) (st : string) (current : option Z) : option Z :=
  if String.eqb st "WITH_DOCTOR" then Some n
  else if String.eqb st "COMPLETED" || String.eqb st "NO_SHOW" then
    if bool_decide (current = Some n) then None else current
  else current.

(** The numbers of the listed tokens that are with the doctor. *)
Definition with_doctor_numbers (d : date) (s : db) : list Z :=
  token_number <$>
    List.filter (fun t => String.eqb (status t) "WITH_DOCTOR") (listing d s).

(** The intended order of statuses, for a change of token [n] to [st]:
    a token is sent to the doctor only when no other token is there, and
    a token that is with the doctor leaves only as COMPLETED or
    NO_SHOW. *)
Definition transition_in_order (d : date) (s : db) (n : Z) (st : string) : bool :=
  if String.eqb st "WITH_DOCTOR" then
    forallb (fun m => m =? n) (with_doctor_numbers d s)
  else if String.eqb st "COMPLETED" || String.eqb st "NO_SHOW" then true
  else negb (existsb (fun m => m =? n) (with_doctor_numbers d s)).

(** A status update of token [n] is in order when it finds no such token
    (and so changes nothing) or makes a transition that is in order. *)
Definition update_in_order (d : date) (s : db) (n : Z) (st : string) : bool :=
  match s !! _get_token_key d n with
  | None => true
  | Some _ => transition_in_order d s n st
  end.

(** A request on date [d] is in order: a call of the next patient is the
    update to WITH_DOCTOR of the first waiting token, and changes
    nothing when nobody waits. *)
Definition request_in_order (d : date) (s : db) (r : request) : bool :=
  match r with
  | CheckIn _ _ _ _ _ _ => true
  | UpdateStatus d' n st =>
      if bool_decide (d' = d) then update_in_order d s n st else true
  | CallNext d' =>
      if bool_decide (d' = d) then
        match first_waiting (listing d s) with
        | Some t => update_in_order d s (token_number t) "WITH_DOCTOR"
        | None => true
        end
      else true
  | Skip d' n =>
      if bool_decide (d' = d) then update_in_order d s n "SKIPPED" else true
  | Recall d' n =>
      if bool_decide (d' = d) then update_in_order d s n "WAITING" else true
  end.

(** A trace in which every request on date [d] is in order for the store
    it is served on. *)
Fixpoint in_order (d : date) (trace : list (clock * request)) (s : db) : bool :=
  match trace with
  | [] => true
  | (now, r) :: rest =>
      let s0 := at_time (server_time now) s in
      request_in_order d s0 r && in_order d rest (serve now r s0).2
  end.

(** A set pointer names a token of the date that has not been completed
    or marked no-show since it was called. *)
Definition pointer_names_live_token (d : date) (s : db) : Prop :=
  forall n, current_number d s = Some n ->
    exists st, token_field d n "status" s = Some st /\
               st <> "COMPLETED" /\ st <> "NO_SHOW".

(** The pointer says [n] exactly when token [n] is with the doctor. *)
Definition pointer_is_with_doctor (d : date) (s : db) : Prop :=
  forall n, current_number d s = Some n <->
            token_field d n "status" s = Some "WITH_DOCTOR".

(** Scenario A, two calls in a row and the completion of token 2. *)
Definition two_calls_in_a_row : list (clock * request) :=
  (scenario_a ++
   [(at_0910, CallNext day1);
    (at_1000, CallNext day1);
    (at_1000, UpdateStatus day1 2 "COMPLETED")])%list.

(** Scenario B of the spec: scenario A, a call, the completion of token
    1 and another call. *)
Definition scenario_b : list (clock * request) :=
  (scenario_a ++
   [(at_0910, CallNext day1);
    (at_1000, UpdateStatus day1 1 "COMPLETED");
    (at_1000, CallNext day1)])%list.

(** ** Further readings of the store *)

(** A store that [get_today_queue] can read for day [d]: the sorted set
    holds numbers, and every token hash that is there reads as a token
    dict. (Token hashes may be missing: they expire on their own.) *)
Record readable_date (d : date) (s : db) : Prop := {
  rd_queue : forall e, s !! _get_queue_key d = Some e ->
    exists z, val e = VZSet z /\ forall sc m, In (sc, m) z -> exists n, m = str n;
  rd_token : forall n e, s !! _get_token_key d n = Some e ->
    exists h t, val e = VHash h /\ token_dict h = Ok t;
  rd_current : forall e, s !! _get_current_key d = Some e ->
    exists n, val e = VString (str n);
  rd_counter : forall e, s !! _get_counter_key d = Some e ->
    exists c, val e = VString (str c)
}.

(** ** Statuses and the summary *)

(** The statuses that have a counter in [get_queue_summary]. *)
Definition counted_statuses : list string :=
  ["WAITING"; "WITH_DOCTOR"; "COMPLETED"; "SKIPPED"; "NO_SHOW"].

Definition is_counted (st : string) : bool :=
  existsb (String.eqb st) counted_statuses.

(** How many tokens of a list have a status without a counter. *)
Definition count_uncounted (l : list Token) : Z :=
  Z.of_nat (length (List.filter (fun t => negb (is_counted (status t))) l)).

(** A trace whose status updates carry only statuses with a counter. *)
Definition updates_counted (trace : list (clock * request)) : bool :=
  forallb (fun nr => match nr.2 with
                     | UpdateStatus _ _ st => is_counted st
                     | _ => true
                     end) trace.

(** ** The lifetime of the records *)

(** The readings of the Redis server clock at the check-ins for day [d]
    of a trace, in call order. *)
Definition checkin_clocks (d : date) (trace : list (clock * request)) : list Z :=
  omap (fun nr => if is_check_in_for d nr.2
                  then Some (server_time nr.1) else None) trace.

(** The server time of the check-in that issued token [n] of day [d]. *)
Definition checked_in_at (d : date) (trace : list (clock * request)) (n : Z)
  : option Z :=
  if 1 <=? n then checkin_clocks d trace !! Z.to_nat (n - 1) else None.

(** The deadline of a key that is there, [None] when the key is not. *)
Definition deadline (key : string) (s : db) : option (option Z) :=
  expires_at <$> s !! key.

(** ** Further sample data *)

(** The token of Asha in scenario A, as listed. *)
Definition asha_token : Token :=
  new_token 1 101 "Asha" None (utcnow at_0900) true None.

(** Every key of the store got its lifetime at one of the given times. *)
Definition deadlines_from (times : list Z) (s : db) : Prop :=
  forall k e, s !! k = Some e ->
    exists t, In t times /\ expires_at e = Some (t + 86400).

(** ** The tables the queue endpoints use *)

Module Models.

(** [AppointmentStatus] of [app/models.py]. *)
Inductive AppointmentStatus :=
| SCHEDULED
| CHECKED_IN
| WITH_DOCTOR
| COMPLETED
| CANCELLED.

#[global] Instance AppointmentStatus_eq_dec : EqDecision AppointmentStatus.
Proof. solve_decision. Defined.

(** The value of a [DateTime] column: its calendar date, which is what
    [.date()] returns, and the time of day in microseconds. *)
Record DateTime := mkDateTime { dt_date : date; dt_time : Z }.

(** A row of "appointments", with the columns the queue endpoints read
    or assign. The primary key [id] is the key under which the row is
    kept in the table. "status" is a nullable column. The other columns
    are left out, among them "updated_at", which changes with every
    UPDATE of the row. *)
Record Appointment := mkAppointment {
  a_patient_id : Z;
  a_appointment_date : DateTime;
  a_status : option AppointmentStatus;
  a_chief_complaint : option string
}.

(** A row of "patients": of its columns the endpoints read "id", the
    key of the table, and "name". *)
Record Patient := mkPatient { p_name : string }.

End Models.

(** ** The response models *)

Module Schemas.

(** [QueueTokenResponse]. A [datetime] field is kept as the ISO text
    that [datetime.fromisoformat] is given. *)
Record QueueTokenResponse := mkQueueTokenResponse {
  token_number : Z;
  patient_id : Z;
  patient_name : string;
  appointment_id : option Z;
  status : string;
  checkin_time : string;
  called_time : option string;
  completed_time : option string;
  is_walk_in : bool
}.

(** [QueueSummaryResponse]; its field "date" is [date_] here. *)
Record QueueSummaryResponse := mkQueueSummaryResponse {
  date_ : Py.date;
  total_tokens : Z;
  checked_in : Z;
  waiting : Z;
  with_doctor : Z;
  completed : Z;
  skipped : Z;
  no_show : Z;
  current_token : option Z;
  tokens : list QueueTokenResponse
}.

(** The two dicts that GET /queue/current returns. *)
Inductive CurrentServing :=
| NoneServing (message : string)
| Serving (current_token : Z) (patient_name : option string) (status : string).

(** The pattern of the field "status" of [QueueStatusUpdate],
    ^(WAITING|WITH_DOCTOR|COMPLETED|SKIPPED|NO_SHOW)$, which FastAPI
    checks before the endpoint runs. *)
Definition status_pattern (status : string) : bool :=
  existsb (String.eqb status)
    ["WAITING"; "WITH_DOCTOR"; "COMPLETED"; "SKIPPED"; "NO_SHOW"].

End Schemas.

(** ** The endpoints of [routers/queue.py] *)

Module QueueRouter.
Import Models.

(** What the session and the Redis client of a request work on. *)
Record world := World {
  appointments : gmap Z Appointment;
  patients : gmap Z Patient;
  redis : db
}.

(** What escapes an endpoint other than an [HTTPException]. *)
Inductive error :=
| Raised (e : exn)     (* out of the service, or a missing key of a dict *)
| TypeError            (* [datetime.fromisoformat] on something not a [str] *)
| ValidationError.     (* pydantic refuses a field of the response *)

Inductive result (A : Type) :=
| Return (a : A)
| HTTPException (status_code : Z) (detail : string)
| Uncaught (e : error).
Arguments Return {A} a.
Arguments HTTPException {A} status_code detail.
Arguments Uncaught {A} e.

(** An endpoint, given the dependencies FastAPI injects: the body runs
    for an authenticated user, on the session and the Redis client. *)
Definition endpoint (A : Type) : Type := world -> result A * world.

Definition with_redis (w : world) (r : db) : world :=
  World (appointments w) (patients w) r.

(** [appointment.status = st] followed by [await db.commit()]. *)
Definition commit_status (w : world) (id : Z) (appointment : Appointment)
    (st : AppointmentStatus) : world :=
  World (<[id := mkAppointment (a_patient_id appointment)
                   (a_appointment_date appointment) (Some st)
                   (a_chief_complaint appointment)]> (appointments w))
        (patients w) (redis w).

(** [token_data[k]] on the dict that [check_in] returns. *)
Definition item (token_data : gmap string Py.val) (k : string) : result Py.val :=
  match token_data !! k with
  | Some v => Return v
  | None => Uncaught (Raised KeyError)
  end.

(** [datetime.fromisoformat(v)]. *)
Definition fromisoformat (v : Py.val) : result string :=
  match v with
  | VStr s => Return s
  | VInt _ => Uncaught TypeError
  end.

(** What pydantic makes of a value given for an [int] field: an [int]
    is taken as it is, a [str] is parsed. *)
Definition int_field (v : Py.val) : option Z :=
  match v with
  | VInt n => Some n
  | VStr s => match int s with Ok n => Some n | Raise _ => None end
  end.

(** What pydantic makes of a value given for a [str] field. *)
Definition str_field (v : Py.val) : option string :=
  match v with
  | VStr s => Some s
  | VInt _ => None
  end.

Definition rbind {A B} (x : result A) (k : A -> result B) : result B :=
  match x with
  | Return a => k a
  | HTTPException c d => HTTPException c d
  | Uncaught e => Uncaught e
  end.

(** The [QueueTokenResponse] that POST /queue/checkin/{appointment_id}
    builds from the dict of [check_in]. *)
Definition checkin_response (token_data : gmap string Py.val)
  : result Schemas.QueueTokenResponse :=
  rbind (item token_data "token_number") (fun tn =>
  rbind (item token_data "patient_id") (fun pid =>
  rbind (item token_data "patient_name") (fun pname =>
  rbind (item token_data "appointment_id") (fun appt =>
  rbind (item token_data "status") (fun st =>
  rbind (rbind (item token_data "checkin_time") fromisoformat) (fun cin =>
  match int_field tn, int_field pid, str_field pname, int_field appt,
        str_field st with
  | Some tn, Some pid, Some pname, Some appt, Some st =>
      Return (Schemas.mkQueueTokenResponse tn pid pname (Some appt) st cin
                None None false)
  | _, _, _, _, _ => Uncaught ValidationError
  end)))))).

(** The [QueueTokenResponse] that POST /queue/walk-in builds. *)
Definition walk_in_response (token_data : gmap string Py.val)
  : result Schemas.QueueTokenResponse :=
  rbind (item token_data "token_number") (fun tn =>
  rbind (item token_data "patient_id") (fun pid =>
  rbind (item token_data "patient_name") (fun pname =>
  rbind (item token_data "status") (fun st =>
  rbind (rbind (item token_data "checkin_time") fromisoformat) (fun cin =>
  match int_field tn, int_field pid, str_field pname, str_field st with
  | Some tn, Some pid, Some pname, Some st =>
      Return (Schemas.mkQueueTokenResponse tn pid pname None st cin
                None None true)
  | _, _, _, _ => Uncaught ValidationError
  end))))).

(** The [QueueTokenResponse] built from a token dict of the service, as
    in GET /queue/today and PATCH /queue/{token_number}/status. *)
Definition token_response (token : Token) : Schemas.QueueTokenResponse :=
  Schemas.mkQueueTokenResponse (token_number token) (patient_id token)
    (patient_name token) (appointment_id token) (status token)
    (checkin_time token) (called_time token) (completed_time token)
    (is_walk_in token).

(** The same without "completed_time", as in POST /queue/next and
    POST /queue/skip/{token_number}. *)
Definition called_response (token : Token) : Schemas.QueueTokenResponse :=
  Schemas.mkQueueTokenResponse (token_number token) (patient_id token)
    (patient_name token) (appointment_id token) (status token)
    (checkin_time token) (called_time token) None (is_walk_in token).

(** POST /queue/checkin/{appointment_id}. [today] is [date.today()]. *)
Definition check_in_appointment (today : date) (now : clock)
    (appointment_id : Z) : endpoint Schemas.QueueTokenResponse :=
  fun w =>
    match appointments w !! appointment_id with
    | None =>
        (HTTPException 404
           ("Appointment " ++ str appointment_id ++ " not found"), w)
    | Some appointment =>
        let appointment_date := dt_date (a_appointment_date appointment) in
        if negb (bool_decide (appointment_date = today)) then
          (HTTPException 400
             ("Appointment is for " ++ date_isoformat appointment_date ++
              ", not today (" ++ date_isoformat today ++ ")"), w)
        else if bool_decide (a_status appointment = Some CHECKED_IN) then
          (HTTPException 400 "Appointment already checked in", w)
        else
          match patients w !! a_patient_id appointment with
          | None =>
              (HTTPException 404
                 ("Patient " ++ str (a_patient_id appointment) ++ " not found"),
               w)
          | Some patient =>
              match QueueService.check_in now today
                      (a_patient_id appointment) (p_name patient)
                      (Some appointment_id) false
                      (a_chief_complaint appointment) (redis w) with
              | (Raise e, r) => (Uncaught (Raised e), with_redis w r)
              | (Ok token_data, r) =>
                  (checkin_response token_data,
                   commit_status (with_redis w r) appointment_id appointment
                     CHECKED_IN)
              end
          end
    end.

(** POST /queue/walk-in, with the two fields of [QueueWalkInRequest]. *)
Definition add_walk_in_patient (today : date) (now : clock)
    (walk_in_patient_id : Z) (walk_in_chief_complaint : option string)
  : endpoint Schemas.QueueTokenResponse :=
  fun w =>
    match patients w !! walk_in_patient_id with
    | None =>
        (HTTPException 404
           ("Patient " ++ str walk_in_patient_id ++ " not found"), w)
    | Some patient =>
        match QueueService.check_in now today walk_in_patient_id
                (p_name patient) None true walk_in_chief_complaint
                (redis w) with
        | (Raise e, r) => (Uncaught (Raised e), with_redis w r)
        | (Ok token_data, r) => (walk_in_response token_data, with_redis w r)
        end
    end.

(** GET /queue/today. *)
Definition get_today_queue (today : date)
  : endpoint Schemas.QueueSummaryResponse :=
  fun w =>
    match QueueService.get_queue_summary today (redis w) with
    | (Raise e, r) => (Uncaught (Raised e), with_redis w r)
    | (Ok summary, r) =>
        (Return
           (Schemas.mkQueueSummaryResponse today
              (total_tokens summary) (checked_in summary) (waiting summary)
              (with_doctor summary) (completed summary) (skipped summary)
              (no_show summary) (current_token summary)
              (token_response <$> tokens summary)),
         with_redis w r)
    end.

(** GET /queue/current. *)
Definition get_current_serving (today : date)
  : endpoint Schemas.CurrentServing :=
  fun w =>
    match QueueService.get_current_serving today (redis w) with
    | (Raise e, r) => (Uncaught (Raised e), with_redis w r)
    | (Ok None, r) =>
        (Return (Schemas.NoneServing "No patient currently being served"),
         with_redis w r)
    | (Ok (Some current_token), r) =>
        match QueueService.get_today_queue today r with
        | (Raise e, r') => (Uncaught (Raised e), with_redis w r')
        | (Ok tokens, r') =>
            let token_data :=
              List.find (fun t => token_number t =? current_token) tokens in
            (Return (Schemas.Serving current_token
                       (patient_name <$> token_data) "WITH_DOCTOR"),
             with_redis w r')
        end
    end.

(** The appointment of a token, when the token has one and the row is
    there: [token_data.get("appointment_id")] is falsy for [None] and
    for 0. *)
Definition appointment_of (w : world) (token_data : Token)
  : option (Z * Appointment) :=
  match appointment_id token_data with
  | Some a =>
      if a =? 0 then None
      else match appointments w !! a with
           | Some appointment => Some (a, appointment)
           | None => None
           end
  | None => None
  end.

(** POST /queue/next. *)
Definition call_next_patient (today : date) (now : clock)
  : endpoint Schemas.QueueTokenResponse :=
  fun w =>
    match QueueService.call_next_patient now today (redis w) with
    | (Raise e, r) => (Uncaught (Raised e), with_redis w r)
    | (Ok None, r) =>
        (HTTPException 404 "No patients waiting in queue", with_redis w r)
    | (Ok (Some token_data), r) =>
        let w := with_redis w r in
        (Return (called_response token_data),
         match appointment_of w token_data with
         | Some (a, appointment) => commit_status w a appointment WITH_DOCTOR
         | None => w
         end)
    end.

(** PATCH /queue/{token_number}/status, with the field of
    [QueueStatusUpdate]. *)
Definition update_token_status (today : date) (now : clock)
    (token_number : Z) (status_update_status : string)
  : endpoint Schemas.QueueTokenResponse :=
  fun w =>
    match QueueService.update_status now today token_number
            status_update_status (redis w) with
    | (Raise e, r) => (Uncaught (Raised e), with_redis w r)
    | (Ok None, r) =>
        (HTTPException 404
           ("Token " ++ str token_number ++ " not found in today's queue"),
         with_redis w r)
    | (Ok (Some token_data), r) =>
        let w := with_redis w r in
        (Return (token_response token_data),
         match appointment_of w token_data with
         | Some (a, appointment) =>
             if String.eqb status_update_status "WITH_DOCTOR" then
               commit_status w a appointment WITH_DOCTOR
             else if String.eqb status_update_status "COMPLETED" then
               commit_status w a appointment COMPLETED
             else if String.eqb status_update_status "NO_SHOW" then
               commit_status w a appointment CANCELLED
             else w
         | None => w
         end)
    end.

(** POST /queue/skip/{token_number}. *)
Definition skip_patient (today : date) (now : clock) (token_number : Z)
  : endpoint Schemas.QueueTokenResponse :=
  fun w =>
    match QueueService.skip_patient now today token_number (redis w) with
    | (Raise e, r) => (Uncaught (Raised e), with_redis w r)
    | (Ok None, r) =>
        (HTTPException 404
           ("Token " ++ str token_number ++ " not found in today's queue"),
         with_redis w r)
    | (Ok (Some token_data), r) =>
        (Return (called_response token_data), with_redis w r)
    end.

(** The calls that can change something, each with the day and the
    clock at which it is served. *)
Inductive call :=
| PostCheckin (appointment_id : Z)
| PostWalkIn (patient_id : Z) (chief_complaint : option string)
| PostNext
| PatchStatus (token_number : Z) (status : string)
| PostSkip (token_number : Z).

Definition handle (today : date) (now : clock) (c : call) (w : world) : world :=
  match c with
  | PostCheckin appointment_id =>
      (check_in_appointment today now appointment_id w).2
  | PostWalkIn patient_id chief_complaint =>
      (add_walk_in_patient today now patient_id chief_complaint w).2
  | PostNext => (call_next_patient today now w).2
  | PatchStatus token_number status =>
      (update_token_status today now token_number status w).2
  | PostSkip token_number => (skip_patient today now token_number w).2
  end.

(** The world after a series of calls. *)
Definition handle_all (calls : list (date * clock * call)) (w : world) : world :=
  fold_left (fun w c => handle c.1.1 c.1.2 c.2 w) calls w.

(** Every PATCH of a series carries a status the schema admits. *)
Definition statuses_admitted (calls : list (date * clock * call)) : bool :=
  forallb (fun c => match c.2 with
                    | PatchStatus _ status => Schemas.status_pattern status
                    | _ => true
                    end) calls.

End QueueRouter.

(** ** Sample tables *)

(** Appointment 7 of patient 101, on [day1] at 09:30, and appointment 8
    of patient 102 on the next day. *)
Definition sample_appointments : gmap Z Models.Appointment :=
  <[7 := Models.mkAppointment 101 (Models.mkDateTime day1 34200000000)
           (Some Models.SCHEDULED) (Some "fever")]>
    (<[8 := Models.mkAppointment 102
              (Models.mkDateTime (Date 2024 1 16) 34200000000)
              (Some Models.SCHEDULED) None]> ∅).

Definition sample_patients : gmap Z Models.Patient :=
  <[101 := Models.mkPatient "Asha"]> (<[102 := Models.mkPatient "Ravi"]> ∅).

Definition sample_world : QueueRouter.world :=
  QueueRouter.World sample_appointments sample_patients ∅.

(** ** Readings of the tables *)

(** Two states of the appointments table with the same rows, in which
    every row has kept its "patient_id", its "appointment_date" and its
    "chief_complaint". ("status" may differ, and with it "updated_at",
    which is not among the columns kept here.) *)
Definition same_rows_kept (A A' : gmap Z Models.Appointment) : Prop :=
  forall id,
    match A !! id, A' !! id with
    | Some a, Some a' =>
        Models.a_patient_id a' = Models.a_patient_id a /\
        Models.a_appointment_date a' = Models.a_appointment_date a /\
        Models.a_chief_complaint a' = Models.a_chief_complaint a
    | None, None => True
    | _, _ => False
    end.

(** * Properties *)

(** ** Integers and dates as text *)

Lemma int_str n : int (str n) = Ok n.
Proof.
  unfold int, str.
  rewrite NilZero.isi.
  - by rewrite DecimalZ.of_to.
  - destruct n; simpl; try discriminate.
    intros [= H]. by apply Unsigned.to_uint_nonnil in H.
  - destruct n; simpl; try discriminate.
    intros [= H]. by apply Unsigned.to_uint_nonnil in H.
Qed.

Lemma str_inj n m : str n = str m -> n = m.
Proof.
  intros H. apply (f_equal int) in H. rewrite !int_str in H. by inversion H.
Qed.

Lemma all_chars_app P a b :
  all_chars P (a ++ b) = all_chars P a && all_chars P b.
Proof. induction a as [|c a IH]; simpl; [done|]. by rewrite IH, andb_assoc. Qed.

Lemma all_chars_weaken (P Q : ascii -> bool) s :
  (forall c, P c = true -> Q c = true) ->
  all_chars P s = true -> all_chars Q s = true.
Proof.
  intros HPQ. induction s as [|c s IH]; simpl; [done|].
  rewrite !andb_true_iff. intros [? ?]. auto.
Qed.

Lemma uint_digits d : all_chars is_digit (NilEmpty.string_of_uint d) = true.
Proof. induction d; simpl; auto. Qed.

Lemma str_nat_digits n : all_chars is_digit (str (Z.of_nat n)) = true.
Proof.
  unfold str. destruct (Z.of_nat n) as [|p|p] eqn:E; [done| |lia].
  simpl. generalize (Pos.to_uint p) as u.
  intros u. destruct u; simpl; rewrite ?uint_digits; done.
Qed.

Lemma str_nonempty n : str n <> "".
Proof.
  intros H. pose proof (int_str n) as Hi. by rewrite H in Hi.
Qed.

Lemma zeros_digits k : all_chars is_digit (zeros k) = true.
Proof. induction k; simpl; auto. Qed.

Lemma fmt_d_digits w n : all_chars is_digit (fmt_d w n) = true.
Proof.
  unfold fmt_d. by rewrite all_chars_app, zeros_digits, str_nat_digits.
Qed.

Lemma fmt_d_head w n : exists c r, fmt_d w n = String c r /\ is_digit c = true.
Proof.
  pose proof (fmt_d_digits w n) as Hd.
  destruct (fmt_d w n) as [|c r] eqn:E.
  - unfold fmt_d in E. destruct (zeros _); [|done]. simpl in E.
    by apply str_nonempty in E.
  - simpl in Hd. apply andb_true_iff in Hd as [? _]. eauto.
Qed.

Lemma int_zero_prefix t :
  all_chars is_digit t = true -> t <> "" ->
  int (String "0" t) = int t.
Proof.
  intros Hd Hne. destruct t as [|a t]; [done|]. clear Hne.
  simpl in Hd. apply andb_true_iff in Hd as [Ha _].
  unfold int, NilZero.int_of_string.
  assert (Ascii.eqb a "-" = false) as ->.
  { apply Ascii.eqb_neq. intros ->. done. }
  change (Ascii.eqb "0" "-") with false. cbv iota.
  unfold NilZero.uint_of_string.
  change (NilEmpty.uint_of_string (String "0" (String a t)))
    with (uint_of_char "0" (NilEmpty.uint_of_string (String a t))).
  destruct (NilEmpty.uint_of_string (String a t)); done.
Qed.

Lemma int_fmt_d w n : int (fmt_d w n) = Ok (Z.of_nat n).
Proof.
  unfold fmt_d. generalize (w - String.length (str (Z.of_nat n)))%nat as k.
  induction k as [|k IH].
  - apply int_str.
  - change (int (String "0" (zeros k ++ str (Z.of_nat n))) = Ok (Z.of_nat n)).
    rewrite int_zero_prefix; [done| |].
    + by rewrite all_chars_app, zeros_digits, str_nat_digits.
    + destruct (zeros k); [|done]. apply str_nonempty.
Qed.

Lemma fmt_d_inj w n m : fmt_d w n = fmt_d w m -> n = m.
Proof.
  intros H. apply (f_equal int) in H. rewrite !int_fmt_d in H.
  inversion H. lia.
Qed.

Lemma split_on_app c a b :
  all_chars (is_not c) a = true ->
  split_on c (a ++ String c b) = Some (a, b).
Proof.
  induction a as [|x a IH]; simpl.
  - by rewrite Ascii.eqb_refl.
  - unfold is_not at 1. intros [Hx Ha]%andb_true_iff.
    apply negb_true_iff in Hx. rewrite Hx, IH; done.
Qed.

Lemma app_sep_inj c a a' b b' :
  all_chars (is_not c) a = true ->
  all_chars (is_not c) a' = true ->
  a ++ String c b = a' ++ String c b' -> a = a' /\ b = b'.
Proof.
  intros Ha Ha' H. apply (f_equal (split_on c)) in H.
  rewrite !split_on_app in H by done. by inversion H.
Qed.

Lemma digit_not_dash c : is_digit c = true -> is_not "-" c = true.
Proof. intros H. unfold is_not. apply negb_true_iff, Ascii.eqb_neq. by intros ->. Qed.

Lemma digit_date_char c : is_digit c = true -> date_char c = true.
Proof. unfold date_char. by intros ->. Qed.

Lemma date_char_not_colon c : date_char c = true -> is_not ":" c = true.
Proof.
  unfold date_char, is_not. intros H. apply negb_true_iff, Ascii.eqb_neq.
  by intros ->.
Qed.

Lemma date_isoformat_chars d : all_chars date_char (date_isoformat d) = true.
Proof.
  unfold date_isoformat. rewrite !all_chars_app. simpl.
  rewrite ?all_chars_app. simpl.
  by rewrite !(all_chars_weaken _ _ _ digit_date_char (fmt_d_digits _ _)).
Qed.

Lemma date_isoformat_head d :
  exists c r, date_isoformat d = String c r /\ is_digit c = true.
Proof.
  unfold date_isoformat.
  destruct (fmt_d_head 4 (year d)) as (c & r & -> & Hc). simpl. eauto.
Qed.

Lemma date_isoformat_inj d d' : date_isoformat d = date_isoformat d' -> d = d'.
Proof.
  unfold date_isoformat. intros H.
  apply app_sep_inj in H as [Hy H];
    try (eapply all_chars_weaken; [apply digit_not_dash | apply fmt_d_digits]).
  apply app_sep_inj in H as [Hm Hd];
    try (eapply all_chars_weaken; [apply digit_not_dash | apply fmt_d_digits]).
  apply fmt_d_inj in Hy, Hm, Hd. destruct d, d'; simpl in *; congruence.
Qed.

(** ** Keys *)

Lemma prefix_inj (p a b : string) : p ++ a = p ++ b -> a = b.
Proof. induction p as [|c p IH]; simpl; [done|]. intros [= H]. auto. Qed.

Lemma head_not_digit (d : date) (c : ascii) (r : string) :
  is_digit c = false -> date_isoformat d <> String c r.
Proof.
  intros Hc H. destruct (date_isoformat_head d) as (c' & r' & E & Hc').
  rewrite E in H. injection H as -> _. congruence.
Qed.

Lemma queue_key_inj d d' : _get_queue_key d = _get_queue_key d' -> d = d'.
Proof. intros H. by apply prefix_inj, date_isoformat_inj in H. Qed.

Lemma counter_key_inj d d' : _get_counter_key d = _get_counter_key d' -> d = d'.
Proof. intros H. by apply prefix_inj, date_isoformat_inj in H. Qed.

Lemma current_key_inj d d' : _get_current_key d = _get_current_key d' -> d = d'.
Proof. intros H. by apply prefix_inj, date_isoformat_inj in H. Qed.

Lemma token_key_inj d d' n n' :
  _get_token_key d n = _get_token_key d' n' -> d = d' /\ n = n'.
Proof.
  intros H. apply prefix_inj in H.
  apply (app_sep_inj ":" _ _ (str n) (str n')) in H as [Hd Hn];
    try (eapply all_chars_weaken;
         [apply date_char_not_colon | apply date_isoformat_chars]).
  split; [by apply date_isoformat_inj | by apply str_inj].
Qed.

Lemma queue_token_key d d' n : _get_queue_key d <> _get_token_key d' n.
Proof.
  intros H. apply (prefix_inj "queue:" _ ("token:" ++ _)) in H.
  by eapply head_not_digit in H.
Qed.

Lemma queue_counter_key d d' : _get_queue_key d <> _get_counter_key d'.
Proof.
  intros H. apply (prefix_inj "queue:" _ ("counter:" ++ _)) in H.
  by eapply head_not_digit in H.
Qed.

Lemma queue_current_key d d' : _get_queue_key d <> _get_current_key d'.
Proof.
  intros H. apply (prefix_inj "queue:" _ ("current:" ++ _)) in H.
  by eapply head_not_digit in H.
Qed.

Lemma token_counter_key d d' n : _get_token_key d n <> _get_counter_key d'.
Proof. discriminate. Qed.

Lemma token_current_key d d' n : _get_token_key d n <> _get_current_key d'.
Proof. discriminate. Qed.

Lemma counter_current_key d d' : _get_counter_key d <> _get_current_key d'.
Proof. discriminate. Qed.

Lemma token_key_ne d d' n n' :
  (d, n) <> (d', n') -> _get_token_key d n <> _get_token_key d' n'.
Proof. intros Hne H. apply token_key_inj in H as [-> ->]. done. Qed.

Lemma token_key_ne_number d n n' :
  n <> n' -> _get_token_key d n <> _get_token_key d n'.
Proof. intros Hne H. by apply token_key_inj in H as [_ ?]. Qed.

Lemma token_key_ne_date d d' n n' :
  d <> d' -> _get_token_key d n <> _get_token_key d' n'.
Proof. intros Hne H. by apply token_key_inj in H as [? _]. Qed.

Lemma queue_key_ne d d' : d <> d' -> _get_queue_key d <> _get_queue_key d'.
Proof. intros Hne H. by apply queue_key_inj in H. Qed.

Lemma counter_key_ne d d' : d <> d' -> _get_counter_key d <> _get_counter_key d'.
Proof. intros Hne H. by apply counter_key_inj in H. Qed.

Lemma current_key_ne d d' : d <> d' -> _get_current_key d <> _get_current_key d'.
Proof. intros Hne H. by apply current_key_inj in H. Qed.

Create HintDb keys discriminated.
#[export] Hint Resolve queue_token_key queue_counter_key queue_current_key
  token_counter_key token_current_key counter_current_key
  token_key_ne_number token_key_ne_date queue_key_ne counter_key_ne
  current_key_ne : keys.

Ltac key_ne := solve [ eauto with keys | apply not_eq_sym; eauto with keys ].

(** ** Sorted sets *)

Lemma string_compare_OT a b : String.compare a b = OrdersEx.String_as_OT.compare a b.
Proof.
  revert b. induction a as [|x a IH]; intros [|y b]; simpl; rewrite ?IH; done.
Qed.

Lemma string_ltb_lt a b : String.ltb a b = true <-> OrdersEx.String_as_OT.lt a b.
Proof.
  unfold String.ltb, OrdersEx.String_as_OT.lt. rewrite string_compare_OT.
  by destruct (OrdersEx.String_as_OT.compare a b).
Qed.

Lemma string_ltb_trans a b c :
  String.ltb a b = true -> String.ltb b c = true -> String.ltb a c = true.
Proof.
  rewrite !string_ltb_lt.
  apply (@StrictOrder_Transitive _ _ OrdersEx.String_as_OT.lt_strorder).
Qed.

Lemma string_ltb_irrefl a : String.ltb a a = false.
Proof.
  apply not_true_iff_false. rewrite string_ltb_lt.
  apply (@StrictOrder_Irreflexive _ _ OrdersEx.String_as_OT.lt_strorder).
Qed.

Lemma zlt_trans a b c : zlt a b -> zlt b c -> zlt a c.
Proof.
  unfold zlt. intros [?|[? Hab]] [?|[? Hbc]]; try (left; lia).
  right. split; [lia|]. by eapply string_ltb_trans.
Qed.

Lemma zlt_irrefl a : ~ zlt a a.
Proof. unfold zlt. intros [?|[_ H]]; [lia|]. by rewrite string_ltb_irrefl in H. Qed.

Lemma zle_false_zlt x y : zle x y = false -> zlt y x.
Proof.
  unfold zle, zlt. intros [H1 H2]%orb_false_iff.
  apply Z.ltb_ge in H1. apply andb_false_iff in H2 as [H2|H2].
  - apply Z.eqb_neq in H2. left. lia.
  - destruct (Z.eq_dec x.1 y.1) as [E|]; [|left; lia].
    right. split; [done|]. unfold String.leb in H2. unfold String.ltb.
    rewrite String.compare_antisym. by destruct (String.compare x.2 y.2).
Qed.

Lemma zle_true_zlt x y : zle x y = true -> x.2 <> y.2 -> zlt x y.
Proof.
  unfold zle, zlt. intros [H|[H1 H2]%andb_true_iff]%orb_true_iff Hne.
  - apply Z.ltb_lt in H. by left.
  - apply Z.eqb_eq in H1. right. split; [done|].
    unfold String.leb in H2. unfold String.ltb.
    destruct (String.compare x.2 y.2) eqn:E; try done.
    by apply String.compare_eq_iff in E.
Qed.

Lemma zinsert_In x y z : In y (zinsert x z) <-> y = x \/ In y z.
Proof.
  induction z as [|a z IH]; simpl; [intuition congruence|].
  destruct (zle x a); simpl; [intuition congruence|]. rewrite IH.
  intuition congruence.
Qed.

Lemma zinsert_sorted x z :
  StronglySorted zlt z -> (forall y, In y z -> y.2 <> x.2) ->
  StronglySorted zlt (zinsert x z).
Proof.
  induction 1 as [|a z Hs IH Ha]; intros Hfresh; simpl.
  - repeat constructor.
  - destruct (zle x a) eqn:E.
    + assert (zlt x a) as Hxa.
      { apply zle_true_zlt; [done|]. apply not_eq_sym, Hfresh. by left. }
      constructor; [by constructor|]. constructor; [done|].
      rewrite List.Forall_forall in Ha. apply List.Forall_forall. intros b Hb.
      eapply zlt_trans; [done|]. by apply Ha.
    + constructor.
      * apply IH. intros y Hy. apply Hfresh. by right.
      * apply List.Forall_forall. intros b [->|Hb]%zinsert_In.
        -- by apply zle_false_zlt.
        -- rewrite List.Forall_forall in Ha. by apply Ha.
Qed.

Lemma zremove_In m y z : In y (zremove m z) <-> In y z /\ y.2 <> m.
Proof.
  unfold zremove. rewrite filter_In, negb_true_iff, String.eqb_neq. done.
Qed.

Lemma zremove_sorted m z : StronglySorted zlt z -> StronglySorted zlt (zremove m z).
Proof.
  induction 1 as [|a z Hs IH Ha]; simpl; [constructor|].
  destruct (negb (String.eqb a.2 m)); [|done].
  constructor; [done|]. apply List.Forall_forall. intros b [Hb _]%zremove_In.
  rewrite List.Forall_forall in Ha. by apply Ha.
Qed.

Lemma zremove_id m z : (forall y, In y z -> y.2 <> m) -> zremove m z = z.
Proof.
  induction z as [|a z IH]; intros H; simpl; [done|].
  assert (String.eqb a.2 m = false) as ->.
  { apply String.eqb_neq, H. by left. }
  simpl. f_equal. apply IH. intros y Hy. apply H. by right.
Qed.

(** ** Token hashes *)

Lemma truthy_str n : truthy (str n) = true.
Proof.
  unfold truthy. apply negb_true_iff, String.eqb_neq, str_nonempty.
Qed.

Lemma token_dict_fields h t : token_dict h = Ok t <-> token_fields h t.
Proof.
  unfold token_dict, token_fields, getitem. split.
  - destruct (h !! "token_number") as [v1|]; simpl; [|done].
    destruct (int v1) as [tn|] eqn:E1; simpl; [|done].
    destruct (h !! "patient_id") as [v2|]; simpl; [|done].
    destruct (int v2) as [pid|] eqn:E2; simpl; [|done].
    destruct (h !! "patient_name") as [v3|]; simpl; [|done].
    destruct (get_int_or_none h "appointment_id") as [v4|]; simpl; [|done].
    destruct (h !! "status") as [v5|]; simpl; [|done].
    destruct (h !! "checkin_time") as [v6|]; simpl; [|done].
    intros [= <-]. simpl. eauto 20.
  - intros ((v1 & -> & E1) & (v2 & -> & E2) & -> & -> & -> & -> & H7 & H8 & H9 & H10).
    simpl. rewrite E1. simpl. rewrite E2. simpl.
    rewrite H7, H8, H9, H10. by destruct t.
Qed.

Lemma status_dict_token_dict h t :
  token_dict h = Ok t ->
  status_dict h =
    Ok (mkToken (token_number t) (patient_id t) (patient_name t)
          (appointment_id t) (status t) (checkin_time t) (called_time t)
          (completed_time t) (is_walk_in t) None).
Proof.
  unfold token_dict, status_dict.
  destruct (obind (getitem h "token_number") int); simpl; [|done].
  destruct (obind (getitem h "patient_id") int); simpl; [|done].
  destruct (getitem h "patient_name"); simpl; [|done].
  destruct (get_int_or_none h "appointment_id"); simpl; [|done].
  destruct (getitem h "status"); simpl; [|done].
  destruct (getitem h "checkin_time"); simpl; [|done].
  by intros [= <-].
Qed.

Lemma get_or_none_insert_ne (h : gmap string string) k k' v :
  k <> k' -> get_or_none (<[k := v]> h) k' = get_or_none h k'.
Proof. intros. unfold get_or_none. by rewrite lookup_insert_ne. Qed.

Lemma get_or_none_insert (h : gmap string string) k v :
  get_or_none (<[k := v]> h) k = if truthy v then Some v else None.
Proof. unfold get_or_none. by rewrite lookup_insert_eq. Qed.

Lemma get_is_True_insert_ne (h : gmap string string) k k' v :
  k <> k' -> get_is_True (<[k := v]> h) k' = get_is_True h k'.
Proof. intros. unfold get_is_True. by rewrite lookup_insert_ne. Qed.

Lemma get_int_or_none_insert_ne (h : gmap string string) k k' v :
  k <> k' -> get_int_or_none (<[k := v]> h) k' = get_int_or_none h k'.
Proof. intros. unfold get_int_or_none. by rewrite get_or_none_insert_ne. Qed.

Ltac other_field :=
  repeat first
    [ rewrite lookup_insert_eq
    | rewrite get_or_none_insert
    | rewrite get_or_none_insert_ne by done
    | rewrite get_is_True_insert_ne by done
    | rewrite get_int_or_none_insert_ne by done
    | rewrite lookup_insert_ne by done ].

Lemma token_fields_status h t st :
  token_fields h t ->
  token_fields (<["status" := st]> h)
    (mkToken (token_number t) (patient_id t) (patient_name t)
       (appointment_id t) st (checkin_time t) (called_time t)
       (completed_time t) (is_walk_in t) (chief_complaint t)).
Proof.
  unfold token_fields. simpl. other_field. intuition.
Qed.

Lemma token_fields_called h t v :
  token_fields h t ->
  token_fields (<["called_time" := v]> h)
    (mkToken (token_number t) (patient_id t) (patient_name t)
       (appointment_id t) (status t) (checkin_time t)
       (if truthy v then Some v else None)
       (completed_time t) (is_walk_in t) (chief_complaint t)).
Proof.
  unfold token_fields. simpl. other_field. intuition.
Qed.

Lemma token_fields_completed h t v :
  token_fields h t ->
  token_fields (<["completed_time" := v]> h)
    (mkToken (token_number t) (patient_id t) (patient_name t)
       (appointment_id t) (status t) (checkin_time t) (called_time t)
       (if truthy v then Some v else None)
       (is_walk_in t) (chief_complaint t)).
Proof.
  unfold token_fields. simpl. other_field. intuition.
Qed.

(** ** [update_status], step by step *)

Lemma updated_hash_token now st h t :
  token_dict h = Ok t ->
  token_dict (updated_hash now st h) = Ok (updated_token now st t).
Proof.
  rewrite !token_dict_fields. intros Ht.
  apply (token_fields_status _ _ st) in Ht.
  unfold updated_hash, updated_token.
  destruct (String.eqb st "WITH_DOCTOR").
  - by apply (token_fields_called _ _ (isoformat (utcnow now))) in Ht.
  - destruct (String.eqb st "COMPLETED" || String.eqb st "NO_SHOW").
    + by apply (token_fields_completed _ _ (isoformat (utcnow now))) in Ht.
    + done.
Qed.

Lemma update_status_absent now d n st s :
  s !! _get_token_key d n = None ->
  update_status now d n st s = (Ok None, s).
Proof.
  intros Hs. unfold update_status, Redis.bind, exists_. rewrite Hs.
  rewrite bool_decide_eq_false_2; [done|]. by intros [? ?].
Qed.

Lemma update_status_present now d n st s h ex t :
  s !! _get_token_key d n = Some (Entry (VHash h) ex) ->
  token_dict h = Ok t ->
  (forall e, s !! _get_current_key d = Some e -> exists m, val e = VString (str m)) ->
  update_status now d n st s =
    (Ok (Some (without_complaint (updated_token now st t))),
     updated_store now d n st h ex s).
Proof.
  intros Hs Ht Hcur.
  pose proof (updated_hash_token now st h t Ht) as Ht'.
  apply status_dict_token_dict in Ht'. fold (without_complaint (updated_token now st t)) in Ht'.
  unfold update_status, Redis.bind, exists_. rewrite Hs.
  rewrite bool_decide_eq_true_2 by eauto. cbn [negb].
  unfold hset at 1. rewrite Hs.
  unfold updated_store, updated_hash in *.
  destruct (String.eqb st "WITH_DOCTOR") eqn:Ewd.
  - unfold hset, set_ex, hgetall, lift, ret. rewrite lookup_insert_eq.
    rewrite insert_insert_eq.
    rewrite lookup_insert_ne by key_ne. rewrite lookup_insert_eq.
    by rewrite Ht'.
  - destruct (String.eqb st "COMPLETED" || String.eqb st "NO_SHOW") eqn:Ec.
    + unfold hset, get, hgetall, lift, ret. rewrite lookup_insert_eq.
      rewrite insert_insert_eq.
      rewrite lookup_insert_ne by key_ne.
      unfold current_value.
      destruct (s !! _get_current_key d) as [[v ex']|] eqn:Ecur.
      * destruct (Hcur _ eq_refl) as [m Hm]. simpl in Hm. subst v.
        rewrite truthy_str. unfold Redis.bind. rewrite int_str.
        destruct (Z.eqb_spec m n) as [->|Hne].
        -- rewrite bool_decide_eq_true_2 by done.
           unfold Redis.delete. rewrite lookup_delete_ne by key_ne.
           rewrite lookup_insert_eq. by rewrite Ht'.
        -- rewrite bool_decide_eq_false_2.
           2:{ intros [= E]. by apply str_inj in E. }
           unfold ret. rewrite lookup_insert_eq. by rewrite Ht'.
      * rewrite bool_decide_eq_false_2 by done.
        rewrite lookup_insert_eq. by rewrite Ht'.
    + unfold ret, hgetall, lift. rewrite lookup_insert_eq. by rewrite Ht'.
Qed.

(** ** [check_in], step by step *)

Lemma counter_value_spec d s c ex :
  s !! _get_counter_key d = Some (Entry (VString (str c)) ex) ->
  counter_value d s = c.
Proof. intros H. unfold counter_value. by rewrite H, int_str. Qed.

Lemma counter_value_absent d s :
  s !! _get_counter_key d = None -> counter_value d s = 0.
Proof. intros H. unfold counter_value. by rewrite H. Qed.

Lemma next_token_number_ok now d s :
  wf_date d s ->
  _get_next_token_number now d s =
    (Ok (counter_value d s + 1),
     <[_get_counter_key d :=
         Entry (VString (str (counter_value d s + 1)))
           (Some (server_time now + 86400))]> s).
Proof.
  intros Hwf. unfold _get_next_token_number, Redis.bind, incr.
  destruct (s !! _get_counter_key d) as [[v ex]|] eqn:E.
  - destruct (wf_counter _ _ Hwf _ E) as (c & Hv & _). simpl in Hv. subst v.
    rewrite (counter_value_spec _ _ _ _ E), int_str.
    unfold expire, ret. rewrite lookup_insert_eq. by rewrite insert_insert_eq.
  - rewrite (counter_value_absent _ _ E). simpl.
    unfold expire, ret. rewrite lookup_insert_eq. by rewrite insert_insert_eq.
Qed.

Lemma fresh_token d s n :
  wf_date d s -> counter_value d s < n -> s !! _get_token_key d n = None.
Proof.
  intros Hwf Hn. destruct (s !! _get_token_key d n) as [e|] eqn:E; [|done].
  destruct (wf_token _ _ Hwf _ _ E) as (h & t & _ & _ & _ & ?). lia.
Qed.

Lemma fresh_member d s n :
  wf_date d s -> counter_value d s < n ->
  forall y, In y (queue_index d s) -> y.2 <> str n.
Proof.
  intros Hwf Hn [sc m] Hy E. simpl in E. subst m.
  destruct (wf_members _ _ Hwf _ _ Hy) as (n' & E & [e He]).
  apply str_inj in E. subst n'. by rewrite fresh_token in He.
Qed.

Lemma check_in_ok now d pid pname appt walk cc s :
  wf_date d s ->
  let n := counter_value d s + 1 in
  let data := new_token_data n pid pname appt (utcnow now) walk cc in
  check_in now d pid pname appt walk cc s =
    (Ok data, checked_in_store now d n data s).
Proof.
  intros Hwf n data. unfold check_in, Redis.bind at 1.
  rewrite next_token_number_ok by done. fold n. fold data.
  unfold Redis.bind, hset_mapping.
  rewrite lookup_insert_ne by key_ne.
  rewrite (fresh_token d s n) by (done || lia).
  unfold expire at 1. rewrite lookup_insert_eq, insert_insert_eq.
  unfold zadd. rewrite !lookup_insert_ne by key_ne.
  unfold checked_in_store, queue_index, expire, ret.
  destruct (s !! _get_queue_key d) as [[v ex]|] eqn:E.
  - destruct (wf_queue _ _ Hwf _ E) as (z & Hz). simpl in Hz. subst v.
    rewrite lookup_insert_eq, insert_insert_eq.
    rewrite zremove_id; [done|].
    pose proof (fresh_member d s n Hwf) as Hf. unfold queue_index in Hf.
    rewrite E in Hf. apply Hf. lia.
  - by rewrite lookup_insert_eq, insert_insert_eq.
Qed.

(** ** The shape of the store is kept by a status update *)

Section updated_store.
Context (now : clock) (d : date) (n : Z) (st : string)
  (h : gmap string string) (ex : option Z) (s : db).

Let s' := updated_store now d n st h ex s.

Lemma updated_counter_key d' : s' !! _get_counter_key d' = s !! _get_counter_key d'.
Proof.
  unfold s', updated_store.
  repeat case_match; rewrite ?lookup_delete_ne by key_ne;
    by rewrite !lookup_insert_ne by key_ne.
Qed.

Lemma updated_queue_key d' : s' !! _get_queue_key d' = s !! _get_queue_key d'.
Proof.
  unfold s', updated_store.
  repeat case_match; rewrite ?lookup_delete_ne by key_ne;
    by rewrite !lookup_insert_ne by key_ne.
Qed.

Lemma updated_token_key_same :
  s' !! _get_token_key d n = Some (Entry (VHash (updated_hash now st h)) ex).
Proof.
  unfold s', updated_store.
  repeat case_match; rewrite ?lookup_delete_ne by key_ne;
    rewrite ?lookup_insert_ne by key_ne; by rewrite lookup_insert_eq.
Qed.

Lemma updated_token_key_other d' m :
  (d', m) <> (d, n) -> s' !! _get_token_key d' m = s !! _get_token_key d' m.
Proof.
  intros Hne. apply not_eq_sym, token_key_ne in Hne.
  unfold s', updated_store.
  repeat case_match; rewrite ?lookup_delete_ne by key_ne;
    rewrite ?(lookup_insert_ne _ (_get_current_key d)) by key_ne;
    by rewrite lookup_insert_ne.
Qed.

Lemma updated_current_key_other d' :
  d' <> d -> s' !! _get_current_key d' = s !! _get_current_key d'.
Proof.
  intros Hne. unfold s', updated_store.
  repeat case_match; rewrite ?lookup_delete_ne by key_ne;
    by rewrite !lookup_insert_ne by key_ne.
Qed.

Lemma updated_counter_value d' : counter_value d' s' = counter_value d' s.
Proof. unfold counter_value. by rewrite updated_counter_key. Qed.

Lemma updated_queue_index d' : queue_index d' s' = queue_index d' s.
Proof. unfold queue_index. by rewrite updated_queue_key. Qed.

Lemma updated_current_value_other d' :
  d' <> d -> current_value d' s' = current_value d' s.
Proof. intros. unfold current_value. by rewrite updated_current_key_other. Qed.

(** The pointer of the day after the update. *)
Lemma updated_current_value :
  current_value d s' =
    if String.eqb st "WITH_DOCTOR" then Some (str n)
    else if String.eqb st "COMPLETED" || String.eqb st "NO_SHOW" then
      if bool_decide (current_value d s = Some (str n)) then None
      else current_value d s
    else current_value d s.
Proof.
  unfold s', updated_store, current_value at 1.
  destruct (String.eqb st "WITH_DOCTOR").
  { by rewrite lookup_insert_eq. }
  destruct (String.eqb st "COMPLETED" || String.eqb st "NO_SHOW").
  - case_bool_decide.
    + by rewrite lookup_delete_eq.
    + by rewrite lookup_insert_ne by key_ne.
  - by rewrite lookup_insert_ne by key_ne.
Qed.

Lemma updated_current_key_shape e :
  (forall e, s !! _get_current_key d = Some e -> exists m, val e = VString (str m)) ->
  s' !! _get_current_key d = Some e -> exists m, val e = VString (str m).
Proof.
  intros Hcur. unfold s', updated_store.
  destruct (String.eqb st "WITH_DOCTOR").
  { rewrite lookup_insert_eq. intros [= <-]. eauto. }
  destruct (String.eqb st "COMPLETED" || String.eqb st "NO_SHOW").
  - case_bool_decide.
    + by rewrite lookup_delete_eq.
    + rewrite lookup_insert_ne by key_ne. apply Hcur.
  - rewrite lookup_insert_ne by key_ne. apply Hcur.
Qed.

Lemma updated_token_is_Some d' m :
  is_Some (s !! _get_token_key d n) ->
  is_Some (s' !! _get_token_key d' m) <-> is_Some (s !! _get_token_key d' m).
Proof.
  intros Hs. destruct (decide ((d', m) = (d, n))) as [[= -> ->]|Hne].
  - rewrite updated_token_key_same. split; eauto.
  - by rewrite updated_token_key_other.
Qed.

Lemma wf_updated_store t d' :
  s !! _get_token_key d n = Some (Entry (VHash h) ex) ->
  token_dict h = Ok t ->
  wf_date d s -> wf_date d' s -> wf_date d' s'.
Proof.
  intros Hs Ht Hd Hwf.
  assert (is_Some (s !! _get_token_key d n)) as Hsome by eauto.
  split.
  - intros e. rewrite updated_counter_key. by apply wf_counter.
  - intros e. rewrite updated_queue_key. by apply wf_queue.
  - rewrite updated_queue_index. by apply wf_sorted.
  - intros sc m. rewrite updated_queue_index. intros Hin.
    destruct (wf_members _ _ Hwf _ _ Hin) as (k & -> & Hk).
    exists k. split; [done|]. by apply updated_token_is_Some.
  - intros m e. rewrite updated_counter_value.
    destruct (decide ((d', m) = (d, n))) as [[= -> ->]|Hne].
    + rewrite updated_token_key_same. intros [= <-].
      destruct (wf_token _ _ Hd _ _ Hs) as (h0 & t0 & [= <-] & Ht0 & Hn & Hr).
      exists (updated_hash now st h), (updated_token now st t).
      rewrite Ht in Ht0. injection Ht0 as <-.
      split; [done|]. split; [by apply updated_hash_token|]. done.
    + rewrite updated_token_key_other by done. by apply wf_token.
  - intros m Hm. rewrite updated_queue_index.
    apply updated_token_is_Some in Hm; [|done]. by apply wf_listed.
  - intros e. destruct (decide (d' = d)) as [->|Hne].
    + apply updated_current_key_shape. by apply wf_current.
    + rewrite updated_current_key_other by done. by apply wf_current.
Qed.

End updated_store.

(** ** The hash of a new token *)

Lemma ten_fields (v1 v2 v3 v4 v5 v6 v7 v8 v9 v10 : Py.val) :
  let h : gmap string string :=
    encode <$> list_to_map
      [ ("token_number", v1); ("patient_id", v2); ("patient_name", v3);
        ("appointment_id", v4); ("status", v5); ("checkin_time", v6);
        ("called_time", v7); ("completed_time", v8); ("is_walk_in", v9);
        ("chief_complaint", v10) ] in
  h !! "token_number" = Some (encode v1) /\
  h !! "patient_id" = Some (encode v2) /\
  h !! "patient_name" = Some (encode v3) /\
  h !! "appointment_id" = Some (encode v4) /\
  h !! "status" = Some (encode v5) /\
  h !! "checkin_time" = Some (encode v6) /\
  h !! "called_time" = Some (encode v7) /\
  h !! "completed_time" = Some (encode v8) /\
  h !! "is_walk_in" = Some (encode v9) /\
  h !! "chief_complaint" = Some (encode v10).
Proof. vm_compute. repeat split; reflexivity. Qed.

Lemma new_token_data_fields n pid pname appt checkin walk cc :
  let h := encode <$> new_token_data n pid pname appt checkin walk cc in
  h !! "token_number" = Some (str n) /\
  h !! "patient_id" = Some (str pid) /\
  h !! "patient_name" = Some pname /\
  h !! "appointment_id" = Some (encode (int_or_empty appt)) /\
  h !! "status" = Some "WAITING" /\
  h !! "checkin_time" = Some (isoformat checkin) /\
  h !! "called_time" = Some "" /\
  h !! "completed_time" = Some "" /\
  h !! "is_walk_in" = Some (str_bool walk) /\
  h !! "chief_complaint" = Some (encode (str_or_empty cc)).
Proof. apply ten_fields. Qed.

Lemma new_token_dict n pid pname appt checkin walk cc :
  token_dict (encode <$> new_token_data n pid pname appt checkin walk cc) =
    Ok (new_token n pid pname appt checkin walk cc).
Proof.
  apply token_dict_fields.
  destruct (new_token_data_fields n pid pname appt checkin walk cc)
    as (H1 & H2 & H3 & H4 & H5 & H6 & H7 & H8 & H9 & H10).
  unfold token_fields, get_int_or_none, get_or_none, get_is_True.
  rewrite H1, H2, H3, H4, H5, H6, H7, H8, H9, H10. simpl.
  repeat split.
  - exists (str n). by rewrite int_str.
  - exists (str pid). by rewrite int_str.
  - destruct appt as [a|]; simpl; [|done].
    destruct (Z.eqb_spec a 0); simpl; [done|].
    by rewrite truthy_str, int_str.
  - by destruct walk.
  - by destruct cc.
Qed.

(** ** The shape of the store is kept by a check-in *)

Lemma counter_value_nonneg d s : wf_date d s -> 0 <= counter_value d s.
Proof.
  intros Hwf. unfold counter_value.
  destruct (s !! _get_counter_key d) as [[v ex]|] eqn:E; [|done].
  destruct (wf_counter _ _ Hwf _ E) as (c & Hv & Hc). simpl in Hv. subst v.
  rewrite int_str. lia.
Qed.

Section checked_in_store.
Context (now : clock) (d : date) (pid : Z) (pname : string)
  (appt : option Z) (walk : bool) (cc : option string) (s : db).

Let n := counter_value d s + 1.
Let data := new_token_data n pid pname appt (utcnow now) walk cc.
Let s' := checked_in_store now d n data s.

Lemma checked_in_counter_key :
  s' !! _get_counter_key d =
    Some (Entry (VString (str n)) (Some (server_time now + 86400))).
Proof.
  unfold s', checked_in_store. rewrite !lookup_insert_ne by key_ne.
  by rewrite lookup_insert_eq.
Qed.

Lemma checked_in_counter_key_other d' :
  d' <> d -> s' !! _get_counter_key d' = s !! _get_counter_key d'.
Proof.
  intros. unfold s', checked_in_store. by rewrite !lookup_insert_ne by key_ne.
Qed.

Lemma checked_in_queue_key :
  s' !! _get_queue_key d =
    Some (Entry (VZSet (zinsert (timestamp (utcnow now), str n) (queue_index d s)))
            (Some (server_time now + 86400))).
Proof. unfold s', checked_in_store. by rewrite lookup_insert_eq. Qed.

Lemma checked_in_queue_key_other d' :
  d' <> d -> s' !! _get_queue_key d' = s !! _get_queue_key d'.
Proof.
  intros. unfold s', checked_in_store. by rewrite !lookup_insert_ne by key_ne.
Qed.

Lemma checked_in_token_key_same :
  s' !! _get_token_key d n =
    Some (Entry (VHash (encode <$> data)) (Some (server_time now + 86400))).
Proof.
  unfold s', checked_in_store. rewrite lookup_insert_ne by key_ne.
  by rewrite lookup_insert_eq.
Qed.

Lemma checked_in_token_key_other d' m :
  (d', m) <> (d, n) -> s' !! _get_token_key d' m = s !! _get_token_key d' m.
Proof.
  intros Hne. apply not_eq_sym, token_key_ne in Hne.
  unfold s', checked_in_store. rewrite lookup_insert_ne by key_ne.
  rewrite lookup_insert_ne by done. by rewrite lookup_insert_ne by key_ne.
Qed.

Lemma checked_in_current_key d' :
  s' !! _get_current_key d' = s !! _get_current_key d'.
Proof. unfold s', checked_in_store. by rewrite !lookup_insert_ne by key_ne. Qed.

Lemma checked_in_counter_value : counter_value d s' = n.
Proof. unfold counter_value. by rewrite checked_in_counter_key, int_str. Qed.

Lemma checked_in_queue_index :
  queue_index d s' = zinsert (timestamp (utcnow now), str n) (queue_index d s).
Proof. unfold queue_index at 1. by rewrite checked_in_queue_key. Qed.

Lemma checked_in_current_value d' : current_value d' s' = current_value d' s.
Proof. unfold current_value. by rewrite checked_in_current_key. Qed.

Lemma checked_in_token_is_Some d' m :
  is_Some (s !! _get_token_key d' m) -> is_Some (s' !! _get_token_key d' m).
Proof.
  destruct (decide ((d', m) = (d, n))) as [[= -> ->]|Hne].
  - rewrite checked_in_token_key_same. eauto.
  - by rewrite checked_in_token_key_other.
Qed.

Lemma wf_checked_in_other d' :
  d' <> d -> wf_date d' s -> wf_date d' s'.
Proof.
  intros Hne Hwf.
  assert (forall m, s' !! _get_token_key d' m = s !! _get_token_key d' m) as Htok.
  { intros m. apply checked_in_token_key_other. congruence. }
  assert (queue_index d' s' = queue_index d' s) as Hidx.
  { unfold queue_index. by rewrite checked_in_queue_key_other. }
  assert (counter_value d' s' = counter_value d' s) as Hcnt.
  { unfold counter_value. by rewrite checked_in_counter_key_other. }
  split.
  - intros e. rewrite checked_in_counter_key_other by done. by apply wf_counter.
  - intros e. rewrite checked_in_queue_key_other by done. by apply wf_queue.
  - rewrite Hidx. by apply wf_sorted.
  - intros sc m. rewrite Hidx. setoid_rewrite Htok. by apply wf_members.
  - intros m e. rewrite Htok, Hcnt. by apply wf_token.
  - intros m. rewrite Htok, Hidx. by apply wf_listed.
  - intros e. rewrite checked_in_current_key. by apply wf_current.
Qed.

Lemma wf_checked_in_same : wf_date d s -> wf_date d s'.
Proof.
  intros Hwf. pose proof (counter_value_nonneg _ _ Hwf) as Hc.
  split.
  - intros e. rewrite checked_in_counter_key. intros [= <-].
    exists n. split; [done|]. unfold n. lia.
  - intros e. rewrite checked_in_queue_key. intros [= <-]. eauto.
  - rewrite checked_in_queue_index. apply zinsert_sorted; [by apply wf_sorted|].
    simpl. apply fresh_member; [done|]. unfold n. lia.
  - intros sc m. rewrite checked_in_queue_index.
    intros [[= -> ->]|Hin]%zinsert_In.
    + exists n. split; [done|]. rewrite checked_in_token_key_same. eauto.
    + destruct (wf_members _ _ Hwf _ _ Hin) as (k & -> & Hk).
      exists k. split; [done|]. by apply checked_in_token_is_Some.
  - intros m e. rewrite checked_in_counter_value.
    destruct (decide (m = n)) as [->|Hne].
    + rewrite checked_in_token_key_same. intros [= <-].
      eexists _, _. split; [done|]. split; [apply new_token_dict|].
      simpl. unfold n. lia.
    + rewrite checked_in_token_key_other by congruence. intros He.
      destruct (wf_token _ _ Hwf _ _ He) as (h & t & ? & ? & ? & ?).
      exists h, t. repeat split; try done; unfold n; lia.
  - intros m. rewrite checked_in_queue_index.
    destruct (decide (m = n)) as [->|Hne].
    + intros _. exists (timestamp (utcnow now)). apply zinsert_In. by left.
    + rewrite checked_in_token_key_other by congruence. intros Hm.
      destruct (wf_listed _ _ Hwf _ Hm) as [sc Hsc].
      exists sc. apply zinsert_In. by right.
  - intros e. rewrite checked_in_current_key. by apply wf_current.
Qed.

Lemma wf_checked_in d' : wf_date d s -> wf_date d' s -> wf_date d' s'.
Proof.
  intros Hd Hd'. destruct (decide (d' = d)) as [->|Hne].
  - by apply wf_checked_in_same.
  - by apply wf_checked_in_other.
Qed.

End checked_in_store.

(** ** [get_today_queue] and [call_next_patient], step by step *)

Lemma token_of_member_wf d s n e :
  wf_date d s -> s !! _get_token_key d n = Some e ->
  exists h t, e = Entry (VHash h) (expires_at e) /\ token_dict h = Ok t /\
    token_number t = n /\ token_of_member d s (str n) = Some t.
Proof.
  intros Hwf He.
  destruct (wf_token _ _ Hwf _ _ He) as (h & t & Hv & Ht & Hn & _).
  destruct e as [v ex]. simpl in Hv. subst v.
  exists h, t. repeat split; try done.
  unfold token_of_member, token_hash. by rewrite int_str, He, Ht.
Qed.

Lemma token_dict_empty : token_dict ∅ = Raise KeyError.
Proof. done. Qed.

Lemma get_today_queue_loop_ok d s members acc :
  wf_date d s ->
  (forall m, In m members -> exists n, m = str n /\ is_Some (s !! _get_token_key d n)) ->
  get_today_queue_loop d members acc s =
    (Ok (acc ++ omap (token_of_member d s) members)%list, s).
Proof.
  intros Hwf. revert acc.
  induction members as [|m members IH]; intros acc Hm; simpl.
  - by rewrite app_nil_r.
  - destruct (Hm m) as (n & -> & [e He]); [by left|].
    destruct (token_of_member_wf _ _ _ _ Hwf He) as (h & t & Ee & Ht & Hn & Hmem).
    rewrite Hmem. unfold Redis.bind at 1, lift. rewrite int_str.
    unfold Redis.bind at 1, hgetall. rewrite He, Ee.
    rewrite bool_decide_eq_false_2.
    2:{ intros ->. by rewrite token_dict_empty in Ht. }
    unfold Redis.bind at 1. rewrite Ht.
    rewrite IH; [|intros; apply Hm; by right].
    by rewrite <- app_assoc.
Qed.

Lemma get_today_queue_ok d s :
  wf_date d s -> get_today_queue d s = (Ok (listing d s), s).
Proof.
  intros Hwf. unfold get_today_queue, Redis.bind, zrange_all, listing.
  pose proof (wf_members _ _ Hwf) as Hm. unfold queue_index in *.
  destruct (s !! _get_queue_key d) as [[v ex]|] eqn:E; [|done].
  destruct (wf_queue _ _ Hwf _ E) as (z & Hz). simpl in Hz. subst v.
  destruct (snd <$> z) as [|m ms] eqn:Ez; [done|].
  rewrite get_today_queue_loop_ok; [done..|].
  intros m' Hin. rewrite <- Ez in Hin. apply in_map_iff in Hin as ([sc m''] & <- & Hin).
  by apply (Hm sc).
Qed.

Lemma call_next_loop_spec now d l s :
  call_next_loop now d l s =
    match first_waiting l with
    | Some t => update_status now d (token_number t) "WITH_DOCTOR" s
    | None => (Ok None, s)
    end.
Proof.
  induction l as [|t l IH]; simpl; [done|].
  by destruct (String.eqb (status t) "WAITING").
Qed.

Lemma call_next_patient_spec now d s :
  wf_date d s ->
  call_next_patient now d s =
    match first_waiting (listing d s) with
    | Some t => update_status now d (token_number t) "WITH_DOCTOR" s
    | None => (Ok None, s)
    end.
Proof.
  intros Hwf. unfold call_next_patient, Redis.bind.
  rewrite get_today_queue_ok by done. apply call_next_loop_spec.
Qed.

(** A listed token is the dict of the hash of a member of the index. *)
Lemma listing_In d s t :
  wf_date d s -> In t (listing d s) ->
  exists sc h ex,
    In (sc, str (token_number t)) (queue_index d s) /\
    s !! _get_token_key d (token_number t) = Some (Entry (VHash h) ex) /\
    token_dict h = Ok t.
Proof.
  intros Hwf Hin. unfold listing in Hin.
  apply list_elem_of_In, list_elem_of_omap in Hin as (m & Hm & Hmem).
  apply list_elem_of_In, in_map_iff in Hm as ([sc m'] & Em & Hidx).
  simpl in Em. subst m'.
  destruct (wf_members _ _ Hwf _ _ Hidx) as (k & -> & [e He]).
  destruct (token_of_member_wf _ _ _ _ Hwf He) as (h & t' & Ee & Ht & Hn & Hmem').
  rewrite Hmem' in Hmem. injection Hmem as ->.
  exists sc, h, (expires_at e). rewrite Hn. by rewrite <- Ee.
Qed.

(** ** Every request keeps the shape of the store *)

Lemma update_status_cases now d n st s :
  wf_date d s ->
  (s !! _get_token_key d n = None /\
   update_status now d n st s = (Ok None, s)) \/
  (exists h ex t,
     s !! _get_token_key d n = Some (Entry (VHash h) ex) /\
     token_dict h = Ok t /\ token_number t = n /\
     update_status now d n st s =
       (Ok (Some (without_complaint (updated_token now st t))),
        updated_store now d n st h ex s)).
Proof.
  intros Hwf. destruct (s !! _get_token_key d n) as [e|] eqn:E.
  - right. destruct (wf_token _ _ Hwf _ _ E) as (h & t & Hv & Ht & Hn & _).
    destruct e as [v ex]. simpl in Hv. subst v.
    exists h, ex, t. repeat split; try done.
    apply update_status_present; try done. by apply wf_current.
  - left. split; [done|]. by apply update_status_absent.
Qed.

Lemma wf_empty : wf ∅.
Proof.
  intros d. split.
  - intros e. by rewrite lookup_empty.
  - intros e. by rewrite lookup_empty.
  - unfold queue_index. rewrite lookup_empty. constructor.
  - intros sc m. unfold queue_index. by rewrite lookup_empty.
  - intros n e. by rewrite lookup_empty.
  - intros n [? H]. by rewrite lookup_empty in H.
  - intros e. by rewrite lookup_empty.
Qed.

Lemma update_status_wf now d n st s :
  wf s ->
  wf (update_status now d n st s).2 /\
  exists r, (update_status now d n st s).1 = Ok r.
Proof.
  intros Hwf.
  destruct (update_status_cases now d n st s (Hwf d))
    as [[_ ->]|(h & ex & t & Hs & Ht & _ & ->)]; simpl.
  - eauto.
  - split; [|eauto]. intros d'. by eapply wf_updated_store.
Qed.

Lemma call_next_patient_wf now d s :
  wf s ->
  wf (call_next_patient now d s).2 /\
  exists r, (call_next_patient now d s).1 = Ok r.
Proof.
  intros Hwf. rewrite call_next_patient_spec by done.
  destruct (first_waiting (listing d s)); [|by eauto].
  by apply update_status_wf.
Qed.

Lemma check_in_wf now d pid pname appt walk cc s :
  wf s ->
  wf (check_in now d pid pname appt walk cc s).2 /\
  exists r, (check_in now d pid pname appt walk cc s).1 = Ok r.
Proof.
  intros Hwf. rewrite check_in_ok by done. simpl. split; [|eauto].
  intros d'. by apply wf_checked_in.
Qed.

Lemma serve_wf now r s :
  wf s -> wf (serve now r s).2 /\ exists x, (serve now r s).1 = Ok x.
Proof.
  intros Hwf. destruct r as [d pid pname appt walk cc|d n st|d|d n|d n];
    unfold serve, Redis.bind, skip_patient, recall_patient.
  - destruct (check_in_wf now d pid pname appt walk cc s Hwf) as [H [x Hx]].
    destruct (check_in _ _ _ _ _ _ _ s) as [[?|?] ?]; simpl in *; eauto; done.
  - destruct (update_status_wf now d n st s Hwf) as [H [x Hx]].
    destruct (update_status _ _ _ _ s) as [[?|?] ?]; simpl in *; eauto; done.
  - destruct (call_next_patient_wf now d s Hwf) as [H [x Hx]].
    destruct (call_next_patient _ _ s) as [[?|?] ?]; simpl in *; eauto; done.
  - destruct (update_status_wf now d n "SKIPPED" s Hwf) as [H [x Hx]].
    destruct (update_status _ _ _ _ s) as [[?|?] ?]; simpl in *; eauto; done.
  - destruct (update_status_wf now d n "WAITING" s Hwf) as [H [x Hx]].
    destruct (update_status _ _ _ _ s) as [[?|?] ?]; simpl in *; eauto; done.
Qed.

Lemma reachable_wf s : reachable s -> wf s.
Proof.
  induction 1 as [|s now r _ IH]; [apply wf_empty|]. by apply serve_wf.
Qed.

(** ** Traces *)

Lemma run_app tr1 tr2 s : run (tr1 ++ tr2)%list s = run tr2 (run tr1 s).
Proof. unfold run. by rewrite fold_left_app. Qed.

Lemma run_cons now r tr s : run ((now, r) :: tr) s = run tr (serve now r s).2.
Proof. done. Qed.

Lemma run_snoc now r tr s :
  run (tr ++ [(now, r)])%list s = (serve now r (run tr s)).2.
Proof. by rewrite run_app. Qed.

Lemma wf_run tr s : wf s -> wf (run tr s).
Proof.
  revert s. induction tr as [|[now r] tr IH]; intros s Hwf; [done|].
  rewrite run_cons. by apply IH, serve_wf.
Qed.

Lemma reachable_run tr s : reachable s -> reachable (run tr s).
Proof.
  revert s. induction tr as [|[now r] tr IH]; intros s Hs; [done|].
  rewrite run_cons. by apply IH, reachable_serve.
Qed.

Lemma reachable_iff_run s : reachable s <-> exists tr, s = run tr ∅.
Proof.
  split.
  - induction 1 as [|s now r _ [tr ->]]; [by exists []|].
    exists (tr ++ [(now, r)])%list. by rewrite run_snoc.
  - intros [tr ->]. apply reachable_run, reachable_empty.
Qed.

(** What a request does to a well-formed store: a check-in, nothing
    (token not found, nobody waiting), or one status update. *)
Lemma serve_cases now r s :
  wf s ->
  (exists d pid pname appt walk cc,
     r = CheckIn d pid pname appt walk cc /\
     let n := counter_value d s + 1 in
     let data := new_token_data n pid pname appt (utcnow now) walk cc in
     serve now r s = (Ok (Checked data), checked_in_store now d n data s)) \/
  (serve now r s = (Ok (Updated None), s) /\
   ((exists d n st, r = UpdateStatus d n st /\ s !! _get_token_key d n = None) \/
    (exists d n, r = Skip d n /\ s !! _get_token_key d n = None) \/
    (exists d n, r = Recall d n /\ s !! _get_token_key d n = None) \/
    (exists d, r = CallNext d /\ first_waiting (listing d s) = None))) \/
  (exists d n st h ex t,
     s !! _get_token_key d n = Some (Entry (VHash h) ex) /\
     token_dict h = Ok t /\ token_number t = n /\
     serve now r s =
       (Ok (Updated (Some (without_complaint (updated_token now st t)))),
        updated_store now d n st h ex s) /\
     (r = UpdateStatus d n st \/
      (r = Skip d n /\ st = "SKIPPED") \/
      (r = Recall d n /\ st = "WAITING") \/
      (r = CallNext d /\ st = "WITH_DOCTOR" /\
       exists t0, first_waiting (listing d s) = Some t0 /\ token_number t0 = n))).
Proof.
  intros Hwf. destruct r as [d pid pname appt walk cc|d n st|d|d n|d n];
    unfold serve, Redis.bind, skip_patient, recall_patient.
  - left. exists d, pid, pname, appt, walk, cc. split; [done|].
    by rewrite check_in_ok.
  - destruct (update_status_cases now d n st s (Hwf d))
      as [[Hs ->]|(h & ex & t & Hs & Ht & Hn & ->)].
    + right; left. split; [done|]. left. eauto.
    + right; right. exists d, n, st, h, ex, t. eauto 10.
  - rewrite call_next_patient_spec by done.
    destruct (first_waiting (listing d s)) as [t0|] eqn:E.
    + destruct (update_status_cases now d (token_number t0) "WITH_DOCTOR" s (Hwf d))
        as [[Hs ->]|(h & ex & t & Hs & Ht & Hn & ->)].
      * right; left. split; [done|]. exfalso.
        unfold first_waiting in E. apply find_some in E as [Hin _].
        destruct (listing_In _ _ _ (Hwf d) Hin) as (sc & h & ex & _ & Hk & _).
        congruence.
      * right; right. exists d, (token_number t0), "WITH_DOCTOR", h, ex, t.
        repeat split; try done. right; right; right. eauto.
    + right; left. split; [done|]. eauto 10.
  - destruct (update_status_cases now d n "SKIPPED" s (Hwf d))
      as [[Hs ->]|(h & ex & t & Hs & Ht & Hn & ->)].
    + right; left. split; [done|]. eauto 10.
    + right; right. exists d, n, "SKIPPED", h, ex, t. eauto 10.
  - destruct (update_status_cases now d n "WAITING" s (Hwf d))
      as [[Hs ->]|(h & ex & t & Hs & Ht & Hn & ->)].
    + right; left. split; [done|]. eauto 10.
    + right; right. exists d, n, "WAITING", h, ex, t. eauto 10.
Qed.

(** * Properties of the specification *)

(** ** Errors of [update_status] *)

Lemma bind_not_none {A} (m : M A) (k : A -> M (option Token)) s :
  (forall a s', (k a s').1 <> Ok None) -> (Redis.bind m k s).1 <> Ok None.
Proof.
  intros Hk. unfold Redis.bind. destruct (m s) as [[a|e] s']; [apply Hk|done].
Qed.

(** C4. [update_status] answers not-found ([None]) exactly when the store
    holds no token record under that date and number, and then the whole
    store (token records, check-in index, counter, current pointer) is
    the one it started from: the check comes before any write. *)
Theorem update_status_not_found now d n st s :
  ((update_status now d n st s).1 = Ok None <->
   s !! _get_token_key d n = None) /\
  ((update_status now d n st s).1 = Ok None ->
   (update_status now d n st s).2 = s).
Proof.
  destruct (s !! _get_token_key d n) as [e|] eqn:E.
  - assert ((update_status now d n st s).1 <> Ok None) as Hne.
    { unfold update_status. unfold Redis.bind at 1, exists_. rewrite E.
      rewrite bool_decide_eq_true_2 by eauto. cbn [negb].
      repeat (apply bind_not_none; intros). done. }
    split; [split; [done|discriminate]|done].
  - rewrite update_status_absent by done. done.
Qed.

(** ** Token numbers *)

Lemma new_token_data_number n pid pname appt checkin walk cc :
  new_token_data n pid pname appt checkin walk cc !! "token_number" = Some (VInt n).
Proof.
  unfold new_token_data.
  generalize (VInt n) as v1, (VInt pid) as v2, (VStr pname) as v3,
    (int_or_empty appt) as v4, (VStr (isoformat checkin)) as v6,
    (VStr (str_bool walk)) as v9, (str_or_empty cc) as v10.
  intros. vm_compute. reflexivity.
Qed.

(** The counter of a day moves by one at each check-in for that day and
    at nothing else. *)
Lemma serve_counter now r s d :
  wf s ->
  counter_value d (serve now r s).2 =
    counter_value d s + (if is_check_in_for d r then 1 else 0).
Proof.
  intros Hwf.
  destruct (serve_cases now r s Hwf)
    as [(d0 & pid & pname & appt & walk & cc & -> & Hs)
       |[[Hs Hr]|(d0 & n & st & h & ex & t & _ & _ & _ & Hs & Hr)]];
    cbv zeta in Hs; rewrite Hs; cbn [snd is_check_in_for].
  - case_bool_decide as Hd.
    + subst d0. apply checked_in_counter_value.
    + pose proof (checked_in_counter_key_other now d0 pid pname appt walk cc s d
                    (not_eq_sym Hd)) as Hk.
      unfold counter_value at 1. rewrite Hk. fold (counter_value d s). lia.
  - assert (is_check_in_for d r = false) as ->; [|lia].
    destruct Hr as [(? & ? & ? & -> & _)|[(? & ? & -> & _)|[(? & ? & -> & _)|(? & -> & _)]]]; done.
  - rewrite updated_counter_value.
    assert (is_check_in_for d r = false) as ->; [|lia].
    destruct Hr as [->|[[-> _]|[[-> _]|[-> _]]]]; done.
Qed.

Lemma serve_check_in_number now r s d :
  wf s -> is_check_in_for d r = true ->
  reply_number (serve now r s).1 = Some (counter_value d s + 1).
Proof.
  intros Hwf Hr. destruct r as [d0 pid pname appt walk cc| | | |]; try done.
  simpl in Hr. apply bool_decide_eq_true in Hr. subst d0.
  unfold serve, Redis.bind. rewrite check_in_ok by done. simpl.
  by rewrite new_token_data_number.
Qed.

Lemma fmap_seq_shift {A} (f g : nat -> A) a n :
  (forall i, f i = g (S i)) -> f <$> seq a n = g <$> seq (S a) n.
Proof.
  intros Hfg. revert a. induction n as [|n IH]; intros a; [done|].
  cbn [seq fmap list_fmap]. rewrite Hfg. f_equal. apply IH.
Qed.

Lemma issued_from d trace s :
  wf s ->
  issued d trace s =
    (fun i => Some (counter_value d s + Z.of_nat i)) <$> seq 1 (check_ins_for d trace).
Proof.
  revert s. induction trace as [|[now r] trace IH]; intros s Hwf; [done|].
  pose proof (serve_wf now r s Hwf) as [Hwf' _].
  cbn [issued]. cbv zeta. unfold check_ins_for. cbn [List.filter snd].
  rewrite (IH _ Hwf'), serve_counter by done.
  fold (check_ins_for d trace).
  destruct (is_check_in_for d r) eqn:Er.
  - rewrite (serve_check_in_number now r s d) by done.
    cbn [length seq fmap list_fmap].
    fold (check_ins_for d trace). f_equal.
    apply fmap_seq_shift. intros i. f_equal. lia.
  - apply list_fmap_ext. intros _ i _. simpl. f_equal. lia.
Qed.

Lemma counter_value_empty d : counter_value d ∅ = 0.
Proof. unfold counter_value. by rewrite lookup_empty. Qed.


(** ** The summary *)

Lemma get_current_serving_ok d s :
  wf_date d s -> get_current_serving d s = (Ok (current_number d s), s).
Proof.
  intros Hwf. unfold get_current_serving, Redis.bind, get, current_number,
    current_value.
  destruct (s !! _get_current_key d) as [[v ex]|] eqn:E; [|done].
  destruct (wf_current _ _ Hwf _ E) as (m & Hv). simpl in Hv. subst v.
  by rewrite truthy_str, int_str.
Qed.

Lemma count_status_cons st t l :
  count_status st (t :: l) =
    (if String.eqb (status t) st then 1 else 0) + count_status st l.
Proof.
  unfold count_status. simpl. destruct (String.eqb (status t) st); simpl; lia.
Qed.

Lemma count_loop l sm :
  let sm' := fold_left count_token l sm in
  waiting sm' = waiting sm + count_status "WAITING" l /\
  with_doctor sm' = with_doctor sm + count_status "WITH_DOCTOR" l /\
  completed sm' = completed sm + count_status "COMPLETED" l /\
  skipped sm' = skipped sm + count_status "SKIPPED" l /\
  no_show sm' = no_show sm + count_status "NO_SHOW" l /\
  s_date sm' = s_date sm /\ total_tokens sm' = total_tokens sm /\
  current_token sm' = current_token sm /\ tokens sm' = tokens sm.
Proof.
  revert sm. induction l as [|t l IH]; intros sm; cbn [fold_left].
  - unfold count_status. simpl. repeat split; lia.
  - cbv zeta in IH. destruct (IH (count_token sm t))
      as (H1 & H2 & H3 & H4 & H5 & H6 & H7 & H8 & H9).
    cbv zeta. rewrite H1, H2, H3, H4, H5, H6, H7, H8, H9, !count_status_cons.
    unfold count_token. cbv zeta. generalize (status t) as st. intros st.
    destruct (String.eqb_spec st "WAITING") as [->|_].
    { simpl. repeat split; lia. }
    destruct (String.eqb_spec st "WITH_DOCTOR") as [->|_].
    { simpl. repeat split; lia. }
    destruct (String.eqb_spec st "COMPLETED") as [->|_].
    { simpl. repeat split; lia. }
    destruct (String.eqb_spec st "SKIPPED") as [->|_].
    { simpl. repeat split; lia. }
    destruct (String.eqb_spec st "NO_SHOW") as [->|_].
    { simpl. repeat split; lia. }
    simpl. repeat split; lia.
Qed.

Lemma get_queue_summary_ok d s :
  wf_date d s ->
  exists sm,
    get_queue_summary d s = (Ok sm, s) /\
    tokens sm = listing d s /\
    current_token sm = current_number d s /\
    total_tokens sm = Z.of_nat (length (listing d s)) /\
    waiting sm = count_status "WAITING" (listing d s) /\
    with_doctor sm = count_status "WITH_DOCTOR" (listing d s) /\
    completed sm = count_status "COMPLETED" (listing d s) /\
    skipped sm = count_status "SKIPPED" (listing d s) /\
    no_show sm = count_status "NO_SHOW" (listing d s) /\
    checked_in sm = waiting sm + with_doctor sm.
Proof.
  intros Hwf. unfold get_queue_summary, Redis.bind.
  rewrite get_today_queue_ok, get_current_serving_ok by done.
  eexists. split; [reflexivity|]. cbn [tokens current_token total_tokens
    waiting with_doctor completed skipped no_show checked_in].
  match goal with |- context [fold_left count_token ?l ?sm0] =>
    destruct (count_loop l sm0) as (H1 & H2 & H3 & H4 & H5 & H6 & H7 & H8 & H9)
  end.
  cbv zeta in *. rewrite H1, H2, H3, H4, H5, H7, H8, H9. simpl.
  repeat split; lia.
Qed.

(** C7. In every reachable state the summary of a date lists the tokens
    of [get_today_queue]; its five counters are the numbers of listed
    tokens with each status, "total_tokens" is the length of the list,
    and "checked_in" is waiting plus with_doctor, so that completed,
    skipped and no-show tokens are not in it. *)
Theorem summary_counts trace d :
  let s := run trace ∅ in
  exists sm,
    get_queue_summary d s = (Ok sm, s) /\
    get_today_queue d s = (Ok (tokens sm), s) /\
    total_tokens sm = Z.of_nat (length (tokens sm)) /\
    waiting sm = count_status "WAITING" (tokens sm) /\
    with_doctor sm = count_status "WITH_DOCTOR" (tokens sm) /\
    completed sm = count_status "COMPLETED" (tokens sm) /\
    skipped sm = count_status "SKIPPED" (tokens sm) /\
    no_show sm = count_status "NO_SHOW" (tokens sm) /\
    checked_in sm = waiting sm + with_doctor sm /\
    checked_in sm =
      count_status "WAITING" (tokens sm) + count_status "WITH_DOCTOR" (tokens sm).
Proof.
  intros s. assert (wf_date d s) as Hwf by apply wf_run, wf_empty.
  destruct (get_queue_summary_ok d s Hwf)
    as (sm & Hsm & Ht & _ & H0 & H1 & H2 & H3 & H4 & H5 & H6).
  exists sm. rewrite Ht. rewrite get_today_queue_ok by done.
  repeat split; try done. lia.
Qed.

(** ** Booleans on the wire *)

Lemma listing_intro d s sc n h ex t :
  In (sc, str n) (queue_index d s) ->
  s !! _get_token_key d n = Some (Entry (VHash h) ex) ->
  token_dict h = Ok t ->
  In t (listing d s).
Proof.
  intros Hin Hs Ht. unfold listing.
  apply list_elem_of_In, list_elem_of_omap. exists (str n). split.
  - apply list_elem_of_In, in_map_iff. by exists (sc, str n).
  - unfold token_of_member, token_hash. by rewrite int_str, Hs, Ht.
Qed.

Lemma new_token_data_walk_in n pid pname appt checkin walk cc :
  new_token_data n pid pname appt checkin walk cc !! "is_walk_in" =
    Some (VStr (str_bool walk)).
Proof.
  unfold new_token_data.
  generalize (VInt n) as v1, (VInt pid) as v2, (VStr pname) as v3,
    (int_or_empty appt) as v4, (VStr (isoformat checkin)) as v6,
    (VStr (str_bool walk)) as v9, (str_or_empty cc) as v10.
  intros. vm_compute. reflexivity.
Qed.

Lemma bool_round_trip (h : gmap string string) b :
  get_is_True (<["is_walk_in" := str_bool b]> h) "is_walk_in" = b.
Proof. unfold get_is_True. rewrite lookup_insert_eq. by destruct b. Qed.

(** C8. A check-in with [is_walk_in = b], in any reachable state, writes
    the literal "True" or "False" into the token hash, and the token that
    [get_today_queue] then lists under the new number has
    [is_walk_in = b]: writing with [str] and reading with [== "True"] is
    the identity on booleans. *)
Theorem walk_in_round_trip trace now d pid pname appt b cc :
  let s := run trace ∅ in
  let n := counter_value d s + 1 in
  (forall h, get_is_True (<["is_walk_in" := str_bool b]> h) "is_walk_in" = b) /\
  exists data s' t,
    check_in now d pid pname appt b cc s = (Ok data, s') /\
    data !! "token_number" = Some (VInt n) /\
    data !! "is_walk_in" = Some (VStr (if b then "True" else "False")) /\
    token_field d n "is_walk_in" s' = Some (if b then "True" else "False") /\
    get_today_queue d s' = (Ok (listing d s'), s') /\
    In t (listing d s') /\ token_number t = n /\ is_walk_in t = b.
Proof.
  intros s n. split; [intros h; apply bool_round_trip|].
  assert (wf s) as Hwf by apply wf_run, wf_empty.
  set (data := new_token_data n pid pname appt (utcnow now) b cc).
  set (s' := checked_in_store now d n data s).
  assert (wf_date d s') as Hwf' by (by apply wf_checked_in).
  exists data, s', (new_token n pid pname appt (utcnow now) b cc).
  split; [by apply check_in_ok|].
  split; [apply new_token_data_number|].
  split; [apply new_token_data_walk_in|].
  pose proof (checked_in_token_key_same now d pid pname appt b cc s) as Hk.
  fold n in Hk. fold data in Hk. fold s' in Hk.
  split.
  { unfold token_field, token_hash. rewrite Hk. simpl.
    destruct (new_token_data_fields n pid pname appt (utcnow now) b cc)
      as (_ & _ & _ & _ & _ & _ & _ & _ & Hw & _).
    unfold data. by rewrite Hw. }
  split; [by apply get_today_queue_ok|].
  split; [|done].
  eapply (listing_intro d s' (timestamp (utcnow now)) n); [|exact Hk|apply new_token_dict].
  unfold s', data, n. rewrite checked_in_queue_index. apply zinsert_In. by left.
Qed.

(** ** What a status update leaves alone *)

Lemma omap_fmap_In {A B} (f f' : A -> option B) (g : B -> B) (l : list A) :
  (forall x, In x l -> f' x = g <$> f x) -> omap f' l = g <$> omap f l.
Proof.
  induction l as [|x l IH]; intros H; [done|]. cbn [omap list_omap].
  rewrite (H x) by (by left). fold (omap f' l). fold (omap f l).
  rewrite IH by (intros; apply H; by right).
  by destruct (f x).
Qed.

Lemma updated_hash_other now st (h : gmap string string) f :
  f <> "status" -> f <> "called_time" -> f <> "completed_time" ->
  updated_hash now st h !! f = h !! f.
Proof.
  intros. unfold updated_hash. repeat case_match; by rewrite !lookup_insert_ne.
Qed.

Lemma updated_hash_status now st (h : gmap string string) :
  updated_hash now st h !! "status" = Some st.
Proof.
  unfold updated_hash.
  repeat case_match; rewrite ?lookup_insert_ne by done; by rewrite lookup_insert_eq.
Qed.

Lemma updated_hash_called now st (h : gmap string string) :
  updated_hash now st h !! "called_time" =
    if String.eqb st "WITH_DOCTOR" then Some (isoformat (utcnow now))
    else h !! "called_time".
Proof.
  unfold updated_hash. destruct (String.eqb st "WITH_DOCTOR").
  - by rewrite lookup_insert_eq.
  - case_match; by rewrite !lookup_insert_ne.
Qed.

Lemma updated_hash_completed now st (h : gmap string string) :
  updated_hash now st h !! "completed_time" =
    if String.eqb st "WITH_DOCTOR" then h !! "completed_time"
    else if String.eqb st "COMPLETED" || String.eqb st "NO_SHOW"
         then Some (isoformat (utcnow now))
         else h !! "completed_time".
Proof.
  unfold updated_hash. destruct (String.eqb st "WITH_DOCTOR").
  - by rewrite !lookup_insert_ne.
  - case_match; [by rewrite lookup_insert_eq|by rewrite lookup_insert_ne].
Qed.

Lemma updated_token_fixed now st t :
  fixed_part (updated_token now st t) = fixed_part t.
Proof. done. Qed.

Lemma update_listed_fixed now d n st d' t :
  fixed_part (update_listed now d n st d' t) = fixed_part t.
Proof. unfold update_listed. by case_bool_decide. Qed.

Lemma updated_listing now d n st h ex s t d' :
  wf_date d' s ->
  s !! _get_token_key d n = Some (Entry (VHash h) ex) ->
  token_dict h = Ok t ->
  listing d' (updated_store now d n st h ex s) =
    update_listed now d n st d' <$> listing d' s.
Proof.
  intros Hwf Hs Ht. unfold listing. rewrite updated_queue_index.
  apply omap_fmap_In. intros m Hm.
  apply in_map_iff in Hm as ([sc m'] & Em & Hidx). simpl in Em. subst m'.
  destruct (wf_members _ _ Hwf _ _ Hidx) as (k & -> & [e He]).
  destruct (token_of_member_wf _ _ _ _ Hwf He) as (hk & tk & Ee & Htk & Hk & ->).
  simpl. unfold update_listed, token_of_member, token_hash. rewrite int_str.
  destruct (decide ((d', k) = (d, n))) as [[= -> ->]|Hne].
  - rewrite updated_token_key_same.
    rewrite He in Hs. rewrite Ee in Hs. injection Hs as -> _.
    rewrite Ht in Htk. injection Htk as ->.
    rewrite (updated_hash_token now st _ _ Ht).
    by rewrite bool_decide_eq_true_2.
  - rewrite updated_token_key_other by done. rewrite He, Ee, Htk.
    rewrite bool_decide_eq_false_2; [done|]. intros [-> E]. congruence.
Qed.

Lemma updated_token_field_other now d n st h ex s d' m f :
  s !! _get_token_key d n = Some (Entry (VHash h) ex) ->
  f <> "status" -> f <> "called_time" -> f <> "completed_time" ->
  token_field d' m f (updated_store now d n st h ex s) = token_field d' m f s.
Proof.
  intros Hs ? ? ?. unfold token_field, token_hash.
  destruct (decide ((d', m) = (d, n))) as [[= -> ->]|Hne].
  - rewrite updated_token_key_same, Hs. simpl. by apply updated_hash_other.
  - by rewrite updated_token_key_other.
Qed.

(** One status mutation, on a well-formed store. *)
Lemma mutation_frame now m s d :
  wf s ->
  let s' := (serve now (mutation_request m) s).2 in
  s' !! _get_queue_key d = s !! _get_queue_key d /\
  fixed_part <$> listing d s' = fixed_part <$> listing d s /\
  Forall (fun f => forall n, token_field d n f s' = token_field d n f s)
    fixed_fields.
Proof.
  intros Hwf.
  destruct (serve_cases now (mutation_request m) s Hwf)
    as [(d0 & pid & pname & appt & walk & cc & Hr & _)
       |[[Hs _]|(d0 & n & st & h & ex & t & Hk & Ht & _ & Hs & _)]].
  - by destruct m.
  - rewrite Hs. simpl. split; [done|]. split; [done|].
    by repeat constructor.
  - rewrite Hs. cbn [snd]. split; [apply updated_queue_key|]. split.
    + rewrite (updated_listing _ _ _ _ _ _ _ t) by done.
      rewrite <- list_fmap_compose. apply list_fmap_ext.
      intros _ x _. apply update_listed_fixed.
    + repeat constructor; intros k; by apply updated_token_field_other.
Qed.

(** C5. Status mutations ([update_status], [skip_patient],
    [recall_patient]), in any number and on any tokens, leave the sorted
    set of every date as it is (members, scores, expiry: the position of
    a token in the queue is fixed) and leave "token_number",
    "patient_id", "patient_name", "appointment_id", "checkin_time",
    "is_walk_in" and "chief_complaint" of every token as they are, in
    the stored hash and in the listed dict; only "status", "called_time"
    and "completed_time" can differ. *)
Theorem status_mutations_frame trace muts d :
  let s := run trace ∅ in
  let s' := run (mutations muts) s in
  s' !! _get_queue_key d = s !! _get_queue_key d /\
  queue_index d s' = queue_index d s /\
  fixed_part <$> listing d s' = fixed_part <$> listing d s /\
  Forall (fun f => forall n, token_field d n f s' = token_field d n f s)
    fixed_fields.
Proof.
  intros s. assert (wf s) as Hwf by apply wf_run, wf_empty.
  clearbody s. revert s Hwf.
  induction muts as [|[now m] muts IH]; intros s Hwf; cbn zeta.
  - repeat split; try done. by repeat constructor.
  - unfold mutations. cbn [fmap list_fmap fst snd]. rewrite run_cons.
    fold (mutations muts).
    pose proof (serve_wf now (mutation_request m) s Hwf) as [Hwf' _].
    destruct (mutation_frame now m s d Hwf) as (H1 & H2 & H3).
    destruct (IH _ Hwf') as (G1 & G2 & G3 & G4). cbv zeta in *.
    split; [congruence|]. split.
    { rewrite G2. unfold queue_index. by rewrite H1. }
    split; [congruence|].
    rewrite List.Forall_forall in *. intros f Hf n.
    rewrite (G4 f Hf n). by apply H3.
Qed.

(** ** Timestamps of a token *)

Lemma update_status_times now d n st s d' m :
  wf s ->
  let s' := (update_status now d n st s).2 in
  let hit := bool_decide ((d', m) = (d, n) /\ is_Some (s !! _get_token_key d n)) in
  token_field d' m "called_time" s' =
    (if hit && String.eqb st "WITH_DOCTOR"
     then Some (isoformat (utcnow now))
     else token_field d' m "called_time" s) /\
  token_field d' m "completed_time" s' =
    (if hit && (String.eqb st "COMPLETED" || String.eqb st "NO_SHOW")
     then Some (isoformat (utcnow now))
     else token_field d' m "completed_time" s).
Proof.
  intros Hwf.
  destruct (update_status_cases now d n st s (Hwf d))
    as [[Hs ->]|(h & ex & t & Hs & Ht & _ & ->)]; cbn zeta; cbn [snd].
  - rewrite bool_decide_eq_false_2; [done|]. rewrite Hs. by intros [_ [? ?]].
  - unfold token_field, token_hash.
    destruct (decide ((d', m) = (d, n))) as [[= -> ->]|Hne].
    + rewrite bool_decide_eq_true_2 by eauto. rewrite updated_token_key_same, Hs.
      cbn [mbind option_bind andb]. rewrite updated_hash_called, updated_hash_completed.
      split; [done|].
      destruct (String.eqb_spec st "WITH_DOCTOR") as [->|]; done.
    + rewrite bool_decide_eq_false_2 by (by intros [? _]).
      by rewrite updated_token_key_other.
Qed.

Lemma update_status_status now d n st s :
  wf s -> is_Some (s !! _get_token_key d n) ->
  token_field d n "status" (update_status now d n st s).2 = Some st.
Proof.
  intros Hwf [e He].
  destruct (update_status_cases now d n st s (Hwf d))
    as [[Hs _]|(h & ex & t & Hs & Ht & _ & ->)]; [congruence|].
  unfold token_field, token_hash. cbn [snd]. rewrite updated_token_key_same.
  apply updated_hash_status.
Qed.

Lemma update_status_keeps_token now d n st s d' m :
  wf s ->
  is_Some ((update_status now d n st s).2 !! _get_token_key d' m) <->
  is_Some (s !! _get_token_key d' m).
Proof.
  intros Hwf.
  destruct (update_status_cases now d n st s (Hwf d))
    as [[Hs ->]|(h & ex & t & Hs & Ht & _ & ->)]; [done|].
  cbn [snd]. apply updated_token_is_Some. eauto.
Qed.

(** C10. [update_status] never empties a timestamp. After a status
    update at [now], in any reachable state, "called_time" of a token is
    the time of [now] if the update found this token and made it
    WITH_DOCTOR, and is what it was otherwise; "completed_time" is the
    time of [now] if the update found this token and made it COMPLETED or
    NO_SHOW, and is what it was otherwise. So skipping and recalling
    change neither, and a token that is completed and then recalled is
    WAITING with the "completed_time" of its completion. *)
Theorem timestamps_never_cleared trace now now' d n st d' m :
  let s := run trace ∅ in
  let s' := (update_status now d n st s).2 in
  let hit := bool_decide ((d', m) = (d, n) /\ is_Some (s !! _get_token_key d n)) in
  (token_field d' m "called_time" s' =
     (if hit && String.eqb st "WITH_DOCTOR"
      then Some (isoformat (utcnow now))
      else token_field d' m "called_time" s) /\
   token_field d' m "completed_time" s' =
     (if hit && (String.eqb st "COMPLETED" || String.eqb st "NO_SHOW")
      then Some (isoformat (utcnow now))
      else token_field d' m "completed_time" s)) /\
  (token_field d' m "called_time" (skip_patient now d n s).2 =
     token_field d' m "called_time" s /\
   token_field d' m "completed_time" (skip_patient now d n s).2 =
     token_field d' m "completed_time" s /\
   token_field d' m "called_time" (recall_patient now d n s).2 =
     token_field d' m "called_time" s /\
   token_field d' m "completed_time" (recall_patient now d n s).2 =
     token_field d' m "completed_time" s) /\
  match s !! _get_token_key d n with
  | Some _ =>
      let s2 := (recall_patient now' d n (update_status now d n "COMPLETED" s).2).2 in
      token_field d n "status" s2 = Some "WAITING" /\
      token_field d n "completed_time" s2 = Some (isoformat (utcnow now))
  | None => True
  end.
Proof.
  intros s s' hit. assert (wf s) as Hwf by apply wf_run, wf_empty.
  split; [by apply update_status_times|]. split.
  - unfold skip_patient, recall_patient.
    destruct (update_status_times now d n "SKIPPED" s d' m Hwf) as [H1 H2].
    destruct (update_status_times now d n "WAITING" s d' m Hwf) as [H3 H4].
    cbv zeta in *. rewrite andb_false_r in *. done.
  - destruct (s !! _get_token_key d n) as [e|] eqn:E; [|done].
    cbv zeta. unfold recall_patient.
    pose proof (update_status_wf now d n "COMPLETED" s Hwf) as [Hwf1 _].
    assert (is_Some ((update_status now d n "COMPLETED" s).2 !! _get_token_key d n))
      as Hk by (apply update_status_keeps_token; eauto).
    split; [by apply update_status_status|].
    destruct (update_status_times now' d n "WAITING" _ d n Hwf1) as [_ ->].
    rewrite andb_false_r.
    destruct (update_status_times now d n "COMPLETED" s d n Hwf) as [_ ->].
    rewrite bool_decide_eq_true_2; [done|]. split; [done|]. rewrite E. eauto.
Qed.

(** ** Lifetime of the counter *)

Lemma at_time_lookup t (s : db) k :
  at_time t s !! k =
    match s !! k with
    | Some e => if alive t e then Some e else None
    | None => None
    end.
Proof.
  unfold at_time. rewrite map_lookup_filter.
  destruct (s !! k) as [e|]; simpl; [|done].
  destruct (alive t e) eqn:E; case_guard; simpl in *; congruence.
Qed.

(** Two calls, at 09:00 and at 10:00: on the next day at 09:00, 24 hours
    after the first call, the counter is still there and the next number
    is 3, not 1. *)
Lemma counter_lifetime_counterexample :
  let s1 := (_get_next_token_number at_0900 day1 ∅).2 in
  let s2 := (_get_next_token_number at_1000 day1 s1).2 in
  ~ expires_after_first at_0900 day1 s2 /\
  (_get_next_token_number next_day_0900 day1
     (at_time (server_time next_day_0900) s2)).1 = Ok 3.
Proof.
  split.
  - unfold expires_after_first. vm_compute. intros [=].
  - vm_compute. reflexivity.
Qed.

(** C9, as the code has it. Every call of [_get_next_token_number], in
    any reachable state, sets the expiry of the counter anew, to 24 hours
    after that call: the counter is there at server time [t] exactly when
    [t] is less than 24 hours after the latest call, and the call after
    that continues the numbering while the counter is there and starts
    again at 1 once it is gone. *)
Theorem counter_lifetime trace now now' d t :
  let s := run trace ∅ in
  let s' := (_get_next_token_number now d s).2 in
  expires_at <$> s' !! _get_counter_key d = Some (Some (server_time now + 86400)) /\
  (is_Some (at_time t s' !! _get_counter_key d) <-> t < server_time now + 86400) /\
  (_get_next_token_number now' d (at_time t s')).1 =
    Ok (if t <? server_time now + 86400 then counter_value d s + 2 else 1).
Proof.
  intros s s'. assert (wf_date d s) as Hwf by apply wf_run, wf_empty.
  unfold s'. rewrite next_token_number_ok by done. cbn [snd].
  split; [by rewrite lookup_insert_eq|].
  assert (at_time t
      (<[_get_counter_key d :=
           Entry (VString (str (counter_value d s + 1)))
             (Some (server_time now + 86400))]> s) !! _get_counter_key d =
      if t <? server_time now + 86400
      then Some (Entry (VString (str (counter_value d s + 1)))
                   (Some (server_time now + 86400)))
      else None) as Hk.
  { by rewrite at_time_lookup, lookup_insert_eq. }
  split.
  - rewrite Hk. destruct (Z.ltb_spec t (server_time now + 86400)).
    + split; [done|eauto].
    + split; [by intros [? ?]|lia].
  - unfold _get_next_token_number, Redis.bind, incr. rewrite Hk.
    destruct (t <? server_time now + 86400).
    + rewrite int_str. unfold expire, ret. rewrite lookup_insert_eq. simpl.
      f_equal. lia.
    + unfold expire, ret. by rewrite lookup_insert_eq.
Qed.

(** ** The order of [get_today_queue] *)

(** Tokens 2 and 10 checked in at the same instant: 10 is listed before
    2, because the members of the sorted set are compared as text. *)
Lemma tie_order_counterexample :
  let s := run ten_at_once ∅ in
  listed_numbers day1 s = [1; 10; 2; 3; 4; 5; 6; 7; 8; 9] /\
  fst <$> index_entries day1 s = List.repeat 1705309200000000 10 /\
  ~ StronglySorted by_instant_then_number (index_entries day1 s).
Proof.
  assert (index_entries day1 (run ten_at_once ∅) =
          (fun n => (1705309200000000, n)) <$> [1; 10; 2; 3; 4; 5; 6; 7; 8; 9]) as E
    by (vm_compute; reflexivity).
  split; [vm_compute; reflexivity|]. split; [by rewrite E|].
  rewrite E. intros H.
  apply StronglySorted_inv in H as [H _].
  apply StronglySorted_inv in H as [_ H].
  apply Forall_inv in H. unfold by_instant_then_number in H. simpl in H. lia.
Qed.

Lemma serve_index now r s d :
  wf s ->
  queue_index d (serve now r s).2 =
    if is_check_in_for d r
    then zinsert (timestamp (utcnow now), str (counter_value d s + 1)) (queue_index d s)
    else queue_index d s.
Proof.
  intros Hwf.
  destruct (serve_cases now r s Hwf)
    as [(d0 & pid & pname & appt & walk & cc & -> & Hs)
       |[[Hs Hr]|(d0 & n & st & h & ex & t & _ & _ & _ & Hs & Hr)]];
    cbv zeta in Hs; rewrite Hs; cbn [snd is_check_in_for].
  - case_bool_decide as Hd.
    + subst d0. apply checked_in_queue_index.
    + pose proof (checked_in_queue_key_other now d0 pid pname appt walk cc s d
                    (not_eq_sym Hd)) as Hk.
      unfold queue_index at 1. rewrite Hk. done.
  - assert (is_check_in_for d r = false) as ->; [|done].
    destruct Hr as [(? & ? & ? & -> & _)|[(? & ? & -> & _)|[(? & ? & -> & _)|(? & -> & _)]]]; done.
  - rewrite updated_queue_index.
    assert (is_check_in_for d r = false) as ->; [|done].
    destruct Hr as [->|[[-> _]|[[-> _]|[-> _]]]]; done.
Qed.

Lemma index_from d trace s :
  wf s ->
  queue_index d (run trace s) =
    insert_checkins (counter_value d s + 1) (checkin_times d trace) (queue_index d s).
Proof.
  revert s. induction trace as [|[now r] trace IH]; intros s Hwf; [done|].
  pose proof (serve_wf now r s Hwf) as [Hwf' _].
  rewrite run_cons, (IH _ Hwf'), serve_counter, serve_index by done.
  unfold checkin_times. cbn [omap list_omap fst snd].
  destruct (is_check_in_for d r); [done|].
  by rewrite Z.add_0_r.
Qed.

Lemma listing_members d s :
  wf_date d s ->
  (fun t => str (token_number t)) <$> listing d s = snd <$> queue_index d s.
Proof.
  intros Hwf. unfold listing. pose proof (wf_members _ _ Hwf) as Hm.
  induction (queue_index d s) as [|[sc m] z IH]; [done|].
  destruct (Hm sc m) as (k & -> & [e He]); [by left|].
  destruct (token_of_member_wf _ _ _ _ Hwf He) as (h & t & _ & _ & Hk & Hmem).
  cbn [fmap list_fmap omap list_omap snd]. rewrite Hmem.
  cbn [fmap list_fmap]. rewrite Hk. f_equal.
  apply IH. intros sc' m' Hin. apply (Hm sc'). by right.
Qed.

(** C6, as the code has it. In every reachable state [get_today_queue]
    returns the tokens of the date in the order of its sorted set; that
    set holds, for each check-in, the timestamp of the check-in with the
    decimal text of the token number, and is ordered by timestamp and,
    for equal timestamps, by the byte-wise order of that text (so "10"
    comes before "2"). *)
Theorem list_today_order trace d :
  let s := run trace ∅ in
  get_today_queue d s = (Ok (listing d s), s) /\
  (fun t => str (token_number t)) <$> listing d s = snd <$> queue_index d s /\
  queue_index d s = insert_checkins 1 (checkin_times d trace) [] /\
  StronglySorted zlt (queue_index d s).
Proof.
  intros s. assert (wf_date d s) as Hwf by apply wf_run, wf_empty.
  split; [by apply get_today_queue_ok|].
  split; [by apply listing_members|].
  split; [|by apply wf_sorted].
  unfold s. rewrite index_from by apply wf_empty.
  rewrite counter_value_empty. unfold queue_index at 1. by rewrite lookup_empty.
Qed.

(** ** [call_next_patient] *)

(** After ten walk-ins at the same instant and one call (token 1), the
    next call returns token 10 although tokens 2 to 9 wait. *)
Lemma call_next_counterexample :
  let s := run (ten_at_once ++ [(at_0905, CallNext day1)])%list ∅ in
  (exists r, (call_next_patient at_0910 day1 s).1 = Ok (Some r) /\
             token_number r = 10) /\
  waiting_numbers day1 s = [10; 2; 3; 4; 5; 6; 7; 8; 9] /\
  ~ returns_lowest_waiting at_0910 day1 s.
Proof.
  set (s := run (ten_at_once ++ [(at_0905, CallNext day1)])%list ∅).
  assert (exists r, (call_next_patient at_0910 day1 s).1 = Ok (Some r) /\
                    token_number r = 10) as Hr.
  { eexists. split; [vm_compute; reflexivity|reflexivity]. }
  assert (waiting_numbers day1 s = [10; 2; 3; 4; 5; 6; 7; 8; 9]) as E
    by (vm_compute; reflexivity).
  cbv zeta. split; [exact Hr|]. split; [exact E|].
  intros H. destruct Hr as (r & Er & Hr).
  specialize (H r Er). rewrite E, Hr in H.
  apply Forall_inv_tail, Forall_inv in H. lia.
Qed.

Lemma first_waiting_split l t :
  first_waiting l = Some t ->
  exists l1 l2, l = (l1 ++ t :: l2)%list /\
    Forall (fun x => status x <> "WAITING") l1 /\ status t = "WAITING".
Proof.
  unfold first_waiting. induction l as [|x l IH]; simpl; [done|].
  destruct (String.eqb_spec (status x) "WAITING") as [E|E].
  - intros [= ->]. exists [], l. by repeat split.
  - intros Hf. destruct (IH Hf) as (l1 & l2 & -> & Hl1 & Ht).
    exists (x :: l1), l2. repeat split; [|done]. by constructor.
Qed.

Lemma first_waiting_none l :
  first_waiting l = None -> Forall (fun x => status x <> "WAITING") l.
Proof.
  unfold first_waiting. induction l as [|x l IH]; simpl; [by constructor|].
  destruct (String.eqb_spec (status x) "WAITING") as [E|E]; [done|].
  intros Hf. constructor; auto.
Qed.

(** In a sorted list of numbers the first waiting token is the lowest. *)
Lemma first_waiting_lowest l t :
  StronglySorted Z.lt (token_number <$> l) ->
  first_waiting l = Some t ->
  forall t', In t' l -> status t' = "WAITING" -> token_number t <= token_number t'.
Proof.
  intros Hs Hf t' Hin Hw.
  destruct (first_waiting_split _ _ Hf) as (l1 & l2 & -> & Hl1 & _).
  apply in_app_or in Hin as [Hin|[->|Hin]].
  - rewrite List.Forall_forall in Hl1. by apply Hl1 in Hin.
  - lia.
  - rewrite fmap_app in Hs. apply StronglySorted_app_1_r in Hs.
    cbn [fmap list_fmap] in Hs. apply StronglySorted_inv in Hs as [_ Hs].
    rewrite List.Forall_forall in Hs.
    assert (token_number t < token_number t'); [|lia].
    apply Hs. apply in_map_iff. eauto.
Qed.

Lemma token_status_listed d s n :
  wf_date d s -> token_field d n "status" s = Some "WAITING" ->
  exists t, In t (listing d s) /\ token_number t = n /\ status t = "WAITING".
Proof.
  intros Hwf Hst. unfold token_field, token_hash in Hst.
  destruct (s !! _get_token_key d n) as [e|] eqn:E; [|done].
  destruct (token_of_member_wf _ _ _ _ Hwf E) as (h & t & Ee & Ht & Hn & _).
  rewrite Ee in Hst, E. simpl in Hst.
  destruct (wf_listed _ _ Hwf n) as [sc Hsc]; [eauto|].
  exists t. split; [by eapply listing_intro|]. split; [done|].
  apply token_dict_fields in Ht as (_ & _ & _ & _ & Hs & _). congruence.
Qed.

(** *** When the clock moves on between check-ins *)

Lemma zinsert_last x z :
  (forall y, In y z -> y.1 < x.1) -> zinsert x z = (z ++ [x])%list.
Proof.
  induction z as [|y z IH]; intros H; simpl; [done|].
  assert (zle x y = false) as ->.
  { unfold zle. specialize (H y (or_introl eq_refl)).
    apply orb_false_iff. split; [apply Z.ltb_ge; lia|].
    apply andb_false_iff. left. apply Z.eqb_neq. lia. }
  f_equal. apply IH. intros. apply H. by right.
Qed.

Lemma insert_checkins_increasing n times z :
  StronglySorted Z.lt times ->
  (forall y ts, In y z -> In ts times -> y.1 < ts) ->
  insert_checkins n times z = (z ++ numbered n times)%list.
Proof.
  revert n z. induction times as [|ts rest IH]; intros n z Hs Hz; simpl.
  - by rewrite app_nil_r.
  - apply StronglySorted_inv in Hs as [Hs Hts].
    rewrite zinsert_last by (intros y Hy; apply Hz; [done|by left]).
    rewrite IH; [by rewrite <- app_assoc|done|].
    intros y ts' [Hy|[<-|[]]]%in_app_or Hts'.
    + apply Hz; [done|by right].
    + rewrite List.Forall_forall in Hts. by apply Hts.
Qed.

Lemma numbered_members n times :
  snd <$> numbered n times = str <$> seqZ n (Z.of_nat (length times)).
Proof.
  revert n. induction times as [|ts rest IH]; intros n; [done|].
  cbn [numbered length]. rewrite seqZ_cons by lia.
  cbn [fmap list_fmap snd]. rewrite IH. do 3 f_equal. lia.
Qed.

Lemma seqZ_sorted m k : StronglySorted Z.lt (seqZ m (Z.of_nat k)).
Proof.
  revert m. induction k as [|k IH]; intros m; [constructor|].
  rewrite seqZ_cons by lia. constructor.
  - replace (Z.pred (Z.of_nat (S k))) with (Z.of_nat k) by lia. apply IH.
  - apply List.Forall_forall. intros x Hx%list_elem_of_In%elem_of_seqZ. lia.
Qed.

#[local] Instance str_inj_instance : Inj (=) (=) str.
Proof. intros n m. apply str_inj. Qed.

(** With strictly increasing check-in timestamps the tokens are listed
    in the order of their numbers. *)
Lemma listing_numbers_increasing trace d :
  StronglySorted Z.lt (checkin_times d trace) ->
  token_number <$> listing d (run trace ∅) =
    seqZ 1 (Z.of_nat (length (checkin_times d trace))).
Proof.
  intros Hs. assert (wf_date d (run trace ∅)) as Hwf by apply wf_run, wf_empty.
  apply (inj (fmap str)). rewrite <- list_fmap_compose.
  change (str ∘ token_number) with (fun t => str (token_number t)).
  rewrite listing_members by done.
  rewrite index_from by apply wf_empty.
  rewrite counter_value_empty. unfold queue_index. rewrite lookup_empty.
  rewrite insert_checkins_increasing; [|done|by intros ? ? []].
  apply numbered_members.
Qed.

(** *** The postcondition *)

Lemma truthy_nonempty v : v <> "" -> truthy v = true.
Proof. intros. unfold truthy. by apply negb_true_iff, String.eqb_neq. Qed.

Lemma waiting_numbers_lowest d s t :
  StronglySorted Z.lt (token_number <$> listing d s) ->
  first_waiting (listing d s) = Some t ->
  Forall (fun n => token_number t <= n) (waiting_numbers d s).
Proof.
  intros Hs Hf. unfold waiting_numbers. apply List.Forall_forall.
  intros n (t' & <- & [Hin Hw]%filter_In)%in_map_iff.
  apply String.eqb_eq in Hw. by eapply first_waiting_lowest.
Qed.

(** C2, as the code has it. In every reachable state [call_next_patient]
    takes the first token of [get_today_queue] whose status is WAITING
    (the lowest-numbered waiting token when the check-ins of the date
    have strictly increasing timestamps), and returns [None], changing
    nothing, when no token of the date waits. When it returns a token,
    that token is WITH_DOCTOR afterwards, its "called_time" is the time
    of the call, and the current serving pointer of the date is its
    number. *)
Theorem call_next_first_waiting trace now d :
  isoformat (utcnow now) <> "" ->
  let s := run trace ∅ in
  get_today_queue d s = (Ok (listing d s), s) /\
  match first_waiting (listing d s) with
  | None =>
      call_next_patient now d s = (Ok None, s) /\
      (forall n, token_field d n "status" s <> Some "WAITING")
  | Some t =>
      (exists l1 l2, listing d s = (l1 ++ t :: l2)%list /\
         Forall (fun x => status x <> "WAITING") l1) /\
      status t = "WAITING" /\
      (StronglySorted Z.lt (checkin_times d trace) ->
       Forall (fun n => token_number t <= n) (waiting_numbers d s)) /\
      exists r s',
        call_next_patient now d s = (Ok (Some r), s') /\
        token_number r = token_number t /\
        status r = "WITH_DOCTOR" /\
        called_time r = Some (isoformat (utcnow now)) /\
        token_field d (token_number t) "status" s' = Some "WITH_DOCTOR" /\
        token_field d (token_number t) "called_time" s' =
          Some (isoformat (utcnow now)) /\
        get_current_serving d s' = (Ok (Some (token_number t)), s')
  end.
Proof.
  intros Hiso s. assert (wf s) as Hwf by apply wf_run, wf_empty.
  split; [by apply get_today_queue_ok|].
  destruct (first_waiting (listing d s)) as [t|] eqn:Ef.
  - destruct (first_waiting_split _ _ Ef) as (l1 & l2 & El & Hl1 & Hw).
    split; [eauto|]. split; [done|]. split.
    { intros Hs. apply waiting_numbers_lowest; [|done].
      unfold s. rewrite listing_numbers_increasing by done. apply seqZ_sorted. }
    assert (In t (listing d s)) as Hin.
    { rewrite El. apply in_or_app. right. by left. }
    destruct (listing_In _ _ _ (Hwf d) Hin) as (sc & h & ex & _ & Hk & Ht).
    set (n := token_number t) in *.
    exists (without_complaint (updated_token now "WITH_DOCTOR" t)),
      (updated_store now d n "WITH_DOCTOR" h ex s).
    split.
    { rewrite call_next_patient_spec, Ef by done.
      apply update_status_present; try done. by apply wf_current. }
    split; [done|]. split; [done|].
    split. { simpl. by rewrite truthy_nonempty. }
    unfold token_field, token_hash. rewrite updated_token_key_same.
    cbn [mbind option_bind].
    split; [apply updated_hash_status|]. split; [apply updated_hash_called|].
    rewrite get_current_serving_ok by (by eapply wf_updated_store).
    unfold current_number. rewrite updated_current_value. simpl.
    by rewrite int_str.
  - split; [by rewrite call_next_patient_spec, Ef|].
    intros n Hn.
    destruct (token_status_listed d s n (Hwf d) Hn) as (t & Hin & _ & Hw).
    apply first_waiting_none in Ef. rewrite List.Forall_forall in Ef.
    by apply Ef in Hin.
Qed.


(** Scenario A: after the two walk-ins, the call returns token 1. *)
Lemma call_next_first_waiting_witness :
  isoformat (utcnow at_0910) <> "" /\
  exists r s',
    call_next_patient at_0910 day1 (run scenario_a ∅) = (Ok (Some r), s') /\
    token_number r = 1 /\ status r = "WITH_DOCTOR" /\
    called_time r = Some "2024-01-15T09:10:00" /\
    get_current_serving day1 s' = (Ok (Some 1), s').
Proof.
  assert (isoformat (utcnow at_0910) <> "") as H by (vm_compute; discriminate).
  split; [exact H|].
  destruct (call_next_first_waiting scenario_a at_0910 day1 H) as [_ Hc].
  destruct (first_waiting (listing day1 (run scenario_a ∅))) as [t|] eqn:E;
    [|vm_compute in E; discriminate].
  assert (token_number t = 1) as Ht by (vm_compute in E; by injection E as <-).
  destruct Hc as (_ & _ & _ & r & s' & Hr & Hn & Hst & Hct & _ & _ & Hp).
  rewrite Ht in Hn, Hp. exists r, s'. repeat split; done.
Defined.

(** ** The current serving pointer *)

Lemma current_number_str d s n :
  wf_date d s -> current_number d s = Some n <-> current_value d s = Some (str n).
Proof.
  intros Hwf. unfold current_number, current_value.
  destruct (s !! _get_current_key d) as [[v ex]|] eqn:E; [|done].
  destruct (wf_current _ _ Hwf _ E) as (m & Hv). simpl in Hv. subst v.
  rewrite int_str. split; [by intros [= ->]|]. intros [= H%str_inj]. by subst.
Qed.

Lemma current_number_of_value d s v :
  current_value d s = Some (str v) -> current_number d s = Some v.
Proof. intros H. unfold current_number. by rewrite H, int_str. Qed.

Lemma current_value_wf d s :
  wf_date d s ->
  current_value d s = str <$> current_number d s.
Proof.
  intros Hwf. unfold current_number, current_value.
  destruct (s !! _get_current_key d) as [[v ex]|] eqn:E; [|done].
  destruct (wf_current _ _ Hwf _ E) as (m & Hv). simpl in Hv. subst v.
  by rewrite int_str.
Qed.

(** The pointer after a status update that found its token. *)
Lemma updated_current_number now d n st h ex s d' :
  wf_date d s ->
  current_number d' (updated_store now d n st h ex s) =
    if bool_decide (d' = d) then updated_pointer n st (current_number d s)
    else current_number d' s.
Proof.
  intros Hwf. case_bool_decide as Hd.
  - subst d'. unfold current_number at 1. rewrite updated_current_value.
    unfold updated_pointer.
    destruct (String.eqb st "WITH_DOCTOR"); [by rewrite int_str|].
    destruct (String.eqb st "COMPLETED" || String.eqb st "NO_SHOW"); [|done].
    rewrite (current_value_wf d s Hwf).
    destruct (current_number d s) as [m|] eqn:E; simpl.
    + destruct (decide (m = n)) as [->|Hne].
      * by rewrite !bool_decide_eq_true_2.
      * rewrite !bool_decide_eq_false_2; [by rewrite int_str|congruence|].
        intros [= H%str_inj]. done.
    + done.
  - unfold current_number. by rewrite updated_current_value_other.
Qed.

Lemma updated_status_field now d n st h ex s d' m :
  s !! _get_token_key d n = Some (Entry (VHash h) ex) ->
  token_field d' m "status" (updated_store now d n st h ex s) =
    if bool_decide ((d', m) = (d, n)) then Some st
    else token_field d' m "status" s.
Proof.
  intros Hs. unfold token_field, token_hash. case_bool_decide as Hd.
  - injection Hd as -> ->. rewrite updated_token_key_same. simpl.
    apply updated_hash_status.
  - by rewrite updated_token_key_other.
Qed.

Lemma checked_in_status_field now d pid pname appt walk cc s d' m :
  wf_date d s ->
  let n := counter_value d s + 1 in
  token_field d' m "status"
    (checked_in_store now d n (new_token_data n pid pname appt (utcnow now) walk cc) s) =
    if bool_decide ((d', m) = (d, n)) then Some "WAITING"
    else token_field d' m "status" s.
Proof.
  intros Hwf n. unfold token_field, token_hash. case_bool_decide as Hd.
  - injection Hd as -> ->. unfold n. rewrite checked_in_token_key_same. simpl.
    by destruct (new_token_data_fields (counter_value d s + 1) pid pname appt
                   (utcnow now) walk cc) as (_ & _ & _ & _ & -> & _).
  - unfold n. by rewrite checked_in_token_key_other.
Qed.

Lemma checked_in_current_number now d pid pname appt walk cc s d' :
  let n := counter_value d s + 1 in
  current_number d'
    (checked_in_store now d n (new_token_data n pid pname appt (utcnow now) walk cc) s) =
    current_number d' s.
Proof. intros n. unfold current_number, n. by rewrite checked_in_current_value. Qed.

Lemma token_field_absent d n f s :
  s !! _get_token_key d n = None -> token_field d n f s = None.
Proof. intros H. unfold token_field, token_hash. by rewrite H. Qed.

(** What one request does to the statuses and to the pointer of a date:
    nothing, a new waiting token, or one status update. *)
Lemma serve_effect now r s d :
  wf s ->
  let s' := (serve now r s).2 in
  ((forall m, token_field d m "status" s' = token_field d m "status" s) /\
   current_number d s' = current_number d s) \/
  (exists n,
     token_field d n "status" s = None /\
     (forall m, token_field d m "status" s' =
                if bool_decide (m = n) then Some "WAITING"
                else token_field d m "status" s) /\
     current_number d s' = current_number d s) \/
  (exists n st,
     (forall m, token_field d m "status" s' =
                if bool_decide (m = n) then Some st
                else token_field d m "status" s) /\
     current_number d s' = updated_pointer n st (current_number d s) /\
     (request_in_order d s r = true -> transition_in_order d s n st = true)).
Proof.
  intros Hwf.
  destruct (serve_cases now r s Hwf)
    as [(d0 & pid & pname & appt & walk & cc & -> & Hs)
       |[[Hs Hr]|(d0 & n & st & h & ex & t & Hk & _ & _ & Hs & Hr)]];
    cbv zeta in *; rewrite Hs; cbn [snd].
  - destruct (decide (d0 = d)) as [->|Hne].
    + right; left. exists (counter_value d s + 1). split.
      { apply token_field_absent, fresh_token; [done|lia]. }
      split; [|apply checked_in_current_number].
      intros m. rewrite checked_in_status_field by done.
      destruct (decide (m = counter_value d s + 1)) as [->|Hm].
      * by rewrite !bool_decide_eq_true_2.
      * rewrite !bool_decide_eq_false_2; [done..|]. congruence.
    + left. split; [|apply checked_in_current_number].
      intros m. rewrite checked_in_status_field by done.
      rewrite bool_decide_eq_false_2; [done|]. congruence.
  - by left.
  - destruct (decide (d0 = d)) as [->|Hne].
    + right; right. exists n, st. split; [|split].
      * intros m. rewrite updated_status_field by done.
        destruct (decide (m = n)) as [->|Hm].
        -- by rewrite !bool_decide_eq_true_2.
        -- rewrite !bool_decide_eq_false_2; [done..|]. congruence.
      * rewrite updated_current_number by done. by rewrite bool_decide_eq_true_2.
      * destruct Hr as [->|[[-> ->]|[[-> ->]|(-> & -> & t0 & Hf & Hn)]]];
          cbn [request_in_order]; rewrite bool_decide_eq_true_2 by done;
          rewrite ?Hf, ?Hn; unfold update_in_order; by rewrite Hk.
    + left. split.
      * intros m. rewrite updated_status_field by done.
        rewrite bool_decide_eq_false_2; [done|]. congruence.
      * rewrite updated_current_number by done.
        by rewrite bool_decide_eq_false_2.
Qed.

(** The statuses of the tokens with the doctor, read from the hashes. *)
Lemma with_doctor_numbers_spec d s n :
  wf_date d s ->
  In n (with_doctor_numbers d s) <->
  token_field d n "status" s = Some "WITH_DOCTOR".
Proof.
  intros Hwf. unfold with_doctor_numbers. split.
  - intros (t & <- & [Hin Hst]%filter_In)%in_map_iff.
    apply String.eqb_eq in Hst.
    destruct (listing_In _ _ _ Hwf Hin) as (sc & h & ex & _ & Hk & Ht).
    unfold token_field, token_hash. rewrite Hk. simpl.
    apply token_dict_fields in Ht as (_ & _ & _ & _ & Hs & _). congruence.
  - intros Hst. unfold token_field, token_hash in Hst.
    destruct (s !! _get_token_key d n) as [e|] eqn:E; [|done].
    destruct (token_of_member_wf _ _ _ _ Hwf E) as (h & t & Ee & Ht & Hn & _).
    rewrite Ee in Hst, E. simpl in Hst.
    destruct (wf_listed _ _ Hwf n) as [sc Hsc]; [eauto|].
    apply in_map_iff. exists t. split; [done|]. apply filter_In.
    split; [by eapply listing_intro|]. apply String.eqb_eq.
    apply token_dict_fields in Ht as (_ & _ & _ & _ & Hs & _). congruence.
Qed.

(** *** What always holds *)

Lemma pointer_names_live_token_serve now r s d :
  wf s -> pointer_names_live_token d s ->
  pointer_names_live_token d (serve now r s).2.
Proof.
  intros Hwf Hinv.
  destruct (serve_effect now r s d Hwf)
    as [[Hst Hp]|[(k & Hk & Hst & Hp)|(k & st & Hst & Hp & _)]];
    cbv zeta in *; intros n Hn; rewrite Hst.
  - rewrite Hp in Hn. by apply Hinv.
  - rewrite Hp in Hn. destruct (Hinv n Hn) as (st & Hs & ?).
    rewrite bool_decide_eq_false_2; [eauto|]. intros ->. congruence.
  - rewrite Hp in Hn. unfold updated_pointer in Hn.
    destruct (String.eqb_spec st "WITH_DOCTOR") as [->|Hwd].
    { injection Hn as <-. rewrite bool_decide_eq_true_2 by done.
      eexists. split; [done|]. by split. }
    destruct (String.eqb_spec st "COMPLETED") as [->|Hc]; simpl in Hn.
    { case_bool_decide as E; [done|].
      rewrite bool_decide_eq_false_2 by congruence. by apply Hinv. }
    destruct (String.eqb_spec st "NO_SHOW") as [->|Hns]; simpl in Hn.
    { case_bool_decide as E; [done|].
      rewrite bool_decide_eq_false_2 by congruence. by apply Hinv. }
    case_bool_decide; [eauto|by apply Hinv].
Qed.

Lemma pointer_names_live_token_run trace d :
  pointer_names_live_token d (run trace ∅).
Proof.
  induction trace as [|[now r] trace IH] using rev_ind.
  - intros n Hn. unfold run, current_number, current_value in Hn.
    cbn [fold_left] in Hn. by rewrite lookup_empty in Hn.
  - rewrite run_snoc. apply pointer_names_live_token_serve; [|done].
    apply wf_run, wf_empty.
Qed.

(** *** What holds when the requests are in order *)

Lemma update_in_order_with_doctor d s n m :
  wf_date d s ->
  transition_in_order d s n "WITH_DOCTOR" = true ->
  token_field d m "status" s = Some "WITH_DOCTOR" -> m = n.
Proof.
  intros Hwf Ho Hm. apply with_doctor_numbers_spec in Hm; [|done].
  unfold transition_in_order in Ho. simpl in Ho.
  rewrite forallb_forall in Ho. apply Ho in Hm. lia.
Qed.

Lemma update_in_order_leaves d s n st :
  wf_date d s ->
  transition_in_order d s n st = true ->
  String.eqb st "WITH_DOCTOR" = false ->
  String.eqb st "COMPLETED" || String.eqb st "NO_SHOW" = false ->
  token_field d n "status" s <> Some "WITH_DOCTOR".
Proof.
  intros Hwf Ho E1 E2 Hn. apply with_doctor_numbers_spec in Hn; [|done].
  unfold transition_in_order in Ho. rewrite E1, E2 in Ho.
  apply negb_true_iff in Ho.
  assert (existsb (fun m => m =? n) (with_doctor_numbers d s) = true); [|congruence].
  apply existsb_exists. exists n. split; [done|lia].
Qed.

Lemma pointer_is_with_doctor_serve now r s d :
  wf s -> pointer_is_with_doctor d s -> request_in_order d s r = true ->
  pointer_is_with_doctor d (serve now r s).2.
Proof.
  intros Hwf Hinv Hr.
  destruct (serve_effect now r s d Hwf)
    as [[Hst Hp]|[(k & Hk & Hst & Hp)|(k & st & Hst & Hp & Ho)]];
    cbv zeta in *; intros n; rewrite Hst, Hp.
  - apply Hinv.
  - case_bool_decide as E.
    + subst n. split; [|done]. intros Hn%Hinv. congruence.
    + apply Hinv.
  - specialize (Ho Hr). unfold updated_pointer.
    destruct (decide (n = k)) as [->|Hnk].
    + rewrite (bool_decide_eq_true_2 (k = k)) by done.
      destruct (String.eqb st "WITH_DOCTOR") eqn:Ewd.
      { apply String.eqb_eq in Ewd. by subst st. }
      apply String.eqb_neq in Ewd.
      assert (Some st <> Some "WITH_DOCTOR") as Hst' by congruence.
      destruct (String.eqb st "COMPLETED" || String.eqb st "NO_SHOW") eqn:Ec.
      * case_bool_decide as E; [done|]. split; [congruence|done].
      * split; [|done]. intros Hk%Hinv.
        eapply update_in_order_leaves in Hk; try done.
        by apply String.eqb_neq.
    + rewrite (bool_decide_eq_false_2 (n = k)) by done.
      destruct (String.eqb st "WITH_DOCTOR") eqn:Ewd.
      { apply String.eqb_eq in Ewd. subst st.
        split; [congruence|]. intros Hn.
        by apply (update_in_order_with_doctor d s k n (Hwf d) Ho) in Hn. }
      destruct (String.eqb st "COMPLETED" || String.eqb st "NO_SHOW") eqn:Ec;
        [|apply Hinv].
      rewrite <- (Hinv n). case_bool_decide as E; [|done]. split; congruence.
Qed.

Lemma pointer_is_with_doctor_empty d : pointer_is_with_doctor d ∅.
Proof.
  intros n. unfold current_number, current_value, token_field, token_hash.
  by rewrite !lookup_empty.
Qed.


(** * The scenarios of the specification *)

(** While no expiry is due the passing of time changes nothing; the
    properties above are about such stretches of time. *)
Lemma at_time_alive t (s : db) :
  (forall k e, s !! k = Some e -> alive t e = true) -> at_time t s = s.
Proof.
  intros H. apply map_eq. intros k. rewrite at_time_lookup.
  destruct (s !! k) as [e|] eqn:E; [|done]. by rewrite (H k e E).
Qed.

(** Scenario A: Asha gets token 1 and Ravi token 2; the call returns
    token 1 and the pointer is 1. *)
Example scenario_a_tokens :
  issued day1 scenario_a ∅ = [Some 1; Some 2] /\
  listed_numbers day1 (run scenario_a ∅) = [1; 2] /\
  returned_number (call_next_patient at_0910 day1 (run scenario_a ∅)).1 = 1 /\
  current_number day1 (call_next_patient at_0910 day1 (run scenario_a ∅)).2 = Some 1.
Proof. vm_compute. repeat split; reflexivity. Qed.

(** Scenario B: completing token 1 clears the pointer; the next call
    returns token 2 and the pointer is 2. *)
Example scenario_b_pointer :
  let s := run (scenario_a ++ [(at_0910, CallNext day1)])%list ∅ in
  let s1 := (update_status at_1000 day1 1 "COMPLETED" s).2 in
  current_number day1 s1 = None /\
  returned_number (call_next_patient at_1000 day1 s1).1 = 2 /\
  current_number day1 (call_next_patient at_1000 day1 s1).2 = Some 2.
Proof. vm_compute. repeat split; reflexivity. Qed.

(** Scenario C: a third token is skipped and recalled; it waits again,
    with the check-in time and the place in the queue it had. *)
Example scenario_c_recall :
  let s := run (scenario_a ++ [(at_0910, walk_in 103 "Meera")])%list ∅ in
  let s1 := (skip_patient at_1000 day1 3 s).2 in
  let s2 := (recall_patient at_1000 day1 3 s1).2 in
  token_field day1 3 "status" s1 = Some "SKIPPED" /\
  token_field day1 3 "status" s2 = Some "WAITING" /\
  token_field day1 3 "checkin_time" s2 = Some "2024-01-15T09:10:00" /\
  listed_numbers day1 s2 = [1; 2; 3].
Proof. vm_compute. repeat split; reflexivity. Qed.

(** * Further properties of the service *)

(** ** Keys *)

(** X1. The four kinds of Redis keys never collide: a token key
    determines its date and number, the other keys determine their date,
    and keys of different kinds differ, whatever the dates and numbers. *)
Theorem keys_never_collide d d' n n' :
  (_get_token_key d n = _get_token_key d' n' <-> d = d' /\ n = n') /\
  (_get_queue_key d = _get_queue_key d' <-> d = d') /\
  (_get_counter_key d = _get_counter_key d' <-> d = d') /\
  (_get_current_key d = _get_current_key d' <-> d = d') /\
  _get_queue_key d <> _get_token_key d' n' /\
  _get_queue_key d <> _get_counter_key d' /\
  _get_queue_key d <> _get_current_key d' /\
  _get_token_key d n <> _get_counter_key d' /\
  _get_token_key d n <> _get_current_key d' /\
  _get_counter_key d <> _get_current_key d'.
Proof.
  split; [split; [apply token_key_inj|by intros [-> ->]]|].
  split; [split; [apply queue_key_inj|by intros ->]|].
  split; [split; [apply counter_key_inj|by intros ->]|].
  split; [split; [apply current_key_inj|by intros ->]|].
  repeat split; key_ne.
Qed.

(** ** Reads *)

Lemma get_today_queue_loop_reads d members acc s :
  (get_today_queue_loop d members acc s).2 = s.
Proof.
  revert acc. induction members as [|m members IH]; intros acc; [done|].
  cbn [get_today_queue_loop]. unfold Redis.bind at 1, lift.
  destruct (int m) as [n|e]; [|done].
  unfold Redis.bind at 1, hgetall.
  destruct (s !! _get_token_key d n) as [[[v|h|z] ex]|]; try done.
  - case_bool_decide; [apply IH|]. unfold Redis.bind at 1.
    destruct (token_dict h); [apply IH|done].
  - rewrite bool_decide_eq_true_2 by done. apply IH.
Qed.

Lemma get_today_queue_reads d s : (get_today_queue d s).2 = s.
Proof.
  unfold get_today_queue, Redis.bind, zrange_all.
  destruct (s !! _get_queue_key d) as [[[v|h|z] ex]|]; try done.
  destruct (snd <$> z) as [|m ms]; [done|]. apply get_today_queue_loop_reads.
Qed.

Lemma get_current_serving_reads d s : (get_current_serving d s).2 = s.
Proof.
  unfold get_current_serving, Redis.bind, get, lift, ret.
  destruct (s !! _get_current_key d) as [[[v|h|z] ex]|]; try done.
  destruct (truthy v); [|done]. by destruct (int v).
Qed.

Lemma get_queue_summary_reads d s : (get_queue_summary d s).2 = s.
Proof.
  unfold get_queue_summary, Redis.bind.
  pose proof (get_today_queue_reads d s) as H1.
  destruct (get_today_queue d s) as [[l|e] s1]; simpl in H1; subst s1; [|done].
  pose proof (get_current_serving_reads d s) as H2.
  destruct (get_current_serving d s) as [[c|e] s2]; simpl in H2; by subst s2.
Qed.

(** X2. The three read methods never write: whatever the store holds,
    and also when they raise, [get_today_queue], [get_current_serving]
    and [get_queue_summary] leave it as it is. *)
Theorem reads_never_write d s :
  (get_today_queue d s).2 = s /\
  (get_current_serving d s).2 = s /\
  (get_queue_summary d s).2 = s.
Proof.
  split; [apply get_today_queue_reads|]. split; [apply get_current_serving_reads|].
  apply get_queue_summary_reads.
Qed.

(** ** Reading a store in which records have expired *)

Lemma wf_readable d s : wf_date d s -> readable_date d s.
Proof.
  intros Hwf. split.
  - intros e He. destruct (wf_queue _ _ Hwf _ He) as (z & Hz).
    exists z. split; [done|]. intros sc m Hin.
    pose proof (wf_members _ _ Hwf sc m) as Hm. unfold queue_index in Hm.
    rewrite He in Hm. destruct e as [v ex]. simpl in Hz. subst v.
    destruct (Hm Hin) as (n & -> & _). eauto.
  - intros n e He. destruct (wf_token _ _ Hwf _ _ He) as (h & t & ? & ? & _).
    eauto.
  - apply (wf_current _ _ Hwf).
  - intros e He. destruct (wf_counter _ _ Hwf _ He) as (c & ? & _). eauto.
Qed.

Lemma at_time_Some t (s : db) k e : at_time t s !! k = Some e -> s !! k = Some e.
Proof.
  rewrite at_time_lookup. destruct (s !! k) as [e'|]; [|done].
  by destruct (alive t e').
Qed.

Lemma readable_at_time d s t : readable_date d s -> readable_date d (at_time t s).
Proof.
  intros [Hq Ht Hc Hn]. split.
  - intros e He%at_time_Some. by apply Hq.
  - intros n e He%at_time_Some. by eapply Ht.
  - intros e He%at_time_Some. by apply Hc.
  - intros e He%at_time_Some. by apply Hn.
Qed.

Lemma get_current_serving_readable d s :
  readable_date d s -> get_current_serving d s = (Ok (current_number d s), s).
Proof.
  intros Hrd. unfold get_current_serving, Redis.bind, get, current_number,
    current_value.
  destruct (s !! _get_current_key d) as [[v ex]|] eqn:E; [|done].
  destruct (rd_current _ _ Hrd _ E) as (m & Hv). simpl in Hv. subst v.
  by rewrite truthy_str, int_str.
Qed.

Lemma get_today_queue_loop_readable d s members acc :
  readable_date d s ->
  (forall m, In m members -> exists n, m = str n) ->
  get_today_queue_loop d members acc s =
    (Ok (acc ++ omap (token_of_member d s) members)%list, s).
Proof.
  intros Hrd. revert acc.
  induction members as [|m members IH]; intros acc Hm; simpl.
  - by rewrite app_nil_r.
  - destruct (Hm m) as (n & ->); [by left|].
    unfold Redis.bind at 1, lift. rewrite int_str.
    unfold Redis.bind at 1, hgetall, token_of_member, token_hash.
    rewrite int_str.
    destruct (s !! _get_token_key d n) as [e|] eqn:He.
    + destruct (rd_token _ _ Hrd _ _ He) as (h & t & Hv & Ht).
      destruct e as [v ex]. simpl in Hv. subst v.
      rewrite bool_decide_eq_false_2.
      2:{ intros ->. by rewrite token_dict_empty in Ht. }
      unfold Redis.bind at 1. rewrite Ht.
      rewrite IH; [|intros; apply Hm; by right].
      by rewrite <- app_assoc.
    + rewrite bool_decide_eq_true_2 by done.
      apply IH. intros; apply Hm; by right.
Qed.

Lemma get_today_queue_readable d s :
  readable_date d s -> get_today_queue d s = (Ok (listing d s), s).
Proof.
  intros Hrd. unfold get_today_queue, Redis.bind, zrange_all, listing, queue_index.
  destruct (s !! _get_queue_key d) as [[v ex]|] eqn:E; [|done].
  destruct (rd_queue _ _ Hrd _ E) as (z & Hz & Hm). simpl in Hz. subst v.
  destruct (snd <$> z) as [|m ms] eqn:Ez; [done|].
  rewrite get_today_queue_loop_readable; [done..|].
  intros m' Hin. rewrite <- Ez in Hin.
  apply in_map_iff in Hin as ([sc m''] & <- & Hin). by apply (Hm sc).
Qed.

Lemma omap_sublist {A B} (f f' : A -> option B) (l : list A) :
  (forall x, f' x = f x \/ f' x = None) -> sublist (omap f' l) (omap f l).
Proof.
  intros H. induction l as [|x l IH]; [constructor|].
  cbn [omap list_omap]. fold (omap f' l). fold (omap f l).
  destruct (H x) as [->| ->].
  - destruct (f x); [by constructor|done].
  - destruct (f x); [by constructor|done].
Qed.

Lemma token_of_member_at_time d s t m :
  token_of_member d (at_time t s) m = token_of_member d s m \/
  token_of_member d (at_time t s) m = None.
Proof.
  unfold token_of_member, token_hash. destruct (int m) as [n|]; [|by left].
  rewrite at_time_lookup. destruct (s !! _get_token_key d n) as [e|]; [|by left].
  destruct (alive t e); [by left|by right].
Qed.

Lemma listing_at_time d s t : sublist (listing d (at_time t s)) (listing d s).
Proof.
  unfold listing, queue_index. rewrite at_time_lookup.
  destruct (s !! _get_queue_key d) as [e|]; [|constructor].
  destruct (alive t e).
  - apply omap_sublist. intros m. apply token_of_member_at_time.
  - apply sublist_nil_l.
Qed.

(** X3. Tokens whose record has expired are skipped in silence: at any
    later time, with whatever keys have expired by then,
    [get_today_queue] does not raise, and what it returns is a
    sub-sequence, in the same order, of what it returned before. *)
Theorem list_after_expiry trace d t :
  let s := run trace ∅ in
  get_today_queue d (at_time t s) = (Ok (listing d (at_time t s)), at_time t s) /\
  get_today_queue d s = (Ok (listing d s), s) /\
  sublist (listing d (at_time t s)) (listing d s).
Proof.
  intros s. assert (wf_date d s) as Hwf by apply wf_run, wf_empty.
  split; [|split].
  - by apply get_today_queue_readable, readable_at_time, wf_readable.
  - by apply get_today_queue_ok.
  - apply listing_at_time.
Qed.

(** ** Skipping and recalling *)

Lemma updated_token_skip_recall now now' t :
  status t = "WAITING" ->
  updated_token now' "WAITING" (updated_token now "SKIPPED" t) = t.
Proof. destruct t. simpl. by intros ->. Qed.

Lemma updated_hash_plain now st (h : gmap string string) :
  String.eqb st "WITH_DOCTOR" = false ->
  String.eqb st "COMPLETED" || String.eqb st "NO_SHOW" = false ->
  updated_hash now st h = <["status" := st]> h.
Proof. unfold updated_hash. by intros -> ->. Qed.

Lemma updated_store_plain now d n st h ex s :
  String.eqb st "WITH_DOCTOR" = false ->
  String.eqb st "COMPLETED" || String.eqb st "NO_SHOW" = false ->
  updated_store now d n st h ex s =
    <[_get_token_key d n := Entry (VHash (<["status" := st]> h)) ex]> s.
Proof. unfold updated_store, updated_hash. by intros -> ->. Qed.

Lemma skip_recall_store now now' d n s h ex t :
  s !! _get_token_key d n = Some (Entry (VHash h) ex) ->
  token_dict h = Ok t ->
  h !! "status" = Some "WAITING" ->
  (forall e, s !! _get_current_key d = Some e -> exists m, val e = VString (str m)) ->
  recall_patient now' d n (skip_patient now d n s).2 =
    (Ok (Some (without_complaint t)), s).
Proof.
  intros Hs Ht Hst Hcur. unfold skip_patient, recall_patient.
  rewrite (update_status_present now d n "SKIPPED" s h ex t) by done.
  cbn [snd]. rewrite updated_store_plain by done.
  set (h1 := <["status" := "SKIPPED"]> h).
  set (s1 := <[_get_token_key d n := Entry (VHash h1) ex]> s).
  assert (token_dict h1 = Ok (updated_token now "SKIPPED" t)) as Ht1.
  { unfold h1. rewrite <- (updated_hash_plain now "SKIPPED" h) by done.
    by apply updated_hash_token. }
  rewrite (update_status_present now' d n "WAITING" s1 h1 ex
             (updated_token now "SKIPPED" t)); [|apply lookup_insert_eq|done|].
  2:{ intros e. unfold s1. rewrite lookup_insert_ne by key_ne. apply Hcur. }
  rewrite updated_store_plain by done. unfold s1, h1.
  rewrite (insert_insert_eq s), (insert_insert_eq h).
  rewrite (insert_id h) by done. rewrite (insert_id s) by done.
  rewrite updated_token_skip_recall; [done|].
  apply token_dict_fields in Ht as (_ & _ & _ & _ & Hs' & _). congruence.
Qed.

(** X4. Skipping a waiting token and recalling it undoes the skip: the
    store is again what it was, and the recall returns the token as it
    was listed before (without its complaint, which [update_status]
    does not return). *)
Theorem skip_then_recall trace now now' d n :
  let s := run trace ∅ in
  token_field d n "status" s = Some "WAITING" ->
  exists t,
    In t (listing d s) /\ token_number t = n /\
    recall_patient now' d n (skip_patient now d n s).2 =
      (Ok (Some (without_complaint t)), s).
Proof.
  intros s Hst. assert (wf_date d s) as Hwf by apply wf_run, wf_empty.
  destruct (token_status_listed d s n Hwf Hst) as (t & Hin & Hn & _).
  exists t. split; [done|]. split; [done|].
  destruct (listing_In _ _ _ Hwf Hin) as (sc & h & ex & _ & Hk & Ht).
  rewrite Hn in Hk.
  apply (skip_recall_store now now' d n s h ex t); try done.
  - unfold token_field, token_hash in Hst. by rewrite Hk in Hst.
  - by apply wf_current.
Qed.


(** Scenario A: Asha's token is skipped at 09:05 and recalled at
    09:10. *)
Lemma skip_then_recall_witness :
  token_field day1 1 "status" (run scenario_a ∅) = Some "WAITING" /\
  exists t,
    In t (listing day1 (run scenario_a ∅)) /\ token_number t = 1 /\
    recall_patient at_0910 day1 1 (skip_patient at_0905 day1 1 (run scenario_a ∅)).2 =
      (Ok (Some (without_complaint t)), run scenario_a ∅).
Proof.
  assert (token_field day1 1 "status" (run scenario_a ∅) = Some "WAITING") as H
    by (vm_compute; reflexivity).
  split; [exact H|].
  exact (skip_then_recall scenario_a at_0905 at_0910 day1 1 H).
Defined.

(** ** The tokens of a day *)

Lemma zinsert_perm x z : zinsert x z ≡ₚ x :: z.
Proof.
  induction z as [|y z IH]; [done|]. simpl.
  destruct (zle x y); [done|]. rewrite IH. apply Permutation_swap.
Qed.

Lemma insert_checkins_perm n times z :
  snd <$> insert_checkins n times z ≡ₚ
    ((snd <$> z) ++ (str <$> seqZ n (Z.of_nat (length times))))%list.
Proof.
  revert n z. induction times as [|ts rest IH]; intros n z.
  - simpl. by rewrite app_nil_r.
  - cbn [insert_checkins length]. rewrite IH, zinsert_perm.
    rewrite (seqZ_cons n) by lia. cbn [fmap list_fmap snd].
    replace (Z.pred (Z.of_nat (S (length rest)))) with (Z.of_nat (length rest))
      by lia.
    replace (Z.succ n) with (n + 1) by lia.
    by rewrite <- Permutation_middle.
Qed.

Lemma checkin_times_length d trace :
  length (checkin_times d trace) = check_ins_for d trace.
Proof.
  unfold checkin_times, check_ins_for.
  induction trace as [|[now r] trace IH]; [done|].
  cbn [omap list_omap List.filter fst snd].
  destruct (is_check_in_for d r); simpl; by rewrite IH.
Qed.

Lemma members_run d trace :
  snd <$> queue_index d (run trace ∅) ≡ₚ
    str <$> seqZ 1 (Z.of_nat (check_ins_for d trace)).
Proof.
  rewrite index_from by apply wf_empty.
  rewrite counter_value_empty. unfold queue_index. rewrite lookup_empty.
  rewrite insert_checkins_perm. by rewrite checkin_times_length.
Qed.

Lemma listing_numbers_run d trace :
  token_number <$> listing d (run trace ∅) ≡ₚ
    seqZ 1 (Z.of_nat (check_ins_for d trace)).
Proof.
  assert (wf_date d (run trace ∅)) as Hwf by apply wf_run, wf_empty.
  pose proof (listing_members d _ Hwf) as Hm.
  pose proof (members_run d trace) as Hp. rewrite <- Hm in Hp.
  change (fun t => str (token_number t)) with (str ∘ token_number) in Hp.
  rewrite list_fmap_compose in Hp.
  apply NoDup_Permutation.
  - apply (NoDup_fmap_1 str). rewrite Hp.
    apply (NoDup_fmap_2 str), NoDup_seqZ.
  - apply NoDup_seqZ.
  - intros x. rewrite <- (list_elem_of_fmap_inj str _ x). rewrite Hp.
    by rewrite (list_elem_of_fmap_inj str).
Qed.

Lemma counter_value_run d trace :
  counter_value d (run trace ∅) = Z.of_nat (check_ins_for d trace).
Proof.
  induction trace as [|[now r] trace IH] using rev_ind.
  - apply counter_value_empty.
  - rewrite run_snoc, serve_counter by apply wf_run, wf_empty.
    rewrite IH. unfold check_ins_for. rewrite List.filter_app, length_app.
    cbn [List.filter snd]. destruct (is_check_in_for d r); simpl; lia.
Qed.

(** X5. While nothing expires no token is ever lost or listed twice:
    after any requests the numbers of the tokens [get_today_queue]
    returns for a date are 1, ..., N in some order, each once, where N
    is the number of check-ins made for that date; the counter of the
    date stands at N. *)
Theorem tokens_listed_once trace d :
  let s := run trace ∅ in
  let N := Z.of_nat (check_ins_for d trace) in
  get_today_queue d s = (Ok (listing d s), s) /\
  token_number <$> listing d s ≡ₚ seqZ 1 N /\
  NoDup (token_number <$> listing d s) /\
  (forall n, (exists t, In t (listing d s) /\ token_number t = n) <-> 1 <= n <= N) /\
  counter_value d s = N.
Proof.
  intros s N. assert (wf_date d s) as Hwf by apply wf_run, wf_empty.
  pose proof (listing_numbers_run d trace) as Hp. fold s N in Hp.
  split; [by apply get_today_queue_ok|]. split; [done|]. split; [|split].
  - rewrite Hp. apply NoDup_seqZ.
  - intros n. transitivity (n ∈ token_number <$> listing d s).
    + rewrite list_elem_of_fmap. split.
      * intros (t & Hin & <-). exists t. by rewrite list_elem_of_In.
      * intros (t & -> & Hin). exists t. by rewrite <- list_elem_of_In.
    + rewrite Hp, elem_of_seqZ. lia.
  - apply counter_value_run.
Qed.

(** ** The totals of the summary *)

Lemma count_uncounted_cons t l :
  count_uncounted (t :: l) =
    (if is_counted (status t) then 0 else 1) + count_uncounted l.
Proof.
  unfold count_uncounted. simpl. destruct (is_counted (status t)); simpl; lia.
Qed.

Lemma count_partition l :
  Z.of_nat (length l) =
    count_status "WAITING" l + count_status "WITH_DOCTOR" l +
    count_status "COMPLETED" l + count_status "SKIPPED" l +
    count_status "NO_SHOW" l + count_uncounted l.
Proof.
  induction l as [|t l IH]; [done|].
  rewrite !count_status_cons, count_uncounted_cons.
  cbn [length]. rewrite Nat2Z.inj_succ, IH.
  unfold is_counted, counted_statuses. cbn [existsb].
  generalize (status t) as st. intros st.
  destruct (String.eqb_spec st "WAITING") as [->|_]; [simpl; lia|].
  destruct (String.eqb_spec st "WITH_DOCTOR") as [->|_]; [simpl; lia|].
  destruct (String.eqb_spec st "COMPLETED") as [->|_]; [simpl; lia|].
  destruct (String.eqb_spec st "SKIPPED") as [->|_]; [simpl; lia|].
  destruct (String.eqb_spec st "NO_SHOW") as [->|_]; simpl; lia.
Qed.

Lemma listed_status d s t :
  wf_date d s -> In t (listing d s) ->
  token_field d (token_number t) "status" s = Some (status t).
Proof.
  intros Hwf Hin.
  destruct (listing_In _ _ _ Hwf Hin) as (sc & h & ex & _ & Hk & Ht).
  unfold token_field, token_hash. rewrite Hk. simpl.
  by apply token_dict_fields in Ht as (_ & _ & _ & _ & Hs & _).
Qed.

Lemma statuses_counted trace d n st :
  updates_counted trace = true ->
  token_field d n "status" (run trace ∅) = Some st -> is_counted st = true.
Proof.
  revert n st. induction trace as [|[now r] trace IH] using rev_ind;
    intros n st Hc.
  - unfold token_field, token_hash, run. simpl. by rewrite lookup_empty.
  - unfold updates_counted in Hc. rewrite forallb_app in Hc.
    apply andb_prop in Hc as [Hc Hr]. simpl in Hr. rewrite andb_true_r in Hr.
    specialize (fun n st => IH n st Hc).
    rewrite run_snoc. set (s := run trace ∅) in *.
    assert (wf s) as Hwf by apply wf_run, wf_empty.
    destruct (serve_cases now r s Hwf)
      as [(d0 & pid & pname & appt & walk & cc & -> & Hs)
         |[[Hs _]|(d0 & m & st0 & h & ex & t & Hk & _ & _ & Hs & Hr0)]];
      cbv zeta in Hs; rewrite Hs; cbn [snd].
    + rewrite checked_in_status_field by done.
      case_bool_decide; [by intros [= <-]|apply IH].
    + apply IH.
    + rewrite updated_status_field by done.
      case_bool_decide; [|apply IH]. intros [= <-].
      destruct Hr0 as [->|[[-> ->]|[[-> ->]|(-> & -> & _)]]]; done.
Qed.

Lemma count_uncounted_zero l :
  Forall (fun t => is_counted (status t) = true) l -> count_uncounted l = 0.
Proof.
  induction 1 as [|t l Ht _ IH]; [done|].
  by rewrite count_uncounted_cons, Ht, IH.
Qed.

(** X6. "total_tokens" of the summary is the sum of its five status
    counters plus the number of listed tokens whose status is none of
    the five. [update_status] stores whatever status text it is given,
    so a token can fall outside every counter; when every status update
    of the trace carried one of the five statuses, none does and the
    five counters add up to the total. *)
Theorem summary_total trace d :
  let s := run trace ∅ in
  exists sm,
    get_queue_summary d s = (Ok sm, s) /\
    total_tokens sm =
      waiting sm + with_doctor sm + completed sm + skipped sm + no_show sm +
      count_uncounted (tokens sm) /\
    (updates_counted trace = true ->
     total_tokens sm =
       waiting sm + with_doctor sm + completed sm + skipped sm + no_show sm) /\
    (forall now n st,
       is_counted st = false -> is_Some (s !! _get_token_key d n) ->
       exists sm',
         (get_queue_summary d (update_status now d n st s).2).1 = Ok sm' /\
         waiting sm' + with_doctor sm' + completed sm' + skipped sm' + no_show sm'
           < total_tokens sm').
Proof.
  intros s. assert (wf s) as Hwf by apply wf_run, wf_empty.
  destruct (get_queue_summary_ok d s (Hwf d))
    as (sm & Hsm & Ht & _ & H0 & H1 & H2 & H3 & H4 & H5 & _).
  exists sm. split; [done|].
  assert (total_tokens sm =
      waiting sm + with_doctor sm + completed sm + skipped sm + no_show sm +
      count_uncounted (tokens sm)) as Htot.
  { rewrite H0, H1, H2, H3, H4, H5, Ht. apply count_partition. }
  split; [done|]. split.
  - intros Hc. rewrite Htot. rewrite count_uncounted_zero; [lia|].
    rewrite Ht. apply List.Forall_forall. intros t Hin.
    apply (statuses_counted trace d (token_number t)); [done|].
    by apply listed_status.
  - intros now n st Hst Hk.
    pose proof (update_status_wf now d n st s Hwf) as Hwf'.
    set (s' := (update_status now d n st s).2) in *.
    assert (wf s') as Hwf'' by (by destruct Hwf').
    destruct (get_queue_summary_ok d s' (Hwf'' d))
      as (sm' & Hsm' & Ht' & _ & G0 & G1 & G2 & G3 & G4 & G5 & _).
    exists sm'. split; [by rewrite Hsm'|].
    rewrite G0, G1, G2, G3, G4, G5, (count_partition (listing d s')).
    assert (token_field d n "status" s' = Some st) as Hf
      by (by apply update_status_status).
    assert (exists t, In t (listing d s') /\ status t = st) as (t & Hin & Hs').
    { unfold token_field, token_hash in Hf.
      destruct (s' !! _get_token_key d n) as [e|] eqn:E; [|done].
      destruct (token_of_member_wf _ _ _ _ (Hwf'' d) E) as (h & t & Ee & Hd & Hn & _).
      rewrite Ee in Hf, E. simpl in Hf.
      destruct (wf_listed _ _ (Hwf'' d) n) as [sc Hsc]; [eauto|].
      exists t. split; [by eapply listing_intro|].
      apply token_dict_fields in Hd as (_ & _ & _ & _ & Hs' & _). congruence. }
    assert (0 < count_uncounted (listing d s')); [|lia].
    clear -Hin Hs' Hst. induction (listing d s') as [|x l IH]; [done|].
    rewrite count_uncounted_cons.
    assert (0 <= count_uncounted l) by (unfold count_uncounted; lia).
    destruct Hin as [->|Hin].
    + rewrite Hs', Hst. lia.
    + specialize (IH Hin). destruct (is_counted (status x)); lia.
Qed.

(** ** How long a token lives *)

Lemma checkin_clocks_length d trace :
  length (checkin_clocks d trace) = check_ins_for d trace.
Proof.
  unfold checkin_clocks, check_ins_for.
  induction trace as [|[now r] trace IH]; [done|].
  cbn [omap list_omap List.filter fst snd].
  destruct (is_check_in_for d r); simpl; by rewrite IH.
Qed.

Lemma checkin_clocks_snoc d trace now r :
  checkin_clocks d (trace ++ [(now, r)]) =
    (checkin_clocks d trace ++
     if is_check_in_for d r then [server_time now] else [])%list.
Proof.
  unfold checkin_clocks. rewrite omap_app. cbn [omap list_omap fst snd].
  by destruct (is_check_in_for d r).
Qed.

Lemma checked_in_at_snoc_other d trace now r n :
  is_check_in_for d r = false ->
  checked_in_at d (trace ++ [(now, r)]) n = checked_in_at d trace n.
Proof.
  intros H. unfold checked_in_at. rewrite checkin_clocks_snoc, H.
  by rewrite app_nil_r.
Qed.

Lemma checked_in_at_snoc d trace now r n :
  is_check_in_for d r = true ->
  checked_in_at d (trace ++ [(now, r)]) n =
    if bool_decide (n = Z.of_nat (check_ins_for d trace) + 1)
    then Some (server_time now) else checked_in_at d trace n.
Proof.
  intros H. unfold checked_in_at. rewrite checkin_clocks_snoc, H.
  pose proof (checkin_clocks_length d trace) as Hl.
  destruct (Z.leb_spec 1 n) as [Hn|Hn].
  - case_bool_decide as E.
    + rewrite lookup_app_r by lia.
      replace (Z.to_nat (n - 1) - length (checkin_clocks d trace))%nat with 0%nat
        by lia.
      done.
    + destruct (decide (Z.to_nat (n - 1) < length (checkin_clocks d trace))%nat).
      * by rewrite lookup_app_l.
      * rewrite !lookup_ge_None_2; [done|lia|].
        rewrite length_app. simpl. lia.
  - rewrite bool_decide_eq_false_2; [done|lia].
Qed.

Lemma last_snoc_if {A} (l : list A) (b : bool) (x : A) :
  last (l ++ if b then [x] else [])%list = if b then Some x else last l.
Proof. destruct b; [apply last_snoc|by rewrite app_nil_r]. Qed.

Lemma is_check_in_for_other d d0 pid pname appt walk cc :
  d0 <> d -> is_check_in_for d (CheckIn d0 pid pname appt walk cc) = false.
Proof. intros. simpl. by rewrite bool_decide_eq_false_2. Qed.

Lemma deadlines_run d trace :
  let s := run trace ∅ in
  (forall n, deadline (_get_token_key d n) s =
     (fun c => Some (c + 86400)) <$> checked_in_at d trace n) /\
  deadline (_get_queue_key d) s =
     (fun c => Some (c + 86400)) <$> last (checkin_clocks d trace).
Proof.
  unfold deadline.
  induction trace as [|[now r] trace IH] using rev_ind.
  - simpl. split; [|done]. intros n. unfold run. simpl. rewrite lookup_empty.
    unfold checked_in_at. by destruct (1 <=? n).
  - cbv zeta in IH. destruct IH as [IHt IHq].
    cbv zeta. rewrite run_snoc. set (s := run trace ∅) in *.
    assert (wf s) as Hwf by apply wf_run, wf_empty.
    rewrite checkin_clocks_snoc, last_snoc_if.
    destruct (serve_cases now r s Hwf)
      as [(d0 & pid & pname & appt & walk & cc & -> & Hs)
         |[[Hs Hr]|(d0 & m & st0 & h & ex & t & Hk & _ & _ & Hs & Hr)]];
      cbv zeta in Hs; rewrite Hs; cbn [snd].
    + destruct (decide (d0 = d)) as [->|Hne].
      * assert (is_check_in_for d (CheckIn d pid pname appt walk cc) = true) as Hc
          by (simpl; by rewrite bool_decide_eq_true_2).
        rewrite Hc. split; [|by rewrite checked_in_queue_key].
        intros n. rewrite checked_in_at_snoc by done.
        rewrite <- counter_value_run. fold s.
        case_bool_decide as E.
        -- subst n. by rewrite checked_in_token_key_same.
        -- rewrite checked_in_token_key_other by congruence. apply IHt.
      * rewrite is_check_in_for_other by done.
        split; [|by rewrite checked_in_queue_key_other].
        intros n. rewrite checked_in_at_snoc_other
          by (by apply is_check_in_for_other).
        rewrite checked_in_token_key_other by congruence. apply IHt.
    + assert (is_check_in_for d r = false) as Hc.
      { destruct Hr as [(? & ? & ? & -> & _)|[(? & ? & -> & _)
          |[(? & ? & -> & _)|(? & -> & _)]]]; done. }
      rewrite Hc. split; [|done]. intros n.
      by rewrite checked_in_at_snoc_other.
    + assert (is_check_in_for d r = false) as Hc.
      { destruct Hr as [->|[[-> _]|[[-> _]|[-> _]]]]; done. }
      rewrite Hc. split; [|by rewrite updated_queue_key].
      intros n. rewrite checked_in_at_snoc_other by done.
      destruct (decide ((d, n) = (d0, m))) as [[= -> ->]|Hne].
      * rewrite updated_token_key_same. rewrite <- IHt, Hk. done.
      * rewrite updated_token_key_other by done. apply IHt.
Qed.

Lemma at_time_is_Some t (s : db) k :
  is_Some (at_time t s !! k) <->
  exists ex, deadline k s = Some ex /\
             match ex with Some dl => t < dl | None => True end.
Proof.
  rewrite at_time_lookup. unfold deadline, alive.
  destruct (s !! k) as [[v ex]|]; simpl.
  - destruct ex as [dl|]; simpl.
    + destruct (Z.ltb_spec t dl).
      * split; [intros _; eauto|intros _; eauto].
      * split; [by intros [? ?]|]. intros (? & [= <-] & ?). lia.
    + split; [intros _; by exists None|intros _; eauto].
  - split; [by intros [? ?]|]. by intros (? & ? & ?).
Qed.

Lemma listed_at_time trace d n t :
  let s := run trace ∅ in
  (exists x, In x (listing d (at_time t s)) /\ token_number x = n) <->
  is_Some (at_time t s !! _get_token_key d n) /\
  is_Some (at_time t s !! _get_queue_key d).
Proof.
  intros s. assert (wf_date d s) as Hwf by apply wf_run, wf_empty.
  split.
  - intros (x & Hin & Hn). unfold listing in Hin.
    apply list_elem_of_In, list_elem_of_omap in Hin as (m & Hm & Hmem).
    apply list_elem_of_In, in_map_iff in Hm as ([sc m'] & Em & Hidx).
    simpl in Em. subst m'. split.
    + unfold token_of_member, token_hash in Hmem.
      destruct (int m) as [k|] eqn:Ek; [|done].
      destruct (at_time t s !! _get_token_key d k) as [[v ex]|] eqn:E; [|done].
      destruct v as [|h|]; try done.
      destruct (token_dict h) as [x'|] eqn:Ex; [|done].
      injection Hmem as ->.
      pose proof (at_time_Some _ _ _ _ E) as E'.
      destruct (wf_token _ _ Hwf _ _ E') as (h' & x' & Hv & Hd & Hk & _).
      simpl in Hv. injection Hv as <-. rewrite Ex in Hd. injection Hd as <-.
      rewrite Hn in Hk. subst k. eauto.
    + unfold queue_index in Hidx.
      destruct (at_time t s !! _get_queue_key d); [eauto|done].
  - intros [[e He] [q Hq']].
    pose proof (at_time_Some _ _ _ _ He) as He'.
    pose proof (at_time_Some _ _ _ _ Hq') as Hq''.
    destruct (token_of_member_wf _ _ _ _ Hwf He') as (h & x & Ee & Hd & Hk & _).
    destruct (wf_listed _ _ Hwf n) as [sc Hsc]; [eauto|].
    exists x. split; [|done].
    unfold listing. apply list_elem_of_In, list_elem_of_omap.
    exists (str n). split.
    + apply list_elem_of_In, in_map_iff. exists (sc, str n). split; [done|].
      unfold queue_index in *. rewrite Hq'. by rewrite Hq'' in Hsc.
    + unfold token_of_member, token_hash. rewrite int_str, He, Ee. simpl.
      by rewrite Hd.
Qed.

(** X7. The record of a token lives for 24 hours from its check-in and
    nothing prolongs it: whatever requests followed, at server time [t]
    the hash of token [n] is still there exactly when fewer than 86400
    seconds have passed since the check-in that issued it. The day's
    index lives until 24 hours after the latest check-in of the date. A
    token is listed at time [t] exactly when both are still there. *)
Theorem token_lifetime trace d n t :
  let s := run trace ∅ in
  deadline (_get_token_key d n) s =
    (fun c => Some (c + 86400)) <$> checked_in_at d trace n /\
  deadline (_get_queue_key d) s =
    (fun c => Some (c + 86400)) <$> last (checkin_clocks d trace) /\
  (is_Some (at_time t s !! _get_token_key d n) <->
   exists c, checked_in_at d trace n = Some c /\ t < c + 86400) /\
  (is_Some (at_time t s !! _get_queue_key d) <->
   exists c, last (checkin_clocks d trace) = Some c /\ t < c + 86400) /\
  ((exists x, In x (listing d (at_time t s)) /\ token_number x = n) <->
   is_Some (at_time t s !! _get_token_key d n) /\
   is_Some (at_time t s !! _get_queue_key d)).
Proof.
  intros s. destruct (deadlines_run d trace) as [Ht Hq]. fold s in Ht, Hq.
  assert (wf_date d s) as Hwf by apply wf_run, wf_empty.
  split; [apply Ht|]. split; [apply Hq|]. split; [|split].
  - rewrite at_time_is_Some, Ht.
    destruct (checked_in_at d trace n) as [c|]; simpl.
    + split; [intros (? & [= <-] & ?); eauto|].
      intros (? & [= <-] & ?). eauto.
    + split; [by intros (? & ? & ?)|by intros (? & ? & ?)].
  - rewrite at_time_is_Some, Hq.
    destruct (last (checkin_clocks d trace)) as [c|]; simpl.
    + split; [intros (? & [= <-] & ?); eauto|].
      intros (? & [= <-] & ?). eauto.
    + split; [by intros (? & ? & ?)|by intros (? & ? & ?)].
  - apply listed_at_time.
Qed.

(** ** What a check-in adds to the list *)

Lemma zinsert_split x z :
  exists l1 l2, z = (l1 ++ l2)%list /\ zinsert x z = (l1 ++ x :: l2)%list.
Proof.
  induction z as [|y z (l1 & l2 & -> & IH)].
  - by exists [], [].
  - simpl. destruct (zle x y).
    + by exists [], (y :: l1 ++ l2)%list.
    + exists (y :: l1), l2. by rewrite IH.
Qed.

Lemma omap_ext_In {A B} (f g : A -> option B) (l : list A) :
  (forall x, In x l -> f x = g x) -> omap f l = omap g l.
Proof.
  intros H. induction l as [|x l IH]; [done|].
  cbn [omap list_omap]. rewrite (H x) by (by left).
  fold (omap f l). fold (omap g l). rewrite IH; [done|].
  intros y Hy. apply H. by right.
Qed.

Lemma listing_checked_in now d pid pname appt walk cc s :
  wf_date d s ->
  let n := counter_value d s + 1 in
  let data := new_token_data n pid pname appt (utcnow now) walk cc in
  let s' := checked_in_store now d n data s in
  (exists l1 l2,
     listing d s = (l1 ++ l2)%list /\
     listing d s' =
       (l1 ++ new_token n pid pname appt (utcnow now) walk cc :: l2)%list) /\
  (forall d', d' <> d -> listing d' s' = listing d' s).
Proof.
  intros Hwf n data s'. split.
  - unfold listing. unfold s', data, n. rewrite checked_in_queue_index.
    fold n. fold data. fold s'.
    destruct (zinsert_split (timestamp (utcnow now), str n) (queue_index d s))
      as (z1 & z2 & Ez & ->).
    assert (forall m, In m (snd <$> queue_index d s) ->
              token_of_member d s' m = token_of_member d s m) as Hold.
    { intros m Hm. apply in_map_iff in Hm as ([sc m'] & Em & Hidx).
      simpl in Em. subst m'.
      destruct (wf_members _ _ Hwf _ _ Hidx) as (k & -> & _).
      unfold token_of_member, token_hash. rewrite int_str.
      unfold s', data, n. rewrite checked_in_token_key_other; [done|].
      intros [= ->]. apply (fresh_member d s (counter_value d s + 1) Hwf) in Hidx;
        [done|lia]. }
    assert (token_of_member d s' (str n) =
              Some (new_token n pid pname appt (utcnow now) walk cc)) as Hnew.
    { unfold token_of_member, token_hash. rewrite int_str.
      unfold s', data, n. rewrite checked_in_token_key_same.
      by rewrite new_token_dict. }
    rewrite Ez in Hold. rewrite Ez. rewrite !fmap_app, !omap_app.
    cbn [fmap list_fmap omap list_omap snd]. rewrite Hnew.
    rewrite fmap_app in Hold.
    exists (omap (token_of_member d s) (snd <$> z1)),
           (omap (token_of_member d s) (snd <$> z2)).
    split; [done|]. f_equal.
    + apply omap_ext_In. intros m Hm. apply Hold, in_or_app. by left.
    + f_equal. apply omap_ext_In. intros m Hm. apply Hold, in_or_app. by right.
  - intros d' Hne. unfold listing, queue_index.
    unfold s', data, n. rewrite checked_in_queue_key_other by done.
    apply omap_ext_In. intros m _. unfold token_of_member, token_hash.
    destruct (int m) as [k|]; [|done].
    rewrite checked_in_token_key_other; [done|]. congruence.
Qed.

(** X8. What is checked in is what is listed. After [check_in] the list
    of the date is the list before with one token put in, and that token
    carries the data given: the next number, the patient, the
    appointment ([None] if none or 0 was given), status WAITING, the time
    of the call, no called or completed time, the walk-in flag and the
    complaint ([None] if none or the empty text was given). The tokens
    listed before are listed unchanged and in the same order, and the
    lists of other dates are as before. *)
Theorem check_in_round_trip trace now d pid pname appt walk cc :
  let s := run trace ∅ in
  let n := counter_value d s + 1 in
  exists data s' t l1 l2,
    check_in now d pid pname appt walk cc s = (Ok data, s') /\
    get_today_queue d s' = (Ok (listing d s'), s') /\
    listing d s = (l1 ++ l2)%list /\
    listing d s' = (l1 ++ t :: l2)%list /\
    t = {| token_number := n;
           patient_id := pid;
           patient_name := pname;
           appointment_id :=
             match appt with
             | Some a => if a =? 0 then None else Some a
             | None => None
             end;
           status := "WAITING";
           checkin_time := isoformat (utcnow now);
           called_time := None;
           completed_time := None;
           is_walk_in := walk;
           chief_complaint :=
             match cc with
             | Some c => if String.eqb c "" then None else Some c
             | None => None
             end |} /\
    (forall d', d' <> d -> listing d' s' = listing d' s).
Proof.
  intros s n. assert (wf s) as Hwf by apply wf_run, wf_empty.
  destruct (listing_checked_in now d pid pname appt walk cc s (Hwf d))
    as [(l1 & l2 & El & El') Hother].
  fold n in El', Hother.
  set (data := new_token_data n pid pname appt (utcnow now) walk cc) in *.
  set (s' := checked_in_store now d n data s) in *.
  exists data, s', (new_token n pid pname appt (utcnow now) walk cc), l1, l2.
  split; [by apply check_in_ok|].
  split; [apply get_today_queue_ok; by apply wf_checked_in|].
  split; [done|]. split; [done|]. split; [|done].
  unfold new_token. f_equal. destruct cc as [c|]; [|done].
  unfold truthy. by destruct (String.eqb c "").
Qed.

(** ** A status update changes one entry of the list *)

Lemma update_listed_split now d st t l :
  NoDup (token_number <$> l) -> In t l ->
  exists l1 l2,
    l = (l1 ++ t :: l2)%list /\
    update_listed now d (token_number t) st d <$> l =
      (l1 ++ updated_token now st t :: l2)%list.
Proof.
  intros Hnd Hin. apply in_split in Hin as (l1 & l2 & ->).
  exists l1, l2. split; [done|].
  rewrite fmap_app in Hnd. cbn [fmap list_fmap] in Hnd.
  apply NoDup_app in Hnd as (_ & H1 & [H2 _]%NoDup_cons).
  assert (forall k : list Token,
            token_number t ∉ token_number <$> k ->
            update_listed now d (token_number t) st d <$> k = k) as Hid.
  { intros k Hk. induction k as [|x k IH]; [done|].
    cbn [fmap list_fmap] in *. apply not_elem_of_cons in Hk as [Hx Hk].
    rewrite IH by done. f_equal. unfold update_listed.
    rewrite bool_decide_eq_false_2; [done|]. by intros [_ ?]. }
  rewrite fmap_app. cbn [fmap list_fmap]. rewrite !Hid.
  - unfold update_listed at 1. by rewrite bool_decide_eq_true_2.
  - done.
  - intros Hk. apply (H1 _ Hk). by left.
Qed.

Lemma count_status_app st l1 l2 :
  count_status st (l1 ++ l2) = count_status st l1 + count_status st l2.
Proof.
  unfold count_status. rewrite List.filter_app, length_app. lia.
Qed.

Lemma count_status_replace x l1 l2 (t t' : Token) :
  count_status x (l1 ++ t' :: l2) =
    count_status x (l1 ++ t :: l2)
    - (if String.eqb (status t) x then 1 else 0)
    + (if String.eqb (status t') x then 1 else 0).
Proof. rewrite !count_status_app, !count_status_cons. lia. Qed.

(** A status update of a listed token, on the store and on the list. *)
Lemma update_status_listed trace now d st t :
  let s := run trace ∅ in
  In t (listing d s) ->
  exists h ex l1 l2,
    s !! _get_token_key d (token_number t) = Some (Entry (VHash h) ex) /\
    token_dict h = Ok t /\
    update_status now d (token_number t) st s =
      (Ok (Some (without_complaint (updated_token now st t))),
       updated_store now d (token_number t) st h ex s) /\
    listing d s = (l1 ++ t :: l2)%list /\
    listing d (updated_store now d (token_number t) st h ex s) =
      (l1 ++ updated_token now st t :: l2)%list.
Proof.
  intros s Hin. assert (wf s) as Hwf by apply wf_run, wf_empty.
  destruct (listing_In _ _ _ (Hwf d) Hin) as (sc & h & ex & _ & Hk & Ht).
  assert (NoDup (token_number <$> listing d s)) as Hnd.
  { unfold s. rewrite listing_numbers_run. apply NoDup_seqZ. }
  destruct (update_listed_split now d st t _ Hnd Hin) as (l1 & l2 & El & El').
  exists h, ex, l1, l2. split; [done|]. split; [done|].
  split; [apply update_status_present; try done; by apply wf_current|].
  split; [done|].
  by rewrite (updated_listing _ _ _ _ _ _ _ t).
Qed.

(** X9. A status update changes one entry of the day's list and
    nothing else. When token [n] is listed as [t], [update_status]
    returns the updated token and the list afterwards is the list before
    with [t] replaced, in place, by the updated token; so the token
    leaves the count of its old status and joins the count of the new
    one, and the length of the list stays the same. *)
Theorem update_moves_one trace now d st t :
  let s := run trace ∅ in
  In t (listing d s) ->
  exists s' l1 l2,
    update_status now d (token_number t) st s =
      (Ok (Some (without_complaint (updated_token now st t))), s') /\
    listing d s = (l1 ++ t :: l2)%list /\
    listing d s' = (l1 ++ updated_token now st t :: l2)%list /\
    forall x,
      count_status x (listing d s') =
        count_status x (listing d s)
        - (if String.eqb (status t) x then 1 else 0)
        + (if String.eqb st x then 1 else 0).
Proof.
  cbv zeta. intros Hin.
  destruct (update_status_listed trace now d st t Hin)
    as (h & ex & l1 & l2 & _ & _ & Hu & El & El').
  exists (updated_store now d (token_number t) st h ex (run trace ∅)), l1, l2.
  split; [done|]. split; [done|]. split; [done|].
  intros x. rewrite El', El. apply (count_status_replace x l1 l2 t).
Qed.

(** Scenario A: Asha's token is sent to the doctor. *)
Lemma update_moves_one_witness :
  In asha_token (listing day1 (run scenario_a ∅)) /\
  exists s' l1 l2,
    update_status at_0910 day1 (token_number asha_token) "WITH_DOCTOR" (run scenario_a ∅) =
      (Ok (Some (without_complaint (updated_token at_0910 "WITH_DOCTOR" asha_token))), s') /\
    listing day1 (run scenario_a ∅) = (l1 ++ asha_token :: l2)%list /\
    listing day1 s' = (l1 ++ updated_token at_0910 "WITH_DOCTOR" asha_token :: l2)%list /\
    forall x,
      count_status x (listing day1 s') =
        count_status x (listing day1 (run scenario_a ∅))
        - (if String.eqb (status asha_token) x then 1 else 0)
        + (if String.eqb "WITH_DOCTOR" x then 1 else 0).
Proof.
  assert (In asha_token (listing day1 (run scenario_a ∅))) as H
    by (vm_compute; left; reflexivity).
  split; [exact H|].
  exact (update_moves_one scenario_a at_0910 day1 "WITH_DOCTOR" asha_token H).
Defined.

(** ** Calling the next patient, in the summary *)

Lemma first_waiting_count l :
  match first_waiting l with
  | Some t => In t l /\ status t = "WAITING" /\ 0 < count_status "WAITING" l
  | None => count_status "WAITING" l = 0
  end.
Proof.
  unfold first_waiting, count_status.
  induction l as [|x l IH]; [done|]. cbn [List.find List.filter].
  destruct (String.eqb_spec (status x) "WAITING") as [E|E].
  - split; [by left|]. split; [done|]. simpl. lia.
  - destruct (List.find _ l) as [t|]; [|done].
    destruct IH as (Hin & Hst & Hc). split; [by right|]. done.
Qed.

(** X21. What calling the next patient does to the summary of the date.
    When nobody waits, nothing changes. Otherwise one token moves from
    "waiting" to "with_doctor" and "current_token" becomes its number;
    the other counters and the total stay. Nothing is done about a token
    that is with the doctor already, so after two calls in a row two
    tokens are counted with the doctor. *)
Theorem call_next_counts trace now d :
  let s := run trace ∅ in
  let s' := (call_next_patient now d s).2 in
  exists sm sm',
    get_queue_summary d s = (Ok sm, s) /\
    get_queue_summary d s' = (Ok sm', s') /\
    match first_waiting (listing d s) with
    | None => waiting sm = 0 /\ s' = s /\ sm' = sm
    | Some t =>
        waiting sm' = waiting sm - 1 /\
        with_doctor sm' = with_doctor sm + 1 /\
        current_token sm' = Some (token_number t) /\
        total_tokens sm' = total_tokens sm /\
        completed sm' = completed sm /\
        skipped sm' = skipped sm /\
        no_show sm' = no_show sm
    end.
Proof.
  intros s s'. assert (wf s) as Hwf by apply wf_run, wf_empty.
  assert (wf s') as Hwf'.
  { unfold s'. by destruct (call_next_patient_wf now d s Hwf). }
  destruct (get_queue_summary_ok d s (Hwf d))
    as (sm & Hsm & Ht & Hc & H0 & H1 & H2 & H3 & H4 & H5 & _).
  destruct (get_queue_summary_ok d s' (Hwf' d))
    as (sm' & Hsm' & Ht' & Hc' & G0 & G1 & G2 & G3 & G4 & G5 & _).
  exists sm, sm'. split; [done|]. split; [done|].
  pose proof (first_waiting_count (listing d s)) as Hf.
  unfold s' in *. rewrite call_next_patient_spec in * by done.
  destruct (first_waiting (listing d s)) as [t|] eqn:Ef.
  - destruct Hf as (Hin & Hst & _).
    destruct (update_status_listed trace now d "WITH_DOCTOR" t Hin)
      as (h & ex & l1 & l2 & Hk & Hd & Hu & El & El').
    fold s in Hu, El, El', Hk. rewrite Hu in *. cbn [snd] in *.
    rewrite G0, G1, G2, G3, G4, G5, H0, H1, H2, H3, H4, H5, Hc'.
    rewrite El', El,
      !(count_status_replace _ l1 l2 t (updated_token now "WITH_DOCTOR" t)),
      !length_app.
    cbn [length updated_token status]. rewrite Hst.
    rewrite updated_current_number by done.
    rewrite bool_decide_eq_true_2 by done.
    repeat split; try done; simpl; lia.
  - cbn [snd] in *. split; [by rewrite H1|]. split; [done|].
    rewrite Hsm in Hsm'. by injection Hsm' as <-.
Qed.

(** * Requests in the course of time *)

(** ** The shape that survives expiry *)

Lemma readable_empty d : readable_date d ∅.
Proof. apply wf_readable, wf_empty. Qed.

Lemma next_token_number_readable now d s :
  readable_date d s ->
  _get_next_token_number now d s =
    (Ok (counter_value d s + 1),
     <[_get_counter_key d :=
         Entry (VString (str (counter_value d s + 1)))
           (Some (server_time now + 86400))]> s).
Proof.
  intros Hrd. unfold _get_next_token_number, Redis.bind, incr.
  destruct (s !! _get_counter_key d) as [[v ex]|] eqn:E.
  - destruct (rd_counter _ _ Hrd _ E) as (c & Hv). simpl in Hv. subst v.
    rewrite (counter_value_spec _ _ _ _ E), int_str.
    unfold expire, ret. rewrite lookup_insert_eq. by rewrite insert_insert_eq.
  - rewrite (counter_value_absent _ _ E). simpl.
    unfold expire, ret. rewrite lookup_insert_eq. by rewrite insert_insert_eq.
Qed.

(** The mapping of [check_in] has all the fields a token dict is read
    from, so it decides the dict also over an older hash. *)
Lemma new_token_dict_over n pid pname appt checkin walk cc (h : gmap string string) :
  token_dict ((encode <$> new_token_data n pid pname appt checkin walk cc) ∪ h) =
    Ok (new_token n pid pname appt checkin walk cc).
Proof.
  apply token_dict_fields.
  destruct (new_token_data_fields n pid pname appt checkin walk cc)
    as (H1 & H2 & H3 & H4 & H5 & H6 & H7 & H8 & H9 & H10).
  cbv zeta in *.
  apply (lookup_union_Some_l _ h) in H1, H2, H3, H4, H5, H6, H7, H8, H9, H10.
  unfold token_fields, get_int_or_none, get_or_none, get_is_True.
  rewrite H1, H2, H3, H4, H5, H6, H7, H8, H9, H10. simpl.
  repeat split.
  - exists (str n). by rewrite int_str.
  - exists (str pid). by rewrite int_str.
  - destruct appt as [a|]; simpl; [|done].
    destruct (Z.eqb_spec a 0); simpl; [done|].
    by rewrite truthy_str, int_str.
  - by destruct walk.
  - by destruct cc.
Qed.

(** The three records a check-in writes, on a store of the right
    shape. *)
Lemma readable_three_records d n c (z : zset) (h : gmap string string) t
    dl1 dl2 dl3 s :
  (forall d', readable_date d' s) ->
  token_dict h = Ok t ->
  (forall sc m, In (sc, m) z -> exists k, m = str k) ->
  forall d',
    readable_date d'
      (<[_get_queue_key d := Entry (VZSet z) dl3]>
         (<[_get_token_key d n := Entry (VHash h) dl2]>
            (<[_get_counter_key d := Entry (VString (str c)) dl1]> s))).
Proof.
  intros Hrd Ht Hz d'. split.
  - intros e. destruct (decide (d' = d)) as [->|Hne].
    + rewrite lookup_insert_eq. intros [= <-]. eauto.
    + rewrite !lookup_insert_ne by key_ne. apply (rd_queue _ _ (Hrd d')).
  - intros m e. rewrite lookup_insert_ne by key_ne.
    destruct (decide ((d', m) = (d, n))) as [[= -> ->]|Hne].
    + rewrite lookup_insert_eq. intros [= <-]. eauto.
    + apply not_eq_sym, token_key_ne in Hne.
      rewrite lookup_insert_ne by done. rewrite lookup_insert_ne by key_ne.
      apply (rd_token _ _ (Hrd d')).
  - intros e. rewrite !lookup_insert_ne by key_ne.
    apply (rd_current _ _ (Hrd d')).
  - intros e. rewrite !lookup_insert_ne by key_ne.
    destruct (decide (d' = d)) as [->|Hne].
    + rewrite lookup_insert_eq. intros [= <-]. eauto.
    + rewrite lookup_insert_ne by key_ne. apply (rd_counter _ _ (Hrd d')).
Qed.

(** [check_in] on a store of which any keys may have expired: it
    returns the number after the counter's and keeps the shape. *)
Lemma check_in_readable now d pid pname appt walk cc s :
  (forall d', readable_date d' s) ->
  let n := counter_value d s + 1 in
  let data := new_token_data n pid pname appt (utcnow now) walk cc in
  exists s',
    check_in now d pid pname appt walk cc s = (Ok data, s') /\
    s' !! _get_counter_key d =
      Some (Entry (VString (str n)) (Some (server_time now + 86400))) /\
    (forall d', d' <> d -> s' !! _get_counter_key d' = s !! _get_counter_key d') /\
    (forall d', readable_date d' s').
Proof.
  intros Hrd n data.
  set (dl := Some (server_time now + 86400)).
  assert (forall (z : zset) (h : gmap string string),
            token_dict h = Ok (new_token n pid pname appt (utcnow now) walk cc) ->
            (forall sc m, In (sc, m) z -> exists k, m = str k) ->
            let s' := <[_get_queue_key d := Entry (VZSet z) dl]>
                        (<[_get_token_key d n := Entry (VHash h) dl]>
                           (<[_get_counter_key d := Entry (VString (str n)) dl]> s)) in
            s' !! _get_counter_key d = Some (Entry (VString (str n)) dl) /\
            (forall d', d' <> d -> s' !! _get_counter_key d' = s !! _get_counter_key d') /\
            (forall d', readable_date d' s')) as Hshape.
  { intros z h Hh Hz s'. split; [|split].
    - unfold s'. rewrite !lookup_insert_ne by key_ne. by rewrite lookup_insert_eq.
    - intros d' Hne. unfold s'. by rewrite !lookup_insert_ne by key_ne.
    - by eapply readable_three_records. }
  unfold check_in, Redis.bind at 1.
  rewrite next_token_number_readable by done. fold n. fold data. fold dl.
  unfold Redis.bind, hset_mapping. rewrite lookup_insert_ne by key_ne.
  destruct (s !! _get_token_key d n) as [[v ex]|] eqn:Et.
  - destruct (rd_token _ _ (Hrd d) _ _ Et) as (h & t & Hv & _).
    simpl in Hv. subst v.
    unfold expire at 1. rewrite lookup_insert_eq, insert_insert_eq.
    unfold zadd. rewrite !lookup_insert_ne by key_ne.
    destruct (s !! _get_queue_key d) as [[v exq]|] eqn:Eq.
    + destruct (rd_queue _ _ (Hrd d) _ Eq) as (z & Hv & Hz).
      simpl in Hv. subst v.
      unfold expire, ret. rewrite lookup_insert_eq, insert_insert_eq.
      eexists. split; [reflexivity|]. apply Hshape.
      * apply new_token_dict_over.
      * intros sc m [[= -> ->]|[Hin _]%zremove_In]%zinsert_In; eauto.
    + unfold expire, ret. rewrite lookup_insert_eq, insert_insert_eq.
      eexists. split; [reflexivity|]. apply Hshape.
      * apply new_token_dict_over.
      * intros sc m [[= <- <-]|[]]. eauto.
  - unfold expire at 1. rewrite lookup_insert_eq, insert_insert_eq.
    unfold zadd. rewrite !lookup_insert_ne by key_ne.
    destruct (s !! _get_queue_key d) as [[v exq]|] eqn:Eq.
    + destruct (rd_queue _ _ (Hrd d) _ Eq) as (z & Hv & Hz).
      simpl in Hv. subst v.
      unfold expire, ret. rewrite lookup_insert_eq, insert_insert_eq.
      eexists. split; [reflexivity|]. apply Hshape.
      * apply new_token_dict.
      * intros sc m [[= -> ->]|[Hin _]%zremove_In]%zinsert_In; eauto.
    + unfold expire, ret. rewrite lookup_insert_eq, insert_insert_eq.
      eexists. split; [reflexivity|]. apply Hshape.
      * apply new_token_dict.
      * intros sc m [[= <- <-]|[]]. eauto.
Qed.

Lemma readable_updated_store now d n st h ex t s :
  s !! _get_token_key d n = Some (Entry (VHash h) ex) ->
  token_dict h = Ok t ->
  (forall d', readable_date d' s) ->
  forall d', readable_date d' (updated_store now d n st h ex s).
Proof.
  intros Hs Ht Hrd d'. split.
  - intros e. rewrite updated_queue_key. apply (rd_queue _ _ (Hrd d')).
  - intros m e. destruct (decide ((d', m) = (d, n))) as [[= -> ->]|Hne].
    + rewrite updated_token_key_same. intros [= <-].
      exists (updated_hash now st h), (updated_token now st t).
      split; [done|]. by apply updated_hash_token.
    + rewrite updated_token_key_other by done. apply (rd_token _ _ (Hrd d')).
  - intros e. destruct (decide (d' = d)) as [->|Hne].
    + apply updated_current_key_shape. apply (rd_current _ _ (Hrd d)).
    + rewrite updated_current_key_other by done. apply (rd_current _ _ (Hrd d')).
  - intros e. rewrite updated_counter_key. apply (rd_counter _ _ (Hrd d')).
Qed.

Lemma update_status_readable now d n st s :
  (forall d', readable_date d' s) ->
  exists r s',
    update_status now d n st s = (Ok r, s') /\
    (forall d', readable_date d' s') /\
    (forall d', s' !! _get_counter_key d' = s !! _get_counter_key d').
Proof.
  intros Hrd. destruct (s !! _get_token_key d n) as [[v ex]|] eqn:E.
  - destruct (rd_token _ _ (Hrd d) _ _ E) as (h & t & Hv & Ht).
    simpl in Hv. subst v.
    exists (Some (without_complaint (updated_token now st t))),
      (updated_store now d n st h ex s).
    split; [apply update_status_present; try done; apply (rd_current _ _ (Hrd d))|].
    split; [by eapply readable_updated_store|].
    intros d'. apply updated_counter_key.
  - exists None, s. split; [by apply update_status_absent|]. done.
Qed.

Lemma call_next_patient_readable now d s :
  (forall d', readable_date d' s) ->
  exists r s',
    call_next_patient now d s = (Ok r, s') /\
    (forall d', readable_date d' s') /\
    (forall d', s' !! _get_counter_key d' = s !! _get_counter_key d').
Proof.
  intros Hrd. unfold call_next_patient, Redis.bind.
  rewrite get_today_queue_readable by done. rewrite call_next_loop_spec.
  destruct (first_waiting (listing d s)) as [t|].
  - by apply update_status_readable.
  - by exists None, s.
Qed.

(** A request on such a store: it does not raise, it keeps the shape,
    and only a check-in touches a counter. *)
Lemma serve_readable now r s :
  (forall d, readable_date d s) ->
  exists x s',
    serve now r s = (Ok x, s') /\
    (forall d, readable_date d s') /\
    forall d,
      if is_check_in_for d r
      then reply_number (Ok x) = Some (counter_value d s + 1) /\
           s' !! _get_counter_key d =
             Some (Entry (VString (str (counter_value d s + 1)))
                     (Some (server_time now + 86400)))
      else s' !! _get_counter_key d = s !! _get_counter_key d.
Proof.
  intros Hrd. destruct r as [d0 pid pname appt walk cc|d0 n st|d0|d0 n|d0 n];
    unfold serve, Redis.bind, skip_patient, recall_patient.
  - destruct (check_in_readable now d0 pid pname appt walk cc s Hrd)
      as (s' & Hc & Hk & Hother & Hrd').
    cbv zeta in Hc. rewrite Hc. eexists _, s'. split; [reflexivity|].
    split; [done|]. intros d. cbn [is_check_in_for]. case_bool_decide as Hd.
    + subst d0. split; [|done]. cbn [reply_number].
      by rewrite new_token_data_number.
    + apply Hother. congruence.
  - destruct (update_status_readable now d0 n st s Hrd) as (x & s' & -> & ? & ?).
    by eexists _, s'.
  - destruct (call_next_patient_readable now d0 s Hrd) as (x & s' & -> & ? & ?).
    by eexists _, s'.
  - destruct (update_status_readable now d0 n "SKIPPED" s Hrd) as (x & s' & -> & ? & ?).
    by eexists _, s'.
  - destruct (update_status_readable now d0 n "WAITING" s Hrd) as (x & s' & -> & ? & ?).
    by eexists _, s'.
Qed.

Lemma run_at_snoc now r tr s :
  run_at (tr ++ [(now, r)])%list s =
    (serve now r (at_time (server_time now) (run_at tr s))).2.
Proof. unfold run_at. by rewrite fold_left_app. Qed.

Lemma readable_run_at trace d : readable_date d (run_at trace ∅).
Proof.
  revert d. induction trace as [|[now r] trace IH] using rev_ind; intros d.
  - apply readable_empty.
  - rewrite run_at_snoc.
    destruct (serve_readable now r (at_time (server_time now) (run_at trace ∅)))
      as (x & s' & Hs & Hrd & _).
    { intros d'. apply readable_at_time, IH. }
    rewrite Hs. apply Hrd.
Qed.

(** ** Token numbers while the counter lives *)

Lemma nondecreasing_snoc l x :
  nondecreasing (l ++ [x]) = true ->
  nondecreasing l = true /\ forall t, In t l -> t <= x.
Proof.
  induction l as [|a l IH]; [by split|].
  destruct l as [|b l].
  - simpl. rewrite andb_true_r. intros H%Z.leb_le. split; [done|].
    intros t [<-|[]]. done.
  - change (nondecreasing ((a :: b :: l) ++ [x]))
      with ((a <=? b) && nondecreasing ((b :: l) ++ [x])).
    intros [Hab Hrest]%andb_prop. apply Z.leb_le in Hab.
    destruct (IH Hrest) as [Hl Hx]. split.
    + change (nondecreasing (a :: b :: l)) with ((a <=? b) && nondecreasing (b :: l)).
      rewrite Hl. by apply Z.leb_le in Hab as ->.
    + intros t [<-|Hin]; [|by apply Hx].
      specialize (Hx b (or_introl eq_refl)). lia.
Qed.

Lemma gaps_snoc l x :
  gaps_under_a_day (l ++ [x]) = true ->
  gaps_under_a_day l = true /\
  match last l with
  | Some c => x < c + 86400
  | None => True
  end.
Proof.
  induction l as [|a l IH]; [by split|].
  destruct l as [|b l].
  - simpl. rewrite andb_true_r. intros H%Z.ltb_lt. by split.
  - change (gaps_under_a_day ((a :: b :: l) ++ [x]))
      with ((b <? a + 86400) && gaps_under_a_day ((b :: l) ++ [x])).
    intros [Hab Hrest]%andb_prop.
    destruct (IH Hrest) as [Hl Hx]. split.
    + change (gaps_under_a_day (a :: b :: l))
        with ((b <? a + 86400) && gaps_under_a_day (b :: l)).
      by rewrite Hl, Hab.
    + change (last (a :: b :: l)) with (last (b :: l)). done.
Qed.

Lemma clocks_snoc tr now r :
  clocks (tr ++ [(now, r)]) = (clocks tr ++ [server_time now])%list.
Proof. unfold clocks. by rewrite fmap_app. Qed.

Lemma check_ins_for_snoc d tr now r :
  check_ins_for d (tr ++ [(now, r)]) =
    (check_ins_for d tr + if is_check_in_for d r then 1 else 0)%nat.
Proof.
  unfold check_ins_for. rewrite List.filter_app, length_app.
  cbn [List.filter snd]. by destruct (is_check_in_for d r).
Qed.

Lemma issued_at_snoc d tr now r s :
  issued_at d (tr ++ [(now, r)]) s =
    (issued_at d tr s ++
     if is_check_in_for d r
     then [reply_number (serve_at now r (run_at tr s)).1]
     else [])%list.
Proof.
  revert s. induction tr as [|[now' r'] tr IH]; intros s.
  - cbn [app issued_at]. cbv zeta. by destruct (is_check_in_for d r).
  - cbn [app issued_at]. cbv zeta. rewrite IH.
    change (run_at ((now', r') :: tr) s) with (run_at tr (serve_at now' r' s).2).
    by destruct (is_check_in_for d r').
Qed.

Lemma counter_value_at_time_alive d s t c dl :
  s !! _get_counter_key d = Some (Entry (VString (str c)) (Some dl)) ->
  counter_value d (at_time t s) = if t <? dl then c else 0.
Proof.
  intros H. unfold counter_value. rewrite at_time_lookup, H.
  unfold alive. simpl. destruct (t <? dl); [by rewrite int_str|done].
Qed.

Lemma counter_value_at_time_absent d s t :
  s !! _get_counter_key d = None -> counter_value d (at_time t s) = 0.
Proof. intros H. unfold counter_value. by rewrite at_time_lookup, H. Qed.

(** The counter of a date along a trace in which time does not go back
    and every check-in for the date comes less than 24 hours after the
    one before: it holds the number of check-ins until 24 hours after
    the latest one, and once it is gone some request has seen that
    time. *)
Lemma counter_run_at d trace :
  nondecreasing (clocks trace) = true ->
  gaps_under_a_day (checkin_clocks d trace) = true ->
  let s := run_at trace ∅ in
  let N := check_ins_for d trace in
  match last (checkin_clocks d trace) with
  | None => s !! _get_counter_key d = None
  | Some c =>
      s !! _get_counter_key d =
        Some (Entry (VString (str (Z.of_nat N))) (Some (c + 86400))) \/
      (s !! _get_counter_key d = None /\
       exists t, In t (clocks trace) /\ c + 86400 <= t)
  end /\
  issued_at d trace ∅ = (fun i => Some (Z.of_nat i)) <$> seq 1 N.
Proof.
  induction trace as [|[now r] trace IH] using rev_ind; intros Hmono Hgaps.
  { cbv zeta. simpl. by rewrite lookup_empty. }
  rewrite clocks_snoc in Hmono. apply nondecreasing_snoc in Hmono as [Hmono Hle].
  rewrite checkin_clocks_snoc in Hgaps |- *.
  assert (gaps_under_a_day (checkin_clocks d trace) = true /\
          (is_check_in_for d r = true ->
           match last (checkin_clocks d trace) with
           | Some c => server_time now < c + 86400
           | None => True
           end)) as [Hgaps' Hgap].
  { destruct (is_check_in_for d r).
    - apply gaps_snoc in Hgaps as [? ?]. by split.
    - rewrite app_nil_r in Hgaps. by split. }
  specialize (IH Hmono Hgaps'). cbv zeta in IH. destruct IH as [IHc IHi].
  cbv zeta. rewrite run_at_snoc, issued_at_snoc, check_ins_for_snoc, last_snoc_if.
  rewrite clocks_snoc.
  set (s := run_at trace ∅) in *. set (t := server_time now) in *.
  destruct (serve_readable now r (at_time t s)) as (x & s' & Hs & _ & Hk).
  { intros d'. apply readable_at_time, readable_run_at. }
  unfold serve_at. fold t. rewrite Hs. cbn [fst snd]. specialize (Hk d).
  pose proof (checkin_clocks_length d trace) as Hlen.
  destruct (is_check_in_for d r) eqn:Er.
  - destruct Hk as [Hx Hk]. specialize (Hgap eq_refl).
    assert (counter_value d (at_time t s) = Z.of_nat (check_ins_for d trace)) as Hv.
    { destruct (last (checkin_clocks d trace)) as [c|] eqn:El.
      - destruct IHc as [Hc|(Hc & t0 & Hin & Ht0)].
        + rewrite (counter_value_at_time_alive _ _ _ _ _ Hc).
          by apply Z.ltb_lt in Hgap as ->.
        + specialize (Hle t0 Hin). lia.
      - rewrite counter_value_at_time_absent by done.
        apply last_None in El. rewrite El in Hlen. simpl in Hlen. lia. }
    rewrite Hv in Hx, Hk. split.
    + left. rewrite Hk. do 4 f_equal. lia.
    + rewrite IHi, Hx, Nat.add_1_r, seq_S, fmap_app. simpl. do 3 f_equal. lia.
  - rewrite Nat.add_0_r, app_nil_r. split; [|done]. rewrite Hk.
    rewrite at_time_lookup.
    destruct (last (checkin_clocks d trace)) as [c|] eqn:El.
    + destruct IHc as [Hc|(Hc & t0 & Hin & Ht0)].
      * rewrite Hc. unfold alive. simpl.
        destruct (Z.ltb_spec t (c + 86400)); [by left|].
        right. split; [done|]. exists t. split; [|done].
        apply in_or_app. right. by left.
      * rewrite Hc. right. split; [done|]. exists t0. split; [|done].
        apply in_or_app. by left.
    + by rewrite IHc.
Qed.

(** ** C3: the numbers handed out *)

(** Two walk-ins for one date, the second one second more than 24 hours
    after the first: the counter has expired in between and both get
    number 1. *)
Lemma check_in_numbers_counterexample :
  let trace := [(at_0900, walk_in 101 "Asha");
                (day_later_0900_01, walk_in 102 "Ravi")] in
  issued_at day1 trace ∅ = [Some 1; Some 1] /\
  ~ numbered_in_call_order day1 trace.
Proof.
  set (trace := [_; _]).
  assert (issued_at day1 trace ∅ = [Some 1; Some 1]) as H
    by (vm_compute; reflexivity).
  cbv zeta. split; [exact H|].
  unfold numbered_in_call_order. rewrite H. vm_compute. intros [=].
Qed.

(** C3, as the code has it. When time does not go back and every
    check-in for a date comes less than 24 hours after the check-in for
    that date before it, the check-ins for the date return 1, 2, ..., N
    in call order, whatever other requests come in between and whichever
    keys have expired on the way; the first check-in of a date gets 1
    without any set-up. A check-in that comes more than 24 hours after
    the latest one for the date finds the counter gone and gets 1
    again. *)
Theorem check_in_numbers d trace now r :
  nondecreasing (clocks trace) = true ->
  gaps_under_a_day (checkin_clocks d trace) = true ->
  issued_at d trace ∅ =
    (fun i => Some (Z.of_nat i)) <$> seq 1 (check_ins_for d trace) /\
  (is_check_in_for d r = true ->
   (forall c, last (checkin_clocks d trace) = Some c ->
              c + 86400 < server_time now) ->
   reply_number (serve_at now r (run_at trace ∅)).1 = Some 1).
Proof.
  intros Hmono Hgaps.
  destruct (counter_run_at d trace Hmono Hgaps) as [Hc Hi]. cbv zeta in Hc.
  split; [exact Hi|]. intros Hr Hlate.
  set (s := run_at trace ∅) in *. set (t := server_time now) in *.
  destruct (serve_readable now r (at_time t s)) as (x & s' & Hs & _ & Hk).
  { intros d'. apply readable_at_time, readable_run_at. }
  unfold serve_at. fold t. rewrite Hs. cbn [fst]. specialize (Hk d).
  rewrite Hr in Hk. destruct Hk as [-> _]. do 2 f_equal.
  destruct (last (checkin_clocks d trace)) as [c|] eqn:El.
  - specialize (Hlate c eq_refl). destruct Hc as [Hc|[Hc _]].
    + rewrite (counter_value_at_time_alive _ _ _ _ _ Hc).
      destruct (Z.ltb_spec t (c + 86400)); lia.
    + by rewrite counter_value_at_time_absent.
  - by rewrite counter_value_at_time_absent.
Qed.

(** Scenario A, and a third walk-in at 10:00 on the next day. *)
Lemma check_in_numbers_witness :
  nondecreasing (clocks scenario_a) = true /\
  gaps_under_a_day (checkin_clocks day1 scenario_a) = true /\
  issued_at day1 scenario_a ∅ = [Some 1; Some 2] /\
  reply_number
    (serve_at next_day_1000 (walk_in 103 "Meera") (run_at scenario_a ∅)).1 =
    Some 1.
Proof.
  assert (nondecreasing (clocks scenario_a) = true) as H1
    by (vm_compute; reflexivity).
  assert (gaps_under_a_day (checkin_clocks day1 scenario_a) = true) as H2
    by (vm_compute; reflexivity).
  split; [exact H1|]. split; [exact H2|].
  destruct (check_in_numbers day1 scenario_a next_day_1000
              (walk_in 103 "Meera") H1 H2) as [Hi Hr].
  split; [exact Hi|]. apply Hr; [vm_compute; reflexivity|].
  intros c Hc. vm_compute in Hc. injection Hc as <-. vm_compute. reflexivity.
Defined.

(** ** Requests within one day *)

Lemma within_a_day_spec l :
  within_a_day l = true <-> forall a b, In a l -> In b l -> b < a + 86400.
Proof.
  unfold within_a_day. rewrite forallb_forall. split.
  - intros H a b Ha Hb. specialize (H a Ha). rewrite forallb_forall in H.
    by apply Z.ltb_lt, H.
  - intros H a Ha. apply forallb_forall. intros b Hb. by apply Z.ltb_lt, H.
Qed.

Lemma deadlines_from_mono T T' s :
  (forall t, In t T -> In t T') -> deadlines_from T s -> deadlines_from T' s.
Proof. intros Hsub H k e He. destruct (H k e He) as (t & ? & ?). eauto. Qed.

(** Served at [now], a request gives the keys it writes a lifetime from
    [now] and leaves the lifetime of the others. *)
Lemma serve_deadlines now r s T :
  wf s -> deadlines_from T s ->
  deadlines_from (T ++ [server_time now]) (serve now r s).2.
Proof.
  intros Hwf HT.
  assert (deadlines_from (T ++ [server_time now]) s) as HT'.
  { eapply deadlines_from_mono; [|done]. intros t Ht. apply in_or_app. by left. }
  assert (In (server_time now) (T ++ [server_time now])) as Hnow.
  { apply in_or_app. right. by left. }
  destruct (serve_cases now r s Hwf)
    as [(d0 & pid & pname & appt & walk & cc & -> & Hs)
       |[[Hs _]|(d0 & n & st & h & ex & t & Hk & _ & _ & Hs & _)]];
    cbv zeta in Hs; rewrite Hs; cbn [snd]; [|done|].
  - intros k e. unfold checked_in_store.
    rewrite !lookup_insert_Some.
    intros [[_ <-]|[_ [[_ <-]|[_ [[_ <-]|[_ He]]]]]]; eauto.
  - intros k e. unfold updated_store.
    destruct (HT' _ _ Hk) as (t0 & Ht0 & Hex). simpl in Hex.
    destruct (String.eqb st "WITH_DOCTOR").
    { rewrite !lookup_insert_Some.
      intros [[_ <-]|[_ [[_ <-]|[_ He]]]]; eauto. }
    destruct (String.eqb st "COMPLETED" || String.eqb st "NO_SHOW").
    + case_bool_decide.
      * rewrite lookup_delete_Some, lookup_insert_Some.
        intros [_ [[_ <-]|[_ He]]]; eauto.
      * rewrite lookup_insert_Some. intros [[_ <-]|[_ He]]; eauto.
    + rewrite lookup_insert_Some. intros [[_ <-]|[_ He]]; eauto.
Qed.

Lemma at_time_within t T s :
  deadlines_from T s -> (forall t0, In t0 T -> t < t0 + 86400) ->
  at_time t s = s.
Proof.
  intros HT Hlt. apply at_time_alive. intros k e He.
  destruct (HT k e He) as (t0 & Hin & Hex). unfold alive. rewrite Hex.
  apply Z.ltb_lt. by apply Hlt.
Qed.

(** While all requests are served within 24 hours of each other no key
    expires: time can be left out, and requests in order keep the
    pointer on the token that is with the doctor. *)
Lemma run_at_within trace :
  forall s T,
    wf s -> deadlines_from T s ->
    within_a_day (T ++ clocks trace) = true ->
    run_at trace s = run trace s /\
    deadlines_from (T ++ clocks trace) (run trace s) /\
    forall d, pointer_is_with_doctor d s -> in_order d trace s = true ->
              pointer_is_with_doctor d (run trace s).
Proof.
  induction trace as [|[now r] trace IH]; intros s T Hwf HT Hday.
  { split; [done|]. split; [|done]. cbn. by rewrite app_nil_r. }
  assert (at_time (server_time now) s = s) as Hs.
  { apply (at_time_within _ T); [done|]. intros t0 Ht0.
    rewrite within_a_day_spec in Hday. apply Hday.
    - apply in_or_app. by left.
    - apply in_or_app. right. by left. }
  change (clocks ((now, r) :: trace)) with (server_time now :: clocks trace) in *.
  replace (T ++ server_time now :: clocks trace)%list
    with ((T ++ [server_time now]) ++ clocks trace)%list in *
    by (by rewrite <- app_assoc).
  destruct (IH (serve now r s).2 (T ++ [server_time now])%list) as (Hr & Hd & Hp).
  { by apply serve_wf. }
  { by apply serve_deadlines. }
  { done. }
  rewrite run_cons.
  change (run_at ((now, r) :: trace) s) with (run_at trace (serve_at now r s).2).
  unfold serve_at. rewrite Hs. split; [done|]. split; [done|].
  intros d Hinv Ho. cbn [in_order] in Ho. cbv zeta in Ho. rewrite Hs in Ho.
  apply andb_true_iff in Ho as [Ho1 Ho2]. apply Hp; [|done].
  by apply pointer_is_with_doctor_serve.
Qed.

Lemma deadlines_from_empty T : deadlines_from T ∅.
Proof. intros k e. by rewrite lookup_empty. Qed.

Lemma run_at_run trace :
  within_a_day (clocks trace) = true -> run_at trace ∅ = run trace ∅.
Proof.
  intros H. by destruct (run_at_within trace ∅ [] wf_empty (deadlines_from_empty _) H).
Qed.

(** The same for a reading at a later time [t] of the same day. *)
Lemma at_time_run_at trace t :
  within_a_day (clocks trace ++ [t]) = true ->
  at_time t (run_at trace ∅) = run trace ∅.
Proof.
  intros H. rewrite within_a_day_spec in H.
  assert (within_a_day (clocks trace) = true) as H'.
  { apply within_a_day_spec. intros a b Ha Hb.
    apply H; apply in_or_app; by left. }
  destruct (run_at_within trace ∅ [] wf_empty (deadlines_from_empty _) H')
    as (-> & Hd & _).
  apply (at_time_within _ _ _ Hd). intros t0 Ht0. apply H.
  - apply in_or_app. by left.
  - apply in_or_app. right. by left.
Qed.

Lemma within_a_day_init l t :
  within_a_day (l ++ [t]) = true -> within_a_day l = true.
Proof.
  rewrite !within_a_day_spec. intros H a b Ha Hb.
  apply H; apply in_or_app; by left.
Qed.

(** ** C1: the current serving pointer *)

(** Nothing in the service keeps two tokens from being with the doctor.
    After scenario A, two calls in a row and the completion of token 2,
    the pointer is cleared and token 1 is still with the doctor. *)
Lemma pointer_counterexample :
  let s := run_at two_calls_in_a_row ∅ in
  current_number day1 s = None /\
  token_field day1 1 "status" s = Some "WITH_DOCTOR" /\
  ~ pointer_tracks_with_doctor day1 s.
Proof.
  set (s := run_at _ ∅).
  assert (current_number day1 s = None) as Hp by (vm_compute; reflexivity).
  assert (token_field day1 1 "status" s = Some "WITH_DOCTOR") as Hs
    by (vm_compute; reflexivity).
  cbv zeta. split; [exact Hp|]. split; [exact Hs|].
  intros [H _]. rewrite Hp in H. destruct H as [_ H].
  destruct H as [x Hx]; [eauto|done].
Qed.

Lemma pointer_is_with_doctor_tracks d s :
  pointer_is_with_doctor d s -> pointer_tracks_with_doctor d s.
Proof.
  intros H. split.
  - split.
    + intros [n Hn]. exists n. by apply H.
    + intros [n Hn]. exists n. by apply H.
  - intros n Hn. by apply H.
Qed.

Lemma pointer_in_order trace d :
  within_a_day (clocks trace) = true -> in_order d trace ∅ = true ->
  run_at trace ∅ = run trace ∅ /\ pointer_is_with_doctor d (run trace ∅).
Proof.
  intros Hday Ho.
  destruct (run_at_within trace ∅ [] wf_empty (deadlines_from_empty _) Hday)
    as (Hr & _ & Hp).
  split; [done|]. apply Hp; [|done]. apply pointer_is_with_doctor_empty.
Qed.

(** C1, as the code has it. In every state reached by requests that are
    served within 24 hours of each other, so that no key has expired,
    and that are in order for the date (a token is made WITH_DOCTOR only
    while no other token of the date is, and a token that is WITH_DOCTOR
    is only made COMPLETED or NO_SHOW; a request that finds no token, or
    nobody waiting, changes nothing and is in order), the pointer of the
    date says [n] exactly when token [n] is WITH_DOCTOR: it is set if
    and only if some token of the date is WITH_DOCTOR, it names that
    token, and no second token is WITH_DOCTOR. *)
Theorem pointer_invariant trace d :
  within_a_day (clocks trace) = true ->
  in_order d trace ∅ = true ->
  let s := run_at trace ∅ in
  pointer_tracks_with_doctor d s /\
  pointer_is_with_doctor d s /\
  (forall n m,
     token_field d n "status" s = Some "WITH_DOCTOR" ->
     token_field d m "status" s = Some "WITH_DOCTOR" -> n = m).
Proof.
  intros Hday Ho. destruct (pointer_in_order trace d Hday Ho) as [-> Hp].
  cbv zeta. split; [by apply pointer_is_with_doctor_tracks|]. split; [done|].
  intros n m Hn%Hp Hm%Hp. congruence.
Qed.

(** Scenario B is served within an hour and is in order. *)
Lemma pointer_invariant_witness :
  within_a_day (clocks scenario_b) = true /\
  in_order day1 scenario_b ∅ = true /\
  pointer_tracks_with_doctor day1 (run_at scenario_b ∅) /\
  current_number day1 (run_at scenario_b ∅) = Some 2.
Proof.
  assert (within_a_day (clocks scenario_b) = true) as H1
    by (vm_compute; reflexivity).
  assert (in_order day1 scenario_b ∅ = true) as H2 by (vm_compute; reflexivity).
  split; [exact H1|]. split; [exact H2|].
  destruct (pointer_invariant scenario_b day1 H1 H2) as (Ht & _ & _).
  split; [exact Ht|]. vm_compute. reflexivity.
Defined.

(** Two calls in a row are not in order; a call that finds nobody
    waiting is, and so is an update of a token that is not there. *)
Example two_calls_not_in_order :
  in_order day1 two_calls_in_a_row ∅ = false.
Proof. vm_compute. reflexivity. Qed.

Example idle_requests_in_order :
  in_order day1
    [(at_0900, walk_in 101 "Asha"); (at_0905, CallNext day1);
     (at_0910, CallNext day1);
     (at_1000, UpdateStatus day1 99 "WITH_DOCTOR")] ∅ = true.
Proof. vm_compute. reflexivity. Qed.

(** What the service does when the token that is with the doctor is
    skipped: the token is SKIPPED and the pointer still says 1. *)
Example skip_leaves_pointer :
  let s := run_at (scenario_a ++
                   [(at_0910, CallNext day1); (at_1000, Skip day1 1)])%list ∅ in
  current_number day1 s = Some 1 /\
  token_field day1 1 "status" s = Some "SKIPPED".
Proof. vm_compute. split; reflexivity. Qed.

(** ** One patient with the doctor *)

Lemma NoDup_filter_numbers (P : Token -> bool) l :
  NoDup (token_number <$> l) -> NoDup (token_number <$> List.filter P l).
Proof.
  induction l as [|x l IH]; [done|]. cbn [fmap list_fmap List.filter].
  intros [Hx Hl]%NoDup_cons. destruct (P x); [|by apply IH].
  cbn [fmap list_fmap]. apply NoDup_cons. split; [|by apply IH].
  intros Hin. apply Hx. apply list_elem_of_fmap in Hin as (y & Ey & Hy).
  apply list_elem_of_fmap. exists y. split; [done|].
  apply list_elem_of_In. apply list_elem_of_In, filter_In in Hy. tauto.
Qed.

Lemma NoDup_all_equal (l : list Z) n :
  NoDup l -> (forall m, m ∈ l -> m = n) -> (length l <= 1)%nat.
Proof.
  intros Hnd Hall. destruct l as [|a [|b l]]; simpl; [lia..|].
  assert (a = n) as -> by (apply Hall; set_solver).
  assert (b = n) as -> by (apply Hall; set_solver).
  apply NoDup_cons in Hnd as [Hn _]. set_solver.
Qed.

(** X10. While no key has expired and the requests on a date are in
    order (a token is sent to the doctor only while no other token is
    there, and a token with the doctor leaves only as COMPLETED or
    NO_SHOW; a request that finds no token, or nobody waiting, changes
    nothing and is in order), the summary never counts more than one
    patient with the doctor: for requests served within 24 hours of each
    other and of the reading, its "with_doctor" is 1 when
    "current_token" is set and 0 when it is not, and "current_token" is
    the number of the one listed token whose status is WITH_DOCTOR. *)
Theorem one_with_doctor trace d t :
  within_a_day (clocks trace ++ [t]) = true ->
  in_order d trace ∅ = true ->
  let s := at_time t (run_at trace ∅) in
  exists sm,
    get_queue_summary d s = (Ok sm, s) /\
    with_doctor sm = match current_token sm with Some _ => 1 | None => 0 end /\
    forall n, current_token sm = Some n <->
      exists x, In x (tokens sm) /\ token_number x = n /\
                status x = "WITH_DOCTOR".
Proof.
  intros Hday Ho. cbv zeta. rewrite (at_time_run_at trace t Hday).
  destruct (pointer_in_order trace d (within_a_day_init _ _ Hday) Ho) as [_ Hp].
  set (s := run trace ∅) in *. assert (wf s) as Hwf by apply wf_run, wf_empty.
  destruct (get_queue_summary_ok d s (Hwf d))
    as (sm & Hsm & Ht & Hc & _ & _ & H1 & _).
  exists sm. split; [done|]. rewrite Ht, Hc, H1.
  assert (forall n, current_number d s = Some n <-> In n (with_doctor_numbers d s))
    as Hiff.
  { intros n. rewrite with_doctor_numbers_spec by done. apply Hp. }
  assert (NoDup (with_doctor_numbers d s)) as Hnd.
  { apply NoDup_filter_numbers. unfold s. rewrite listing_numbers_run.
    apply NoDup_seqZ. }
  assert (count_status "WITH_DOCTOR" (listing d s) =
            Z.of_nat (length (with_doctor_numbers d s))) as ->.
  { unfold count_status, with_doctor_numbers. by rewrite length_fmap. }
  split.
  - destruct (current_number d s) as [n|] eqn:E.
    + pose proof (proj1 (Hiff n) eq_refl) as Hin.
      assert (length (with_doctor_numbers d s) <= 1)%nat.
      { apply (NoDup_all_equal _ n); [done|]. intros m Hm%list_elem_of_In.
        apply Hiff in Hm. congruence. }
      destruct (with_doctor_numbers d s); [done|]. simpl in *. lia.
    + destruct (with_doctor_numbers d s) as [|m l]; [done|].
      assert (None = Some m) by (apply Hiff; by left). done.
  - intros n. rewrite Hiff. unfold with_doctor_numbers.
    rewrite in_map_iff. split.
    + intros (x & <- & [Hin Hst]%filter_In). exists x.
      by apply String.eqb_eq in Hst.
    + intros (x & Hin & <- & Hst). exists x. split; [done|].
      apply filter_In. split; [done|]. by apply String.eqb_eq.
Qed.

(** Scenario B, read at 10:00. *)
Lemma one_with_doctor_witness :
  within_a_day (clocks scenario_b ++ [server_time at_1000]) = true /\
  in_order day1 scenario_b ∅ = true /\
  exists sm,
    (get_queue_summary day1
       (at_time (server_time at_1000) (run_at scenario_b ∅))).1 = Ok sm /\
    with_doctor sm = 1 /\ current_token sm = Some 2.
Proof.
  assert (within_a_day (clocks scenario_b ++ [server_time at_1000]) = true) as H1
    by (vm_compute; reflexivity).
  assert (in_order day1 scenario_b ∅ = true) as H2 by (vm_compute; reflexivity).
  split; [exact H1|]. split; [exact H2|].
  destruct (one_with_doctor scenario_b day1 (server_time at_1000) H1 H2)
    as (sm & Hsm & Hw & _).
  exists sm. split; [by rewrite Hsm|].
  assert (current_token sm = Some 2) as Hc.
  { assert ((get_queue_summary day1
               (at_time (server_time at_1000) (run_at scenario_b ∅))).1 = Ok sm)
      as E by (by rewrite Hsm).
    vm_compute in E. injection E as <-. reflexivity. }
  split; [by rewrite Hw, Hc|done].
Defined.

(** * The endpoints *)

(** ** Checking in an appointment *)

Lemma new_token_data_items n pid pname appt checkin walk cc :
  let data := new_token_data n pid pname appt checkin walk cc in
  data !! "token_number" = Some (VInt n) /\
  data !! "patient_id" = Some (VInt pid) /\
  data !! "patient_name" = Some (VStr pname) /\
  data !! "appointment_id" = Some (int_or_empty appt) /\
  data !! "status" = Some (VStr "WAITING") /\
  data !! "checkin_time" = Some (VStr (isoformat checkin)).
Proof.
  unfold new_token_data.
  generalize (int_or_empty appt) (str_or_empty cc) (VInt n) (VInt pid)
    (VStr pname) (VStr (isoformat checkin)) (VStr (str_bool walk)).
  intros. vm_compute. repeat split; reflexivity.
Qed.

Lemma checkin_response_ok n pid pname id checkin cc :
  QueueRouter.checkin_response
    (new_token_data n pid pname (Some id) checkin false cc) =
  if id =? 0 then QueueRouter.Uncaught QueueRouter.ValidationError
  else QueueRouter.Return
         (Schemas.mkQueueTokenResponse n pid pname (Some id) "WAITING"
            (isoformat checkin) None None false).
Proof.
  destruct (new_token_data_items n pid pname (Some id) checkin false cc)
    as (H1 & H2 & H3 & H4 & H5 & H6).
  unfold QueueRouter.checkin_response, QueueRouter.item.
  rewrite H1, H2, H3, H4, H5, H6. cbn [QueueRouter.rbind QueueRouter.fromisoformat
    QueueRouter.int_field QueueRouter.str_field int_or_empty].
  by destruct (id =? 0).
Qed.

Lemma walk_in_response_ok n pid pname checkin cc :
  QueueRouter.walk_in_response
    (new_token_data n pid pname None checkin true cc) =
  QueueRouter.Return
    (Schemas.mkQueueTokenResponse n pid pname None "WAITING"
       (isoformat checkin) None None true).
Proof.
  destruct (new_token_data_items n pid pname None checkin true cc)
    as (H1 & H2 & H3 & H4 & H5 & H6).
  unfold QueueRouter.walk_in_response, QueueRouter.item.
  by rewrite H1, H2, H3, H5, H6.
Qed.

(** The endpoint on a store of the shape the service keeps. *)
Lemma check_in_appointment_cases today now id A P s :
  wf_date today s ->
  let w := QueueRouter.World A P s in
  let out := QueueRouter.check_in_appointment today now id w in
  match A !! id with
  | None =>
      out = (QueueRouter.HTTPException 404
               ("Appointment " ++ str id ++ " not found"), w)
  | Some a =>
      if bool_decide (Models.dt_date (Models.a_appointment_date a) = today) then
        if bool_decide (Models.a_status a = Some Models.CHECKED_IN) then
          out = (QueueRouter.HTTPException 400 "Appointment already checked in", w)
        else
          match P !! Models.a_patient_id a with
          | None =>
              out = (QueueRouter.HTTPException 404
                       ("Patient " ++ str (Models.a_patient_id a) ++ " not found"),
                     w)
          | Some p =>
              let n := counter_value today s + 1 in
              let data := new_token_data n (Models.a_patient_id a)
                            (Models.p_name p) (Some id) (utcnow now) false
                            (Models.a_chief_complaint a) in
              out =
                (if id =? 0
                 then QueueRouter.Uncaught QueueRouter.ValidationError
                 else QueueRouter.Return
                        (Schemas.mkQueueTokenResponse n (Models.a_patient_id a)
                           (Models.p_name p) (Some id) "WAITING"
                           (isoformat (utcnow now)) None None false),
                 QueueRouter.World
                   (<[id := Models.mkAppointment (Models.a_patient_id a)
                              (Models.a_appointment_date a)
                              (Some Models.CHECKED_IN)
                              (Models.a_chief_complaint a)]> A)
                   P (checked_in_store now today n data s))
          end
      else
        out = (QueueRouter.HTTPException 400
                 ("Appointment is for " ++
                  date_isoformat (Models.dt_date (Models.a_appointment_date a)) ++
                  ", not today (" ++ date_isoformat today ++ ")"), w)
  end.
Proof.
  intros Hwf w out. unfold out, QueueRouter.check_in_appointment.
  cbn [QueueRouter.appointments QueueRouter.patients QueueRouter.redis w].
  destruct (A !! id) as [a|]; [|done].
  case_bool_decide; cbn [negb]; [|done].
  case_bool_decide; [done|].
  destruct (P !! Models.a_patient_id a) as [p|]; [|done].
  cbv zeta. rewrite check_in_ok by done. cbv zeta.
  by rewrite checkin_response_ok.
Qed.

(** X12. POST /queue/checkin/{appointment_id} on a store the service has
    built. The call answers with an HTTP error exactly when the
    appointment is missing (404), is not for today (400), is already
    CHECKED_IN (400) or has no patient row (404), and then nothing is
    changed, neither in the tables nor in Redis. The guard looks at
    CHECKED_IN only: an appointment in any other status, also one
    already WITH_DOCTOR, COMPLETED or CANCELLED, is checked in and gets
    a token. The only other failure is the validation of the response
    when the appointment's id is 0, which [check_in] stores as the empty
    text. *)
Theorem checkin_guards trace A P today now id :
  let w := QueueRouter.World A P (run trace ∅) in
  let out := QueueRouter.check_in_appointment today now id w in
  (forall c d, out.1 = QueueRouter.HTTPException c d -> out.2 = w) /\
  ((exists c d, out.1 = QueueRouter.HTTPException c d) <->
   ~ exists a p,
       A !! id = Some a /\
       Models.dt_date (Models.a_appointment_date a) = today /\
       Models.a_status a <> Some Models.CHECKED_IN /\
       P !! Models.a_patient_id a = Some p) /\
  (forall e, out.1 = QueueRouter.Uncaught e ->
             e = QueueRouter.ValidationError /\ id = 0) /\
  (forall a, A !! id = Some a ->
     (out.1 = QueueRouter.HTTPException 400 "Appointment already checked in" <->
      Models.dt_date (Models.a_appointment_date a) = today /\
      Models.a_status a = Some Models.CHECKED_IN)).
Proof.
  intros w out. assert (wf_date today (run trace ∅)) as Hwf by apply wf_run, wf_empty.
  pose proof (check_in_appointment_cases today now id A P _ Hwf) as H.
  cbv zeta in H. fold w in H. fold out in H.
  destruct (A !! id) as [a|] eqn:Ea.
  2:{ rewrite H. cbn [fst snd]. split; [done|]. split; [|split; [done|done]].
      split; [|eauto]. intros _ (a & p & ? & _). done. }
  case_bool_decide as Hd.
  2:{ rewrite H. cbn [fst snd]. split; [done|]. split; [|split; [done|]].
      - split; [|eauto]. intros _ (a' & p & [= <-] & ? & _). done.
      - intros a' [= <-]. split; [|tauto]. by intros [=]. }
  case_bool_decide as Hs.
  { rewrite H. cbn [fst snd]. split; [done|]. split; [|split; [done|]].
    - split; [|eauto]. intros _ (a' & p & [= <-] & _ & ? & _). done.
    - intros a' [= <-]. done. }
  destruct (P !! Models.a_patient_id a) as [p|] eqn:Ep.
  2:{ rewrite H. cbn [fst snd]. split; [done|]. split; [|split; [done|]].
      - split; [|eauto]. intros _ (a' & p & [= <-] & _ & _ & ?). congruence.
      - intros a' [= <-]. split; [done|]. tauto. }
  cbv zeta in H. rewrite H. cbn [fst snd]. split.
  { intros c d. by destruct (id =? 0). }
  split; [|split].
  - split.
    + intros (c & d & Hc). by destruct (id =? 0).
    + intros Hn. exfalso. apply Hn. exists a, p. done.
  - intros e. destruct (Z.eqb_spec id 0); [|done]. by intros [= <-].
  - intros a' [= <-]. split; [by destruct (id =? 0)|]. tauto.
Qed.

(** X13. A successful check-in of an appointment. When the appointment
    is for today, is not CHECKED_IN, has its patient row and an id other
    than 0, the call returns the next token of the day for that patient,
    marks the appointment CHECKED_IN and touches no other row; the new
    token is listed for today with the appointment's id and complaint.
    A second check-in of the same appointment right after is refused
    with 400 and changes nothing. *)
Theorem checkin_effect trace A P today now now' id a p :
  A !! id = Some a ->
  Models.dt_date (Models.a_appointment_date a) = today ->
  Models.a_status a <> Some Models.CHECKED_IN ->
  P !! Models.a_patient_id a = Some p ->
  id <> 0 ->
  let s := run trace ∅ in
  let n := counter_value today s + 1 in
  exists w' t,
    QueueRouter.check_in_appointment today now id (QueueRouter.World A P s) =
      (QueueRouter.Return
         (Schemas.mkQueueTokenResponse n (Models.a_patient_id a)
            (Models.p_name p) (Some id) "WAITING" (isoformat (utcnow now))
            None None false), w') /\
    QueueRouter.appointments w' =
      <[id := Models.mkAppointment (Models.a_patient_id a)
                (Models.a_appointment_date a) (Some Models.CHECKED_IN)
                (Models.a_chief_complaint a)]> A /\
    QueueRouter.patients w' = P /\
    QueueRouter.redis w' =
      (check_in now today (Models.a_patient_id a) (Models.p_name p) (Some id)
         false (Models.a_chief_complaint a) s).2 /\
    In t (listing today (QueueRouter.redis w')) /\
    token_number t = n /\ appointment_id t = Some id /\
    patient_id t = Models.a_patient_id a /\ status t = "WAITING" /\
    is_walk_in t = false /\
    QueueRouter.check_in_appointment today now' id w' =
      (QueueRouter.HTTPException 400 "Appointment already checked in", w').
Proof.
  intros Ha Hd Hst Hp Hid s n.
  assert (wf s) as Hwf by apply wf_run, wf_empty.
  pose proof (check_in_appointment_cases today now id A P s (Hwf today)) as H.
  cbv zeta in H. rewrite Ha, Hp in H.
  rewrite bool_decide_eq_true_2 in H by done.
  rewrite bool_decide_eq_false_2 in H by done.
  apply Z.eqb_neq in Hid. rewrite Hid in H. fold n in H.
  set (data := new_token_data n (Models.a_patient_id a) (Models.p_name p)
                 (Some id) (utcnow now) false (Models.a_chief_complaint a)) in *.
  set (s' := checked_in_store now today n data s) in *.
  set (A' := <[id := _]> A) in *.
  exists (QueueRouter.World A' P s'),
    (new_token n (Models.a_patient_id a) (Models.p_name p) (Some id)
       (utcnow now) false (Models.a_chief_complaint a)).
  split; [exact H|]. split; [done|]. split; [done|].
  split. { cbn [QueueRouter.redis]. by rewrite check_in_ok. }
  split.
  { cbn [QueueRouter.redis].
    destruct (listing_checked_in now today (Models.a_patient_id a)
                (Models.p_name p) (Some id) false (Models.a_chief_complaint a)
                s (Hwf today)) as [(l1 & l2 & _ & El) _].
    fold n in El. fold data in El. fold s' in El. rewrite El.
    apply in_or_app. right. by left. }
  split; [done|]. split; [simpl; by rewrite Hid|].
  split; [done|]. split; [done|]. split; [done|].
  unfold QueueRouter.check_in_appointment.
  cbn [QueueRouter.appointments QueueRouter.patients QueueRouter.redis].
  unfold A'. rewrite lookup_insert_eq. cbn [Models.a_appointment_date Models.a_status].
  rewrite bool_decide_eq_true_2 by done. cbn [negb].
  by rewrite bool_decide_eq_true_2.
Qed.

(** Appointment 7 of the sample tables, checked in at 09:00 on its
    day. *)
Lemma checkin_effect_witness :
  exists w',
    QueueRouter.check_in_appointment day1 at_0900 7 sample_world =
      (QueueRouter.Return
         (Schemas.mkQueueTokenResponse 1 101 "Asha" (Some 7) "WAITING"
            "2024-01-15T09:00:00" None None false), w') /\
    QueueRouter.check_in_appointment day1 at_0905 7 w' =
      (QueueRouter.HTTPException 400 "Appointment already checked in", w').
Proof.
  assert (sample_appointments !! 7 =
            Some (Models.mkAppointment 101 (Models.mkDateTime day1 34200000000)
                    (Some Models.SCHEDULED) (Some "fever"))) as H1
    by (vm_compute; reflexivity).
  assert (sample_patients !! 101 = Some (Models.mkPatient "Asha")) as H2
    by (vm_compute; reflexivity).
  destruct (checkin_effect [] sample_appointments sample_patients day1
              at_0900 at_0905 7 _ _ H1 eq_refl ltac:(discriminate) H2
              ltac:(discriminate))
    as (w' & t & Hr & _ & _ & _ & _ & _ & _ & _ & _ & _ & Hr').
  exists w'. split; [exact Hr|exact Hr'].
Defined.

(** ** Status changes and the appointment *)

Lemma checked_in_token_field now d pid pname appt walk cc s d' m f :
  let n := counter_value d s + 1 in
  let data := new_token_data n pid pname appt (utcnow now) walk cc in
  token_field d' m f (checked_in_store now d n data s) =
    if bool_decide ((d', m) = (d, n)) then (encode <$> data) !! f
    else token_field d' m f s.
Proof.
  intros n data. unfold token_field, token_hash. case_bool_decide as Hd.
  - injection Hd as -> ->. unfold data, n. by rewrite checked_in_token_key_same.
  - unfold data, n. by rewrite checked_in_token_key_other.
Qed.

(** The "appointment_id" of a stored token is empty or the text of a
    number other than 0. *)
Lemma appointment_field_run trace d n v :
  token_field d n "appointment_id" (run trace ∅) = Some v ->
  v = "" \/ exists a, a <> 0 /\ v = str a.
Proof.
  revert d n v. induction trace as [|[now r] trace IH] using rev_ind;
    intros d n v.
  - unfold token_field, token_hash, run. simpl. by rewrite lookup_empty.
  - rewrite run_snoc. set (s := run trace ∅) in *.
    assert (wf s) as Hwf by apply wf_run, wf_empty.
    destruct (serve_cases now r s Hwf)
      as [(d0 & pid & pname & appt & walk & cc & -> & Hs)
         |[[Hs _]|(d0 & m & st0 & h & ex & t & Hk & _ & _ & Hs & _)]];
      cbv zeta in Hs; rewrite Hs; cbn [snd].
    + rewrite checked_in_token_field. case_bool_decide; [|apply IH].
      destruct (new_token_data_fields (counter_value d0 s + 1) pid pname appt
                  (utcnow now) walk cc) as (_ & _ & _ & -> & _).
      intros [= <-]. destruct appt as [a|]; simpl; [|by left].
      destruct (Z.eqb_spec a 0); simpl; [by left|]. right. eauto.
    + apply IH.
    + rewrite updated_token_field_other by done. apply IH.
Qed.

Lemma appointment_id_nonzero trace d t :
  In t (listing d (run trace ∅)) -> appointment_id t <> Some 0.
Proof.
  intros Hin. assert (wf_date d (run trace ∅)) as Hwf by apply wf_run, wf_empty.
  destruct (listing_In _ _ _ Hwf Hin) as (sc & h & ex & _ & Hk & Ht).
  apply token_dict_fields in Ht as (_ & _ & _ & Ha & _).
  unfold get_int_or_none, get_or_none in Ha.
  destruct (h !! "appointment_id") as [v|] eqn:Ev.
  2:{ injection Ha as <-. done. }
  destruct (appointment_field_run trace d (token_number t) v) as [->|(a & Hne & ->)].
  { unfold token_field, token_hash. by rewrite Hk. }
  - simpl in Ha. injection Ha as <-. done.
  - rewrite truthy_str in Ha. simpl in Ha. rewrite int_str in Ha. simpl in Ha.
    injection Ha as <-. congruence.
Qed.

Lemma find_listed d s n :
  wf_date d s ->
  match List.find (fun t => token_number t =? n) (listing d s) with
  | Some t =>
      In t (listing d s) /\ token_number t = n /\
      exists h ex, s !! _get_token_key d n = Some (Entry (VHash h) ex) /\
                   token_dict h = Ok t
  | None => s !! _get_token_key d n = None
  end.
Proof.
  intros Hwf.
  destruct (List.find _ (listing d s)) as [t|] eqn:Ef.
  - apply find_some in Ef as [Hin Hn%Z.eqb_eq]. split; [done|]. split; [done|].
    destruct (listing_In _ _ _ Hwf Hin) as (sc & h & ex & _ & Hk & Ht).
    rewrite Hn in Hk. eauto.
  - destruct (s !! _get_token_key d n) as [e|] eqn:E; [|done]. exfalso.
    destruct (token_of_member_wf _ _ _ _ Hwf E) as (h & t & Ee & Ht & Hn & _).
    destruct (wf_listed _ _ Hwf n) as [sc Hsc]; [eauto|].
    rewrite Ee in E.
    pose proof (listing_intro d s sc n h _ t Hsc E Ht) as Hin.
    apply (find_none _ _ Ef) in Hin. apply Z.eqb_neq in Hin. done.
Qed.

(** X14. PATCH /queue/{token_number}/status on a store the service has
    built. When today's list has no token of that number the answer is
    404 and nothing is changed. Otherwise the token is updated as
    [update_status] does, the answer carries the updated token, and the
    appointment of the token, when the token has one and its row is
    there, follows: WITH_DOCTOR and COMPLETED are copied, NO_SHOW makes
    the appointment CANCELLED, and WAITING and SKIPPED leave it as it
    is. No other appointment and no patient is touched. *)
Theorem status_mirrored trace A P today now n st :
  let s := run trace ∅ in
  let w := QueueRouter.World A P s in
  let out := QueueRouter.update_token_status today now n st w in
  match List.find (fun t => token_number t =? n) (listing today s) with
  | None =>
      out = (QueueRouter.HTTPException 404
               ("Token " ++ str n ++ " not found in today's queue"), w)
  | Some t =>
      out.1 = QueueRouter.Return
                (QueueRouter.token_response
                   (without_complaint (updated_token now st t))) /\
      QueueRouter.redis out.2 = (update_status now today n st s).2 /\
      QueueRouter.patients out.2 = P /\
      QueueRouter.appointments out.2 =
        match appointment_id t with
        | Some a =>
            match A !! a with
            | Some row =>
                let set x :=
                  <[a := Models.mkAppointment (Models.a_patient_id row)
                           (Models.a_appointment_date row) (Some x)
                           (Models.a_chief_complaint row)]> A in
                if String.eqb st "WITH_DOCTOR" then set Models.WITH_DOCTOR
                else if String.eqb st "COMPLETED" then set Models.COMPLETED
                else if String.eqb st "NO_SHOW" then set Models.CANCELLED
                else A
            | None => A
            end
        | None => A
        end
  end.
Proof.
  intros s w out. assert (wf s) as Hwf by apply wf_run, wf_empty.
  pose proof (find_listed today s n (Hwf today)) as Hf.
  destruct (List.find _ (listing today s)) as [t|] eqn:Ef.
  - destruct Hf as (Hin & Hn & h & ex & Hk & Ht).
    pose proof (update_status_present now today n st s h ex t Hk Ht
                  (wf_current _ _ (Hwf today))) as Hu.
    unfold out, QueueRouter.update_token_status. cbn [QueueRouter.redis w].
    rewrite Hu. cbn [fst snd].
    unfold QueueRouter.appointment_of, w.
    cbn [appointment_id without_complaint updated_token QueueRouter.appointments
         QueueRouter.with_redis].
    destruct (appointment_id t) as [a|] eqn:Ea; [|done].
    assert ((a =? 0) = false) as ->.
    { apply Z.eqb_neq. intros ->. by apply (appointment_id_nonzero trace today t). }
    destruct (A !! a) as [row|]; [|done].
    destruct (String.eqb st "WITH_DOCTOR"); [done|].
    destruct (String.eqb st "COMPLETED"); [done|].
    by destruct (String.eqb st "NO_SHOW").
  - unfold out, QueueRouter.update_token_status. cbn [QueueRouter.redis w].
    by rewrite update_status_absent.
Qed.

(** ** Skipping and calling through the endpoints *)

(** X15. POST /queue/skip/{token_number} does to the tables and to
    Redis exactly what PATCH /queue/{token_number}/status with SKIPPED
    does, in every state: it fails in the same way, and the appointment
    of the token is never touched by either. The two answers differ only
    in "completed_time", which the skip endpoint never reports. *)
Theorem skip_not_mirrored today now n w :
  let skip := QueueRouter.skip_patient today now n w in
  let patch := QueueRouter.update_token_status today now n "SKIPPED" w in
  skip.2 = patch.2 /\
  QueueRouter.appointments skip.2 = QueueRouter.appointments w /\
  QueueRouter.patients skip.2 = QueueRouter.patients w /\
  match patch.1 with
  | QueueRouter.Return r =>
      skip.1 = QueueRouter.Return
                 (Schemas.mkQueueTokenResponse (Schemas.token_number r)
                    (Schemas.patient_id r) (Schemas.patient_name r)
                    (Schemas.appointment_id r) (Schemas.status r)
                    (Schemas.checkin_time r) (Schemas.called_time r) None
                    (Schemas.is_walk_in r))
  | QueueRouter.HTTPException c d => skip.1 = QueueRouter.HTTPException c d
  | QueueRouter.Uncaught e => skip.1 = QueueRouter.Uncaught e
  end.
Proof.
  unfold QueueRouter.skip_patient, QueueRouter.update_token_status,
    QueueService.skip_patient.
  destruct (update_status now today n "SKIPPED" (QueueRouter.redis w))
    as [[[t|]|e] r]; cbn [fst snd]; try done.
  change (String.eqb "SKIPPED" "WITH_DOCTOR") with false.
  change (String.eqb "SKIPPED" "COMPLETED") with false.
  change (String.eqb "SKIPPED" "NO_SHOW") with false. cbv iota.
  by destruct (QueueRouter.appointment_of (QueueRouter.with_redis w r) t)
    as [[a row]|].
Qed.

(** X16. POST /queue/next on a store the service has built. When no
    token of today's list waits, the answer is 404 and nothing is
    changed. Otherwise the call does to the tables and to Redis what
    PATCH with WITH_DOCTOR does for the first waiting token of the list,
    and it returns that token as updated, without "completed_time". *)
Theorem next_endpoint trace A P today now :
  let s := run trace ∅ in
  let w := QueueRouter.World A P s in
  let out := QueueRouter.call_next_patient today now w in
  match first_waiting (listing today s) with
  | None =>
      out = (QueueRouter.HTTPException 404 "No patients waiting in queue", w)
  | Some t =>
      out.1 = QueueRouter.Return
                (QueueRouter.called_response
                   (without_complaint (updated_token now "WITH_DOCTOR" t))) /\
      out.2 = (QueueRouter.update_token_status today now (token_number t)
                 "WITH_DOCTOR" w).2
  end.
Proof.
  intros s w out. assert (wf s) as Hwf by apply wf_run, wf_empty.
  unfold out, QueueRouter.call_next_patient, QueueRouter.update_token_status.
  cbn [QueueRouter.redis w].
  rewrite call_next_patient_spec by done.
  destruct (first_waiting (listing today s)) as [t|] eqn:Ef; [|done].
  destruct (first_waiting_split _ _ Ef) as (l1 & l2 & El & _).
  assert (In t (listing today s)) as Hin.
  { rewrite El. apply in_or_app. right. by left. }
  destruct (listing_In _ _ _ (Hwf today) Hin) as (sc & h & ex & _ & Hk & Ht).
  rewrite (update_status_present now today (token_number t) "WITH_DOCTOR" s h ex t
             Hk Ht (wf_current _ _ (Hwf today))).
  cbn [fst snd]. split; [done|].
  change (String.eqb "WITH_DOCTOR" "WITH_DOCTOR") with true. cbv iota.
  done.
Qed.

(** ** Who is being served *)

Lemma world_eta w :
  QueueRouter.with_redis w (QueueRouter.redis w) = w.
Proof. by destruct w. Qed.

(** X17. GET /queue/current while no key has expired: the requests
    served so far and the reading at server time [t] lie within 24 hours
    of each other. The endpoint changes nothing. When the pointer of
    today is not set it answers that no patient is being served; when
    the pointer holds [n], token [n] is in today's list, and the answer
    gives its patient's name and always the status text WITH_DOCTOR,
    whatever the status of the token is by then; that status is never
    COMPLETED or NO_SHOW. *)
Theorem current_endpoint trace A P today t :
  within_a_day (clocks trace ++ [t]) = true ->
  let s := at_time t (run_at trace ∅) in
  let w := QueueRouter.World A P s in
  let out := QueueRouter.get_current_serving today w in
  out.2 = w /\
  match current_number today s with
  | None =>
      out.1 = QueueRouter.Return
                (Schemas.NoneServing "No patient currently being served")
  | Some n =>
      exists x,
        In x (listing today s) /\ token_number x = n /\
        out.1 = QueueRouter.Return
                  (Schemas.Serving n (Some (patient_name x)) "WITH_DOCTOR") /\
        status x <> "COMPLETED" /\ status x <> "NO_SHOW"
  end.
Proof.
  intros Hday. cbv zeta. rewrite (at_time_run_at trace t Hday).
  set (s := run trace ∅). assert (wf s) as Hwf by apply wf_run, wf_empty.
  unfold QueueRouter.get_current_serving. cbn [QueueRouter.redis].
  rewrite get_current_serving_ok by done.
  destruct (current_number today s) as [n|] eqn:Ec; [|done].
  rewrite get_today_queue_ok by done. cbn [fst snd]. split; [done|].
  destruct (pointer_names_live_token_run trace today n Ec) as (st & Hst & H1 & H2).
  fold s in Hst.
  pose proof (find_listed today s n (Hwf today)) as Hf.
  destruct (List.find _ (listing today s)) as [x|] eqn:Ef.
  - destruct Hf as (Hin & Hn & h & ex & Hk & Ht).
    exists x. split; [done|]. split; [done|]. split; [done|].
    unfold token_field, token_hash in Hst. rewrite Hk in Hst. simpl in Hst.
    apply token_dict_fields in Ht as (_ & _ & _ & _ & Hs & _).
    rewrite Hs in Hst. injection Hst as ->. done.
  - unfold token_field, token_hash in Hst. by rewrite Hf in Hst.
Qed.

(** Scenario A and a call at 09:10, read at 10:00: Asha is being
    served. *)
Lemma current_endpoint_witness :
  within_a_day
    (clocks (scenario_a ++ [(at_0910, CallNext day1)]) ++ [server_time at_1000]) =
    true /\
  exists x,
    patient_name x = "Asha" /\
    (QueueRouter.get_current_serving day1
       (QueueRouter.World ∅ ∅
          (at_time (server_time at_1000)
             (run_at (scenario_a ++ [(at_0910, CallNext day1)]) ∅)))).1 =
    QueueRouter.Return (Schemas.Serving 1 (Some (patient_name x)) "WITH_DOCTOR").
Proof.
  assert (within_a_day
            (clocks (scenario_a ++ [(at_0910, CallNext day1)]) ++
             [server_time at_1000]) = true) as H
    by (vm_compute; reflexivity).
  split; [exact H|].
  destruct (current_endpoint (scenario_a ++ [(at_0910, CallNext day1)]) ∅ ∅ day1
              (server_time at_1000) H) as [_ Hc].
  assert (current_number day1
            (at_time (server_time at_1000)
               (run_at (scenario_a ++ [(at_0910, CallNext day1)]) ∅)) = Some 1)
    as E by (vm_compute; reflexivity).
  rewrite E in Hc. destruct Hc as (x & Hin & _ & Hout & _).
  exists x. split; [|exact Hout].
  vm_compute in Hin. destruct Hin as [<-|[<-|[]]]; [reflexivity|].
  exfalso. clear -Hout. vm_compute in Hout. discriminate.
Defined.

(** ** Walk-ins *)

(** X18. POST /queue/walk-in on a store the service has built. A
    patient without a row gets 404 and nothing is changed. Any patient
    with a row gets the next token of the day, marked as a walk-in and
    without an appointment, and no table is touched. There is no guard
    against a second walk-in: the same patient asking again right after
    gets the token after that one. *)
Theorem walk_in_endpoint trace A P today now now' pid cc cc' :
  let s := run trace ∅ in
  let w := QueueRouter.World A P s in
  let n := counter_value today s + 1 in
  let out := QueueRouter.add_walk_in_patient today now pid cc w in
  match P !! pid with
  | None =>
      out = (QueueRouter.HTTPException 404
               ("Patient " ++ str pid ++ " not found"), w)
  | Some p =>
      out = (QueueRouter.Return
               (Schemas.mkQueueTokenResponse n pid (Models.p_name p) None
                  "WAITING" (isoformat (utcnow now)) None None true),
             QueueRouter.World A P
               (check_in now today pid (Models.p_name p) None true cc s).2) /\
      (QueueRouter.add_walk_in_patient today now' pid cc' out.2).1 =
        QueueRouter.Return
          (Schemas.mkQueueTokenResponse (n + 1) pid (Models.p_name p) None
             "WAITING" (isoformat (utcnow now')) None None true)
  end.
Proof.
  intros s w n out. assert (wf s) as Hwf by apply wf_run, wf_empty.
  unfold out, QueueRouter.add_walk_in_patient, w.
  cbn [QueueRouter.patients QueueRouter.redis].
  destruct (P !! pid) as [p|] eqn:Ep; [|done].
  rewrite check_in_ok by done. cbv zeta. rewrite walk_in_response_ok.
  cbn [fst snd QueueRouter.with_redis QueueRouter.appointments
       QueueRouter.patients QueueRouter.redis].
  split; [done|]. rewrite Ep.
  fold n. set (data := new_token_data n pid (Models.p_name p) None (utcnow now) true cc).
  assert (wf_date today (checked_in_store now today n data s)) as Hwf'
    by (by apply wf_checked_in).
  rewrite check_in_ok by done. cbv zeta. rewrite walk_in_response_ok.
  unfold data, n. by rewrite checked_in_counter_value.
Qed.

(** ** What the endpoints do to the tables *)

Lemma same_rows_kept_refl A : same_rows_kept A A.
Proof. intros id. by destruct (A !! id). Qed.

Lemma same_rows_kept_commit w id a st :
  QueueRouter.appointments w !! id = Some a ->
  same_rows_kept (QueueRouter.appointments w)
    (QueueRouter.appointments (QueueRouter.commit_status w id a st)).
Proof.
  intros Ha id'. cbn [QueueRouter.commit_status QueueRouter.appointments].
  destruct (decide (id' = id)) as [->|Hne].
  - by rewrite lookup_insert_eq, Ha.
  - rewrite lookup_insert_ne by done.
    by destruct (QueueRouter.appointments w !! id').
Qed.

Lemma appointment_of_Some w t a row :
  QueueRouter.appointment_of w t = Some (a, row) ->
  QueueRouter.appointments w !! a = Some row.
Proof.
  unfold QueueRouter.appointment_of.
  destruct (appointment_id t) as [a'|]; [|done].
  destruct (a' =? 0); [done|].
  destruct (QueueRouter.appointments w !! a') as [row'|] eqn:E; [|done].
  by intros [= <- <-].
Qed.

Lemma get_today_queue_endpoint_reads today w :
  (QueueRouter.get_today_queue today w).2 = w.
Proof.
  unfold QueueRouter.get_today_queue.
  pose proof (get_queue_summary_reads today (QueueRouter.redis w)) as H.
  destruct (get_queue_summary today (QueueRouter.redis w)) as [[sm|e] r];
    simpl in H; subst r; apply world_eta.
Qed.

Lemma get_current_serving_endpoint_reads today w :
  (QueueRouter.get_current_serving today w).2 = w.
Proof.
  unfold QueueRouter.get_current_serving.
  pose proof (get_current_serving_reads today (QueueRouter.redis w)) as H.
  destruct (QueueService.get_current_serving today (QueueRouter.redis w))
    as [[[n|]|e] r]; simpl in H; subst r; try apply world_eta.
  pose proof (get_today_queue_reads today (QueueRouter.redis w)) as H.
  destruct (QueueService.get_today_queue today (QueueRouter.redis w))
    as [[l|e] r]; simpl in H; subst r; apply world_eta.
Qed.

(** X19. What no endpoint of the queue ever does, in any state: the two
    GET endpoints change neither the tables nor Redis; the other five
    never touch the patients table, never add or remove an appointment
    and never change the "patient_id", the "appointment_date" or the
    "chief_complaint" of an appointment (what they write to a row is its
    "status"); and a walk-in or a skip writes nothing to the
    appointments table. *)
Theorem tables_frame today now c w :
  let w' := QueueRouter.handle today now c w in
  (QueueRouter.get_today_queue today w).2 = w /\
  (QueueRouter.get_current_serving today w).2 = w /\
  QueueRouter.patients w' = QueueRouter.patients w /\
  same_rows_kept (QueueRouter.appointments w) (QueueRouter.appointments w') /\
  match c with
  | QueueRouter.PostWalkIn _ _ | QueueRouter.PostSkip _ =>
      QueueRouter.appointments w' = QueueRouter.appointments w
  | _ => True
  end.
Proof.
  intros w'. split; [apply get_today_queue_endpoint_reads|].
  split; [apply get_current_serving_endpoint_reads|].
  unfold w'. destruct c as [id|pid cc| |n st|n]; cbn [QueueRouter.handle].
  - unfold QueueRouter.check_in_appointment.
    destruct (QueueRouter.appointments w !! id) as [a|] eqn:Ea;
      [|by split; [|split; [apply same_rows_kept_refl|]]].
    destruct (negb _); [by split; [|split; [apply same_rows_kept_refl|]]|].
    destruct (bool_decide _); [by split; [|split; [apply same_rows_kept_refl|]]|].
    destruct (QueueRouter.patients w !! _) as [p|];
      [|by split; [|split; [apply same_rows_kept_refl|]]].
    destruct (check_in _ _ _ _ _ _ _ _) as [[data|e] r]; cbn [snd].
    + split; [done|]. split; [|done].
      by apply (same_rows_kept_commit (QueueRouter.with_redis w r)).
    + by split; [|split; [apply same_rows_kept_refl|]].
  - unfold QueueRouter.add_walk_in_patient.
    destruct (QueueRouter.patients w !! pid) as [p|];
      [|by split; [|split; [apply same_rows_kept_refl|]]].
    destruct (check_in _ _ _ _ _ _ _ _) as [[data|e] r]; cbn [snd];
      by split; [|split; [apply same_rows_kept_refl|]].
  - unfold QueueRouter.call_next_patient.
    destruct (QueueService.call_next_patient _ _ _) as [[[t|]|e] r]; cbn [snd];
      try (by split; [|split; [apply same_rows_kept_refl|]]).
    destruct (QueueRouter.appointment_of _ t) as [[a row]|] eqn:E;
      [|by split; [|split; [apply same_rows_kept_refl|]]].
    apply appointment_of_Some in E. split; [done|]. split; [|done].
    by apply (same_rows_kept_commit (QueueRouter.with_redis w r)).
  - unfold QueueRouter.update_token_status.
    destruct (QueueService.update_status _ _ _ _ _) as [[[t|]|e] r]; cbn [snd];
      try (by split; [|split; [apply same_rows_kept_refl|]]).
    destruct (QueueRouter.appointment_of _ t) as [[a row]|] eqn:E;
      [|by split; [|split; [apply same_rows_kept_refl|]]].
    apply appointment_of_Some in E.
    destruct (String.eqb st "WITH_DOCTOR").
    { split; [done|]. split; [|done].
      by apply (same_rows_kept_commit (QueueRouter.with_redis w r)). }
    destruct (String.eqb st "COMPLETED").
    { split; [done|]. split; [|done].
      by apply (same_rows_kept_commit (QueueRouter.with_redis w r)). }
    destruct (String.eqb st "NO_SHOW").
    { split; [done|]. split; [|done].
      by apply (same_rows_kept_commit (QueueRouter.with_redis w r)). }
    by split; [|split; [apply same_rows_kept_refl|]].
  - unfold QueueRouter.skip_patient.
    destruct (QueueService.skip_patient _ _ _ _) as [[[t|]|e] r]; cbn [snd];
      by split; [|split; [apply same_rows_kept_refl|]].
Qed.

(** ** From the endpoints to the service *)

Lemma serve_check_in_store now d pid pname appt walk cc s :
  (serve now (CheckIn d pid pname appt walk cc) s).2 =
    (check_in now d pid pname appt walk cc s).2.
Proof.
  unfold serve, Redis.bind.
  by destruct (check_in now d pid pname appt walk cc s) as [[x|e] r].
Qed.

Lemma serve_update_store now d n st s :
  (serve now (UpdateStatus d n st) s).2 = (update_status now d n st s).2.
Proof.
  unfold serve, Redis.bind.
  by destruct (update_status now d n st s) as [[x|e] r].
Qed.

Lemma serve_call_next_store now d s :
  (serve now (CallNext d) s).2 = (call_next_patient now d s).2.
Proof.
  unfold serve, Redis.bind.
  by destruct (call_next_patient now d s) as [[x|e] r].
Qed.

Lemma serve_skip_store now d n s :
  (serve now (Skip d n) s).2 = (QueueService.skip_patient now d n s).2.
Proof.
  unfold serve, Redis.bind.
  by destruct (QueueService.skip_patient now d n s) as [[x|e] r].
Qed.

(** Every call does to Redis what at most one request to the service
    does. *)
Lemma handle_redis today now c w :
  QueueRouter.redis (QueueRouter.handle today now c w) = QueueRouter.redis w \/
  exists r,
    QueueRouter.redis (QueueRouter.handle today now c w) =
      (serve now r (QueueRouter.redis w)).2 /\
    forall d n st, r = UpdateStatus d n st -> c = QueueRouter.PatchStatus n st.
Proof.
  destruct c as [id|pid cc| |n st|n]; cbn [QueueRouter.handle].
  - unfold QueueRouter.check_in_appointment.
    destruct (QueueRouter.appointments w !! id) as [a|]; [|by left].
    destruct (negb _); [by left|]. destruct (bool_decide _); [by left|].
    destruct (QueueRouter.patients w !! _) as [p|]; [|by left].
    right. exists (CheckIn today (Models.a_patient_id a) (Models.p_name p)
                     (Some id) false (Models.a_chief_complaint a)).
    rewrite serve_check_in_store.
    split; [|done].
    by destruct (check_in _ _ _ _ _ _ _ _) as [[data|e] r].
  - unfold QueueRouter.add_walk_in_patient.
    destruct (QueueRouter.patients w !! pid) as [p|]; [|by left].
    right. exists (CheckIn today pid (Models.p_name p) None true cc).
    rewrite serve_check_in_store.
    split; [|done].
    by destruct (check_in _ _ _ _ _ _ _ _) as [[data|e] r].
  - right. exists (CallNext today). rewrite serve_call_next_store.
    split; [|done]. unfold QueueRouter.call_next_patient.
    destruct (QueueService.call_next_patient _ _ _) as [[[t|]|e] r]; cbn [snd];
      try done.
    by destruct (QueueRouter.appointment_of _ t) as [[a row]|].
  - right. exists (UpdateStatus today n st). rewrite serve_update_store.
    split; [|by intros ? ? ? [= _ -> ->]].
    unfold QueueRouter.update_token_status.
    destruct (QueueService.update_status _ _ _ _ _) as [[[t|]|e] r]; cbn [snd];
      try done.
    destruct (QueueRouter.appointment_of _ t) as [[a row]|]; [|done].
    destruct (String.eqb st "WITH_DOCTOR"); [done|].
    destruct (String.eqb st "COMPLETED"); [done|].
    by destruct (String.eqb st "NO_SHOW").
  - right. exists (Skip today n). rewrite serve_skip_store.
    split; [|done]. unfold QueueRouter.skip_patient.
    by destruct (QueueService.skip_patient _ _ _ _) as [[[t|]|e] r].
Qed.

Lemma handle_all_run calls :
  forall w trace,
    QueueRouter.redis w = run trace ∅ ->
    exists trace',
      QueueRouter.redis (QueueRouter.handle_all calls w) = run trace' ∅ /\
      (updates_counted trace = true ->
       QueueRouter.statuses_admitted calls = true ->
       updates_counted trace' = true).
Proof.
  induction calls as [|[[today now] c] calls IH]; intros w trace Hw.
  - exists trace. split; [done|]. tauto.
  - unfold QueueRouter.handle_all. cbn [fold_left fst snd].
    fold (QueueRouter.handle_all calls (QueueRouter.handle today now c w)).
    destruct (handle_redis today now c w) as [Hs|(r & Hs & Hr)].
    + destruct (IH (QueueRouter.handle today now c w) trace) as (trace' & Ht & Hc).
      { by rewrite Hs. }
      exists trace'. split; [done|]. intros H1 H2. apply Hc; [done|].
      unfold QueueRouter.statuses_admitted in H2. cbn [forallb] in H2.
      by apply andb_prop in H2 as [_ H2].
    + destruct (IH (QueueRouter.handle today now c w) (trace ++ [(now, r)])%list)
        as (trace' & Ht & Hc).
      { by rewrite Hs, Hw, run_snoc. }
      exists trace'. split; [done|]. intros H1 H2.
      unfold QueueRouter.statuses_admitted in H2. cbn [forallb snd] in H2.
      apply andb_prop in H2 as [H2 H3]. apply Hc; [|done].
      unfold updates_counted. rewrite forallb_app. fold (updates_counted trace).
      rewrite H1. cbn [forallb snd andb]. rewrite andb_true_r.
      destruct r as [d pid pname appt walk cc|d n st|d|d n|d n]; try done.
      by rewrite (Hr d n st eq_refl) in H2.
Qed.

Lemma token_response_number (l : list Token) :
  Schemas.token_number <$> (QueueRouter.token_response <$> l) =
    token_number <$> l.
Proof. by rewrite <- list_fmap_compose. Qed.

(** X20. GET /queue/today after any series of calls to the endpoints,
    starting from an empty Redis and any tables. Each call does to Redis
    what at most one request to the service does, so the service's
    guarantees carry over: the endpoint answers, changing nothing; it
    lists no token number twice; "total_tokens" is the number of tokens
    listed and "checked_in" is waiting plus with_doctor; and when every
    PATCH carried a status that the schema admits, the five status
    counters add up to "total_tokens". *)
Theorem today_endpoint calls A P today :
  let w := QueueRouter.handle_all calls (QueueRouter.World A P ∅) in
  exists resp,
    QueueRouter.get_today_queue today w = (QueueRouter.Return resp, w) /\
    Schemas.date_ resp = today /\
    Schemas.total_tokens resp = Z.of_nat (length (Schemas.tokens resp)) /\
    NoDup (Schemas.token_number <$> Schemas.tokens resp) /\
    Schemas.checked_in resp = Schemas.waiting resp + Schemas.with_doctor resp /\
    (QueueRouter.statuses_admitted calls = true ->
     Schemas.total_tokens resp =
       Schemas.waiting resp + Schemas.with_doctor resp +
       Schemas.completed resp + Schemas.skipped resp + Schemas.no_show resp).
Proof.
  intros w.
  destruct (handle_all_run calls (QueueRouter.World A P ∅) []) as (trace & Hr & Hc);
    [done|].
  fold w in Hr. set (s := run trace ∅) in *.
  assert (wf s) as Hwf by apply wf_run, wf_empty.
  destruct (get_queue_summary_ok today s (Hwf today))
    as (sm & Hsm & Ht & Hcur & H0 & H1 & H2 & H3 & H4 & H5 & H6).
  eexists. split.
  { unfold QueueRouter.get_today_queue. rewrite Hr, Hsm.
    rewrite <- Hr. by rewrite world_eta. }
  cbn [Schemas.date_ Schemas.total_tokens Schemas.tokens Schemas.checked_in
       Schemas.waiting Schemas.with_doctor Schemas.completed Schemas.skipped
       Schemas.no_show Schemas.current_token].
  split; [done|]. split; [by rewrite length_fmap, Ht|]. split.
  { rewrite token_response_number, Ht. unfold s.
    rewrite listing_numbers_run. apply NoDup_seqZ. }
  split; [done|].
  intros Ha. rewrite H0, H1, H2, H3, H4, H5.
  rewrite (count_partition (listing today s)).
  rewrite count_uncounted_zero; [lia|].
  apply List.Forall_forall. intros t Hin.
  apply (statuses_counted trace today (token_number t)); [by apply Hc|].
  by apply listed_status.
Qed.

(** ** The pointer after its token has expired *)

(** X22. GET /queue/current once keys have expired. At any later time
    the endpoint still answers and changes nothing. The pointer is set
    24 hours ahead by the call that sends a token to the doctor, the
    token hash 24 hours ahead by its check-in, so the pointer can
    outlive its token: when the pointer holds [n] and the hash of token
    [n] or the day's index is gone, the answer still names [n], with
    status WITH_DOCTOR and no patient name; when both are there, it
    gives the patient's name as before. *)
Theorem current_after_expiry trace A P today t :
  let s := at_time t (run trace ∅) in
  let w := QueueRouter.World A P s in
  let out := QueueRouter.get_current_serving today w in
  out.2 = w /\
  match current_number today s with
  | None =>
      out.1 = QueueRouter.Return
                (Schemas.NoneServing "No patient currently being served")
  | Some n =>
      (is_Some (s !! _get_token_key today n) /\
       is_Some (s !! _get_queue_key today) ->
       exists x,
         In x (listing today s) /\ token_number x = n /\
         out.1 = QueueRouter.Return
                   (Schemas.Serving n (Some (patient_name x)) "WITH_DOCTOR")) /\
      (~ (is_Some (s !! _get_token_key today n) /\
          is_Some (s !! _get_queue_key today)) ->
       out.1 = QueueRouter.Return (Schemas.Serving n None "WITH_DOCTOR"))
  end.
Proof.
  intros s w out.
  assert (readable_date today s) as Hrd.
  { apply readable_at_time, wf_readable, wf_run, wf_empty. }
  split; [apply get_current_serving_endpoint_reads|].
  unfold out, QueueRouter.get_current_serving, w. cbn [QueueRouter.redis].
  rewrite get_current_serving_readable by done.
  destruct (current_number today s) as [n|] eqn:Ec; [|done].
  rewrite get_today_queue_readable by done. cbn [fst].
  pose proof (listed_at_time trace today n t) as Hl. cbv zeta in Hl. fold s in Hl.
  destruct (List.find _ (listing today s)) as [x|] eqn:Ef.
  - apply find_some in Ef as [Hin Hn%Z.eqb_eq]. split.
    + intros _. by exists x.
    + intros Hno. exfalso. apply Hno, Hl. by exists x.
  - split; [|done]. intros (x & Hin & Hn)%Hl. exfalso.
    apply (find_none _ _ Ef) in Hin. apply Z.eqb_neq in Hin. done.
Qed.

(** A walk-in at 09:00 is called at 10:00; at 09:30 on the next day the
    token has expired and the pointer has not. *)
Example stale_pointer :
  (QueueRouter.get_current_serving day1
     (QueueRouter.World ∅ ∅
        (at_time 1705397400
           (run [(at_0900, walk_in 101 "Asha"); (at_1000, CallNext day1)] ∅)))).1 =
  QueueRouter.Return (Schemas.Serving 1 None "WITH_DOCTOR").
Proof. vm_compute. reflexivity. Qed.
